(** * Pi-hole FTL: the in-memory record store of [src/datastructure.c]

    A shallow embedding of the identity resolver (find-or-create of
    domains, clients, upstreams and cache entries), of the aggregate
    counters, of the query status state machine, of the privacy-gated
    accessors and of the enum/string helpers, together with the properties
    the specification states about them.

    Conventions.
    - A C [int] is a [Z]; arithmetic on it goes through [int_add], which
      writes out the 32-bit two's-complement wrap-around.  A [uint32_t] is a
      [Z] reduced modulo 2^32.
    - A C enum is an [N] (the enums of this program have no negative
      enumerator, so their values are unsigned); the enumerators are
      notations for their numeric values.
    - A C string is a [string]; its terminating NUL is implicit.
    - A record array in shared memory is a [list] of records, a pointer into
      it is an index, and a NULL pointer is [None].
    - [log_warn]/[log_err] append to the [log] of the store; debug tracing
      ([log_debug]) has no effect on the store and is left out. *)

From Stdlib Require Import ZArith QArith Qround Ascii String.
From stdpp Require Import base decidable option strings numbers list.

Local Open Scope string_scope.
Local Open Scope Z_scope.

(** ** Machine integers *)

Module MachineInt.

Definition INT_MIN : Z := - 2 ^ 31.
Definition INT_MAX : Z := 2 ^ 31 - 1.

(** Reduction of a mathematical integer to a 32-bit signed [int]. *)
Definition int_wrap (z : Z) : Z := (z + 2 ^ 31) mod 2 ^ 32 - 2 ^ 31.

(** [a + b] on [int]s. *)
Definition int_add (a b : Z) : Z := int_wrap (a + b).

(** Reduction to a [uint32_t]. *)
Definition u32 (z : Z) : Z := z mod 2 ^ 32.

End MachineInt.
Export MachineInt.

(** ** C strings *)

Module CString.

(** Value of a character as [unsigned char]. *)
Definition uchar (c : ascii) : Z := Z.of_N (N_of_ascii c).

(** [tolower] in the C locale. *)
Definition tolower (c : ascii) : ascii :=
  let n := N_of_ascii c in
  if ((65 <=? n) && (n <=? 90))%N then ascii_of_N (n + 32) else c.

(** [strtolower]: lower-cases every character of the string. *)
Fixpoint strtolower (str : string) : string :=
  match str with
  | EmptyString => EmptyString
  | String c rest => String (tolower c) (strtolower rest)
  end.

(** [strcmp]: negative, zero or positive as [a] sorts before, with or
    after [b]. *)
Definition strcmp (a b : string) : Z :=
  match String.compare a b with
  | Eq => 0
  | Lt => -1
  | Gt => 1
  end.

(** [strcasecmp]: [strcmp] on the lower-cased strings. *)
Definition strcasecmp (a b : string) : Z :=
  strcmp (strtolower a) (strtolower b).

(** [s[0]]: the first character, NUL for the empty string. *)
Definition first_char (s : string) : ascii :=
  match s with
  | EmptyString => zero
  | String c _ => c
  end.

End CString.
Export CString.

(** ** Enumerations *)

(** Modelled from the spec: the header that declares the enums is not part
    of the sources.  The enumerators are numbered from zero in the order in
    which the specification (section 4.4 for the query status) and the
    [switch] statements of [datastructure.c] list them; each enum ends with
    its [_MAX] marker where the source names one. *)
Abbreviation QUERY_UNKNOWN := 0%N (only parsing).
Abbreviation QUERY_GRAVITY := 1%N (only parsing).
Abbreviation QUERY_FORWARDED := 2%N (only parsing).
Abbreviation QUERY_CACHE := 3%N (only parsing).
Abbreviation QUERY_REGEX := 4%N (only parsing).
Abbreviation QUERY_DENYLIST := 5%N (only parsing).
Abbreviation QUERY_EXTERNAL_BLOCKED_IP := 6%N (only parsing).
Abbreviation QUERY_EXTERNAL_BLOCKED_NULL := 7%N (only parsing).
Abbreviation QUERY_EXTERNAL_BLOCKED_NXRA := 8%N (only parsing).
Abbreviation QUERY_GRAVITY_CNAME := 9%N (only parsing).
Abbreviation QUERY_REGEX_CNAME := 10%N (only parsing).
Abbreviation QUERY_DENYLIST_CNAME := 11%N (only parsing).
Abbreviation QUERY_RETRIED := 12%N (only parsing).
Abbreviation QUERY_RETRIED_DNSSEC := 13%N (only parsing).
Abbreviation QUERY_IN_PROGRESS := 14%N (only parsing).
Abbreviation QUERY_DBBUSY := 15%N (only parsing).
Abbreviation QUERY_SPECIAL_DOMAIN := 16%N (only parsing).
Abbreviation QUERY_CACHE_STALE := 17%N (only parsing).
Abbreviation QUERY_STATUS_MAX := 18%N (only parsing).

Abbreviation REFRESH_ALL := 0%N (only parsing).
Abbreviation REFRESH_IPV4_ONLY := 1%N (only parsing).
Abbreviation REFRESH_UNKNOWN := 2%N (only parsing).
Abbreviation REFRESH_NONE := 3%N (only parsing).

Abbreviation MODE_IP := 0%N (only parsing).
Abbreviation MODE_NX := 1%N (only parsing).
Abbreviation MODE_NULL := 2%N (only parsing).
Abbreviation MODE_IP_NODATA_AAAA := 3%N (only parsing).
Abbreviation MODE_NODATA := 4%N (only parsing).
Abbreviation MODE_MAX := 5%N (only parsing).

Abbreviation PTR_PIHOLE := 0%N (only parsing).
Abbreviation PTR_HOSTNAME := 1%N (only parsing).
Abbreviation PTR_HOSTNAMEFQDN := 2%N (only parsing).
Abbreviation PTR_NONE := 3%N (only parsing).

Abbreviation BUSY_BLOCK := 0%N (only parsing).
Abbreviation BUSY_ALLOW := 1%N (only parsing).
Abbreviation BUSY_REFUSE := 2%N (only parsing).
Abbreviation BUSY_DROP := 3%N (only parsing).

Abbreviation LISTEN_LOCAL := 0%N (only parsing).
Abbreviation LISTEN_ALL := 1%N (only parsing).
Abbreviation LISTEN_SINGLE := 2%N (only parsing).
Abbreviation LISTEN_BIND := 3%N (only parsing).
Abbreviation LISTEN_NONE := 4%N (only parsing).

Abbreviation TEMP_UNIT_C := 0%N (only parsing).
Abbreviation TEMP_UNIT_F := 1%N (only parsing).
Abbreviation TEMP_UNIT_K := 2%N (only parsing).

(** The enumerator [e] as the [int] a parser returns. *)
Definition enum_int (e : N) : Z := Z.of_N e.

(** ** Status classification *)

Definition is_blocked (status : N) : bool :=
  match status with
  | QUERY_UNKNOWN
  | QUERY_FORWARDED
  | QUERY_CACHE
  | QUERY_RETRIED
  | QUERY_RETRIED_DNSSEC
  | QUERY_IN_PROGRESS
  | QUERY_CACHE_STALE
  | QUERY_STATUS_MAX => false
  | QUERY_GRAVITY
  | QUERY_REGEX
  | QUERY_DENYLIST
  | QUERY_EXTERNAL_BLOCKED_IP
  | QUERY_EXTERNAL_BLOCKED_NULL
  | QUERY_EXTERNAL_BLOCKED_NXRA
  | QUERY_GRAVITY_CNAME
  | QUERY_REGEX_CNAME
  | QUERY_DENYLIST_CNAME
  | QUERY_DBBUSY
  | QUERY_SPECIAL_DOMAIN => true
  | _ => false
  end.

Definition is_cached (status : N) : bool :=
  match status with
  | QUERY_CACHE
  | QUERY_CACHE_STALE => true
  | QUERY_UNKNOWN
  | QUERY_FORWARDED
  | QUERY_RETRIED
  | QUERY_RETRIED_DNSSEC
  | QUERY_IN_PROGRESS
  | QUERY_STATUS_MAX
  | QUERY_GRAVITY
  | QUERY_REGEX
  | QUERY_DENYLIST
  | QUERY_EXTERNAL_BLOCKED_IP
  | QUERY_EXTERNAL_BLOCKED_NULL
  | QUERY_EXTERNAL_BLOCKED_NXRA
  | QUERY_GRAVITY_CNAME
  | QUERY_REGEX_CNAME
  | QUERY_DENYLIST_CNAME
  | QUERY_DBBUSY
  | QUERY_SPECIAL_DOMAIN => false
  | _ => false
  end.

(** ** Enum to string and back *)

Definition get_refresh_hostnames_str (refresh : N) : string :=
  match refresh with
  | REFRESH_ALL => "ALL"
  | REFRESH_IPV4_ONLY => "IPV4_ONLY"
  | REFRESH_UNKNOWN => "UNKNOWN"
  | REFRESH_NONE => "NONE"
  | _ => "N/A"
  end.

Definition get_refresh_hostnames_val (refresh_hostnames : string) : Z :=
  if strcasecmp refresh_hostnames "ALL" =? 0 then enum_int REFRESH_ALL
  else if strcasecmp refresh_hostnames "IPV4_ONLY" =? 0 then enum_int REFRESH_IPV4_ONLY
  else if strcasecmp refresh_hostnames "UNKNOWN" =? 0 then enum_int REFRESH_UNKNOWN
  else if strcasecmp refresh_hostnames "NONE" =? 0 then enum_int REFRESH_NONE
  else -1.

Definition get_blocking_mode_str (mode : N) : string :=
  match mode with
  | MODE_IP => "IP"
  | MODE_NX => "NX"
  | MODE_NULL => "NULL"
  | MODE_IP_NODATA_AAAA => "IP_NODATA_AAAA"
  | MODE_NODATA => "NODATA"
  | MODE_MAX => "N/A"
  | _ => "N/A"
  end.

Definition get_blocking_mode_val (blocking_mode : string) : Z :=
  if strcasecmp blocking_mode "IP" =? 0 then enum_int MODE_IP
  else if strcasecmp blocking_mode "NX" =? 0 then enum_int MODE_NX
  else if strcasecmp blocking_mode "NULL" =? 0 then enum_int MODE_NULL
  else if strcasecmp blocking_mode "IP_NODATA_AAAA" =? 0 then enum_int MODE_IP_NODATA_AAAA
  else if strcasecmp blocking_mode "NODATA" =? 0 then enum_int MODE_NODATA
  else -1.

(** The following four printers end in [return NULL]: [None]. *)

Definition get_ptr_type_str (piholePTR : N) : option string :=
  match piholePTR with
  | PTR_PIHOLE => Some "PI.HOLE"
  | PTR_HOSTNAME => Some "HOSTNAME"
  | PTR_HOSTNAMEFQDN => Some "HOSTNAMEFQDN"
  | PTR_NONE => Some "NONE"
  | _ => None
  end.

Definition get_ptr_type_val (piholePTR : string) : Z :=
  if strcasecmp piholePTR "pi.hole" =? 0 then enum_int PTR_PIHOLE
  else if strcasecmp piholePTR "hostname" =? 0 then enum_int PTR_HOSTNAME
  else if strcasecmp piholePTR "hostnamefqdn" =? 0 then enum_int PTR_HOSTNAMEFQDN
  else if (strcasecmp piholePTR "none" =? 0) || (strcasecmp piholePTR "false" =? 0)
       then enum_int PTR_NONE
  else -1.

Definition get_busy_reply_str (replyWhenBusy : N) : option string :=
  match replyWhenBusy with
  | BUSY_BLOCK => Some "BLOCK"
  | BUSY_ALLOW => Some "ALLOW"
  | BUSY_REFUSE => Some "REFUSE"
  | BUSY_DROP => Some "DROP"
  | _ => None
  end.

Definition get_busy_reply_val (replyWhenBusy : string) : Z :=
  if strcasecmp replyWhenBusy "BLOCK" =? 0 then enum_int BUSY_BLOCK
  else if strcasecmp replyWhenBusy "ALLOW" =? 0 then enum_int BUSY_ALLOW
  else if strcasecmp replyWhenBusy "REFUSE" =? 0 then enum_int BUSY_REFUSE
  else if strcasecmp replyWhenBusy "DROP" =? 0 then enum_int BUSY_DROP
  else -1.

Definition get_listeningMode_str (listeningMode : N) : option string :=
  match listeningMode with
  | LISTEN_LOCAL => Some "LOCAL"
  | LISTEN_ALL => Some "ALL"
  | LISTEN_SINGLE => Some "SINGLE"
  | LISTEN_BIND => Some "BIND"
  | LISTEN_NONE => Some "NONE"
  | _ => None
  end.

Definition get_listeningMode_val (listeningMode : string) : Z :=
  if strcasecmp listeningMode "LOCAL" =? 0 then enum_int LISTEN_LOCAL
  else if strcasecmp listeningMode "ALL" =? 0 then enum_int LISTEN_ALL
  else if strcasecmp listeningMode "SINGLE" =? 0 then enum_int LISTEN_SINGLE
  else if strcasecmp listeningMode "BIND" =? 0 then enum_int LISTEN_BIND
  else if strcasecmp listeningMode "NONE" =? 0 then enum_int LISTEN_NONE
  else -1.

Definition get_temp_unit_str (temp_unit : N) : option string :=
  match temp_unit with
  | TEMP_UNIT_C => Some "C"
  | TEMP_UNIT_F => Some "F"
  | TEMP_UNIT_K => Some "K"
  | _ => None
  end.

Definition get_temp_unit_val (temp_unit : string) : Z :=
  if strcasecmp temp_unit "C" =? 0 then enum_int TEMP_UNIT_C
  else if strcasecmp temp_unit "F" =? 0 then enum_int TEMP_UNIT_F
  else if strcasecmp temp_unit "K" =? 0 then enum_int TEMP_UNIT_K
  else -1.

(** Modelled from the spec: the cache entry's blocking status starts as
    "unknown", the first enumerator of its enum. *)
Abbreviation UNKNOWN_BLOCKED := 0%N (only parsing).

(** ** Build constants and external collaborators

    The macros, the configuration constants and the collaborators that
    [datastructure.c] uses but does not define are the fields of [Env]. *)

Class Env := {
  (** whether plain [char] is signed (x86) or unsigned (ARM) *)
  CHAR_SIGNED : bool;
  (** value of a slot's [magic] byte while the slot is live *)
  MAGICBYTE : Z;
  (** number of time buckets *)
  OVERTIME_SLOTS : Z;
  (** privacy levels from which domains, resp. domains and clients, are
      hidden *)
  PRIVACY_HIDE_DOMAINS : N;
  PRIVACY_HIDE_DOMAINS_CLIENTS : N;
  (** redaction placeholders *)
  HIDDEN_DOMAIN : string;
  HIDDEN_CLIENT : string;
  (** time-bucket index of a timestamp *)
  getOverTimeID : Q → Z;
  (** alias-client rule engine: the ID of the alias-client that governs the
      client with this IP, or a negative number *)
  get_aliasclient_ID : string → Z
}.

(** An environment whose bucket index is always inside the bucket array. *)
Definition env_buckets_ok `{Env} : Prop :=
  ∀ t : Q, 0 ≤ getOverTimeID t < OVERTIME_SLOTS.

(** ** Hashing *)

Section Hash.
Context `{Env}.

(** [*s] promoted to [int]. *)
Definition char_int (c : ascii) : Z :=
  if CHAR_SIGNED && (128 <=? uchar c) then uchar c - 256 else uchar c.

Fixpoint hashStr_loop (s : string) (hash : Z) : Z :=
  match s with
  | EmptyString => hash
  | String c s' =>
      let hash := u32 (hash + char_int c) in
      let hash := u32 (hash + u32 (Z.shiftl hash 10)) in
      let hash := Z.lxor hash (Z.shiftr hash 6) in
      hashStr_loop s' hash
  end.

(** Jenkins' One-at-a-Time hash. *)
Definition hashStr (s : string) : Z :=
  let hash := hashStr_loop s 0 in
  let hash := u32 (hash + u32 (Z.shiftl hash 3)) in
  let hash := Z.lxor hash (Z.shiftr hash 11) in
  let hash := u32 (hash + u32 (Z.shiftl hash 15)) in
  hash.

End Hash.

(** ** Records *)

Module Domain.
Record domainsData := {
  magic : Z;
  count : Z;
  blockedcount : Z;
  domainpos : nat;
  domainhash : Z;
  lastQuery : Q
}.
End Domain.

Module Client.
Record clientsData := {
  magic : Z;
  count : Z;
  blockedcount : Z;
  ippos : nat;
  flags_new : bool;
  namepos : nat;
  lastQuery : Q;
  numQueriesARP : Z;
  flags_found_group : bool;
  groupspos : nat;
  reread_groups : Z;
  firstSeen : Z;
  ifacepos : nat;
  hwlen : Z;
  hwaddr : list Z;
  flags_aliasclient : bool;
  aliasclient_id : Z;
  overTime : list Z;
  id : Z
}.
End Client.

Module Upstream.
Record upstreamsData := {
  magic : Z;
  ippos : nat;
  failed : Z;
  flags_new : bool;
  namepos : nat;
  rtime : Q;
  rtuncertainty : Q;
  responses : Z;
  lastQuery : Q;
  port : Z
}.
End Upstream.

Module Cache.
Record DNSCacheData := {
  magic : Z;
  blocking_status : N;
  domainID : Z;
  clientID : Z;
  query_type : N;
  force_reply : Z;
  list_id : Z
}.
End Cache.

Module Query.
Record queriesData := {
  id : Z;
  timestamp : Q;
  domainID : Z;
  CNAME_domainID : Z;
  clientID : Z;
  type : N;
  status : N;
  privacylevel : N
}.
End Query.

Module OverTime.
Record overTimeData := {
  total : Z;
  blocked : Z;
  cached : Z;
  forwarded : Z
}.
End OverTime.

Module Counters.
Record countersStruct := {
  queries : Z;
  domains : Z;
  clients : Z;
  upstreams : Z;
  dns_cache_size : Z;
  status : list Z
}.
End Counters.

(** Messages of [log_warn] and [log_err]. *)
Inductive log_entry :=
  | Warn_add_to_aliasclient (name ip : string)
  | Err_memory (func : string).

(** Requests to collaborators: [set_event] and the per-client regex
    reload. *)
Inductive request :=
  | RESOLVE_NEW_HOSTNAMES
  | Reload_per_client_regex (clientID : Z).

(** ** The store: everything in shared memory, and the process globals *)

Record store := {
  counters : Counters.countersStruct;
  domains : list Domain.domainsData;
  clients : list Client.clientsData;
  upstreams : list Upstream.upstreamsData;
  dns_cache : list Cache.DNSCacheData;
  queries : list Query.queriesData;
  overTime : list OverTime.overTimeData;
  strings : list string;
  startup : bool;
  requests : list request;
  log : list log_entry
}.

Definition set_counters (f : Counters.countersStruct → Counters.countersStruct)
    (st : store) : store :=
  {| counters := f (counters st); domains := domains st; clients := clients st;
     upstreams := upstreams st; dns_cache := dns_cache st; queries := queries st;
     overTime := overTime st; strings := strings st; startup := startup st;
     requests := requests st; log := log st |}.

Definition set_domains (f : list Domain.domainsData → list Domain.domainsData)
    (st : store) : store :=
  {| counters := counters st; domains := f (domains st); clients := clients st;
     upstreams := upstreams st; dns_cache := dns_cache st; queries := queries st;
     overTime := overTime st; strings := strings st; startup := startup st;
     requests := requests st; log := log st |}.

Definition set_clients (f : list Client.clientsData → list Client.clientsData)
    (st : store) : store :=
  {| counters := counters st; domains := domains st; clients := f (clients st);
     upstreams := upstreams st; dns_cache := dns_cache st; queries := queries st;
     overTime := overTime st; strings := strings st; startup := startup st;
     requests := requests st; log := log st |}.

Definition set_upstreams (f : list Upstream.upstreamsData → list Upstream.upstreamsData)
    (st : store) : store :=
  {| counters := counters st; domains := domains st; clients := clients st;
     upstreams := f (upstreams st); dns_cache := dns_cache st; queries := queries st;
     overTime := overTime st; strings := strings st; startup := startup st;
     requests := requests st; log := log st |}.

Definition set_dns_cache (f : list Cache.DNSCacheData → list Cache.DNSCacheData)
    (st : store) : store :=
  {| counters := counters st; domains := domains st; clients := clients st;
     upstreams := upstreams st; dns_cache := f (dns_cache st); queries := queries st;
     overTime := overTime st; strings := strings st; startup := startup st;
     requests := requests st; log := log st |}.

Definition set_queries (f : list Query.queriesData → list Query.queriesData)
    (st : store) : store :=
  {| counters := counters st; domains := domains st; clients := clients st;
     upstreams := upstreams st; dns_cache := dns_cache st; queries := f (queries st);
     overTime := overTime st; strings := strings st; startup := startup st;
     requests := requests st; log := log st |}.

Definition set_overTime (f : list OverTime.overTimeData → list OverTime.overTimeData)
    (st : store) : store :=
  {| counters := counters st; domains := domains st; clients := clients st;
     upstreams := upstreams st; dns_cache := dns_cache st; queries := queries st;
     overTime := f (overTime st); strings := strings st; startup := startup st;
     requests := requests st; log := log st |}.

Definition set_strings (f : list string → list string) (st : store) : store :=
  {| counters := counters st; domains := domains st; clients := clients st;
     upstreams := upstreams st; dns_cache := dns_cache st; queries := queries st;
     overTime := overTime st; strings := f (strings st); startup := startup st;
     requests := requests st; log := log st |}.

Definition add_request (r : request) (st : store) : store :=
  {| counters := counters st; domains := domains st; clients := clients st;
     upstreams := upstreams st; dns_cache := dns_cache st; queries := queries st;
     overTime := overTime st; strings := strings st; startup := startup st;
     requests := requests st ++ [r]; log := log st |}.

Definition add_log (e : log_entry) (st : store) : store :=
  {| counters := counters st; domains := domains st; clients := clients st;
     upstreams := upstreams st; dns_cache := dns_cache st; queries := queries st;
     overTime := overTime st; strings := strings st; startup := startup st;
     requests := requests st; log := log st ++ [e] |}.

(** ** The string pool *)

(** Modelled from the spec: the pool ([addstr]/[getstr] of the shared-memory
    layer) is not part of the sources.  It is the append-only table of
    section 6, [resolve(offset) -> text]; the offset of a string is its
    index in the table, and the table starts with the empty string, so that
    offset 0 resolves to the string of length zero. *)
Definition getstr (st : store) (pos : nat) : string :=
  default "" (strings st !! pos).

(** Modelled from the spec: [intern(text) -> offset] of section 6; the
    string is appended to the table and its index is returned. *)
Definition addstr (input : string) (st : store) : store * nat :=
  (set_strings (λ pool, (pool ++ [input])%list) st, length (strings st)).

(** ** Loops over the slots of an array

    [for(int ID = 0; ID < count; ID++) { if(!body(ID)) continue; return ID; }]:
    the first ID below [count] at which the body returns, if any. *)

Fixpoint scan_loop (body : Z → bool) (ID : Z) (remaining : nat) : option Z :=
  match remaining with
  | O => None
  | S k => if body ID then Some ID else scan_loop body (ID + 1) k
  end.

Definition scan_IDs (count : Z) (body : Z → bool) : option Z :=
  scan_loop body 0 (Z.to_nat count).

(** [if(c) update;]: the update [f] is applied when [c] holds. *)
Definition when (c : bool) (f : store → store) (st : store) : store :=
  if c then f st else st.

Section Store.
Context `{Env}.

(** ** Record accessors *)

(** Modelled from the spec: [getDomain] belongs to the shared-memory layer,
    which is not part of the sources.  Per section 4.1 an accessor returns
    the record at an ID, and "not found" (NULL) for an ID that is negative,
    out of range or not yet allocated; with [checkMagic] it also returns
    NULL for a slot whose [magic] is not the live sentinel. *)
Definition getDomain (st : store) (domainID : Z) (checkMagic : bool)
    : option Domain.domainsData :=
  if domainID <? 0 then None
  else match domains st !! Z.to_nat domainID with
       | Some domain =>
           if checkMagic && negb (Domain.magic domain =? MAGICBYTE) then None
           else Some domain
       | None => None
       end.

(** Modelled from the spec: the accessor of section 4.1 for clients. *)
Definition getClient (st : store) (clientID : Z) (checkMagic : bool)
    : option Client.clientsData :=
  if clientID <? 0 then None
  else match clients st !! Z.to_nat clientID with
       | Some client =>
           if checkMagic && negb (Client.magic client =? MAGICBYTE) then None
           else Some client
       | None => None
       end.

(** Modelled from the spec: the accessor of section 4.1 for upstreams. *)
Definition getUpstream (st : store) (upstreamID : Z) (checkMagic : bool)
    : option Upstream.upstreamsData :=
  if upstreamID <? 0 then None
  else match upstreams st !! Z.to_nat upstreamID with
       | Some upstream =>
           if checkMagic && negb (Upstream.magic upstream =? MAGICBYTE) then None
           else Some upstream
       | None => None
       end.

(** Modelled from the spec: the accessor of section 4.1 for cache
    entries. *)
Definition getDNSCache (st : store) (cacheID : Z) (checkMagic : bool)
    : option Cache.DNSCacheData :=
  if cacheID <? 0 then None
  else match dns_cache st !! Z.to_nat cacheID with
       | Some cache =>
           if checkMagic && negb (Cache.magic cache =? MAGICBYTE) then None
           else Some cache
       | None => None
       end.

(** ** Upstreams *)

(** Body of the scan of [_findUpstreamID]. *)
Definition upstream_matches (st : store) (upstreamString : string) (port : Z)
    (upstreamID : Z) : bool :=
  match getUpstream st upstreamID false with
  | None => false
  | Some upstream =>
      (strcmp (getstr st (Upstream.ippos upstream)) upstreamString =? 0)
      && (Upstream.port upstream =? port)
  end.

Definition _findUpstreamID (st : store) (upstreamString : string) (port : Z)
    : store * Z :=
  match scan_IDs (Counters.upstreams (counters st))
                 (upstream_matches st upstreamString port) with
  | Some upstreamID => (st, upstreamID)
  | None =>
      let upstreamID := Counters.upstreams (counters st) in
      match getUpstream st upstreamID false with
      | None => (add_log (Err_memory "findupstreamID") st, -1)
      | Some _ =>
          let '(st, pos) := addstr upstreamString st in
          let st := add_request RESOLVE_NEW_HOSTNAMES st in
          let upstream :=
            {| Upstream.magic := MAGICBYTE;
               Upstream.ippos := pos;
               Upstream.failed := 0;
               Upstream.flags_new := true;
               Upstream.namepos := 0%nat;
               Upstream.rtime := 0%Q;
               Upstream.rtuncertainty := 0%Q;
               Upstream.responses := 0;
               Upstream.lastQuery := 0%Q;
               Upstream.port := port |} in
          let st := set_upstreams (λ a, <[Z.to_nat upstreamID := upstream]> a) st in
          let st := set_counters (λ c,
            {| Counters.queries := Counters.queries c;
               Counters.domains := Counters.domains c;
               Counters.clients := Counters.clients c;
               Counters.upstreams := int_add (Counters.upstreams c) 1;
               Counters.dns_cache_size := Counters.dns_cache_size c;
               Counters.status := Counters.status c |}) st in
          (st, upstreamID)
      end
  end.

(** ** Domains *)

(** Body of the loop of [get_next_free_domainID]. *)
Definition domain_is_free (st : store) (domainID : Z) : bool :=
  match getDomain st domainID false with
  | None => false
  | Some domain => Domain.magic domain =? 0
  end.

Definition get_next_free_domainID (st : store) : Z :=
  match scan_IDs (Counters.domains (counters st)) (domain_is_free st) with
  | Some domainID => domainID
  | None => Counters.domains (counters st)
  end.

(** Body of the scan of [_findDomainID]. *)
Definition domain_matches (st : store) (domainHash : Z) (domainString : string)
    (domainID : Z) : bool :=
  match getDomain st domainID false with
  | None => false
  | Some domain =>
      if negb (Domain.domainhash domain =? domainHash) then false
      else strcmp (getstr st (Domain.domainpos domain)) domainString =? 0
  end.

(** [domain->count++; domain->lastQuery = double_time();] *)
Definition domain_counted (now : Q) (domain : Domain.domainsData)
    : Domain.domainsData :=
  {| Domain.magic := Domain.magic domain;
     Domain.count := int_add (Domain.count domain) 1;
     Domain.blockedcount := Domain.blockedcount domain;
     Domain.domainpos := Domain.domainpos domain;
     Domain.domainhash := Domain.domainhash domain;
     Domain.lastQuery := now |}.

(** The fields of a domain record as [_findDomainID] initialises them. *)
Definition new_domain (domainString : string) (count : bool) (pos : nat)
    : Domain.domainsData :=
  {| Domain.magic := MAGICBYTE;
     Domain.count := if count then 1 else 0;
     Domain.blockedcount := 0;
     Domain.domainpos := pos;
     Domain.domainhash := hashStr domainString;
     Domain.lastQuery := 0%Q |}.

(** [counters->domains++] *)
Definition incr_domains (c : Counters.countersStruct) : Counters.countersStruct :=
  {| Counters.queries := Counters.queries c;
     Counters.domains := int_add (Counters.domains c) 1;
     Counters.clients := Counters.clients c;
     Counters.upstreams := Counters.upstreams c;
     Counters.dns_cache_size := Counters.dns_cache_size c;
     Counters.status := Counters.status c |}.

(** [now] is the reading of [double_time()]. *)
Definition _findDomainID (st : store) (domainString : string) (count : bool)
    (now : Q) : store * Z :=
  let domainHash := hashStr domainString in
  match scan_IDs (Counters.domains (counters st))
                 (domain_matches st domainHash domainString) with
  | Some domainID =>
      if count
      then (set_domains (alter (domain_counted now) (Z.to_nat domainID)) st, domainID)
      else (st, domainID)
  | None =>
      let domainID := get_next_free_domainID st in
      match getDomain st domainID false with
      | None => (add_log (Err_memory "findDomainID") st, -1)
      | Some _ =>
          let '(st, pos) := addstr domainString st in
          let domain := new_domain domainString count pos in
          let st := set_domains (λ a, <[Z.to_nat domainID := domain]> a) st in
          let st := set_counters incr_domains st in
          (st, domainID)
      end
  end.

(** ** Clients *)

(** [overTimeIdx > -1 && overTimeIdx < OVERTIME_SLOTS] *)
Definition overTimeIdx_in_range (overTimeIdx : Z) : bool :=
  (-1 <? overTimeIdx) && (overTimeIdx <? OVERTIME_SLOTS).

(** [client->count += total; client->blockedcount += blocked;], and
    [client->overTime[overTimeIdx] += overTimeMod] when [withOverTime]. *)
Definition client_add (total blocked : Z) (withOverTime : bool)
    (overTimeIdx overTimeMod : Z) (client : Client.clientsData)
    : Client.clientsData :=
  {| Client.magic := Client.magic client;
     Client.count := int_add (Client.count client) total;
     Client.blockedcount := int_add (Client.blockedcount client) blocked;
     Client.ippos := Client.ippos client;
     Client.flags_new := Client.flags_new client;
     Client.namepos := Client.namepos client;
     Client.lastQuery := Client.lastQuery client;
     Client.numQueriesARP := Client.numQueriesARP client;
     Client.flags_found_group := Client.flags_found_group client;
     Client.groupspos := Client.groupspos client;
     Client.reread_groups := Client.reread_groups client;
     Client.firstSeen := Client.firstSeen client;
     Client.ifacepos := Client.ifacepos client;
     Client.hwlen := Client.hwlen client;
     Client.hwaddr := Client.hwaddr client;
     Client.flags_aliasclient := Client.flags_aliasclient client;
     Client.aliasclient_id := Client.aliasclient_id client;
     Client.overTime :=
       if withOverTime
       then alter (λ n, int_add n overTimeMod) (Z.to_nat overTimeIdx)
                  (Client.overTime client)
       else Client.overTime client;
     Client.id := Client.id client |}.

(** [overTime[overTimeIdx].total += overTimeMod] *)
Definition overTime_add_total (overTimeMod : Z) (slot : OverTime.overTimeData)
    : OverTime.overTimeData :=
  {| OverTime.total := int_add (OverTime.total slot) overTimeMod;
     OverTime.blocked := OverTime.blocked slot;
     OverTime.cached := OverTime.cached slot;
     OverTime.forwarded := OverTime.forwarded slot |}.

(** [client] is the index of the record the pointer refers to; the result
    is [None] when the function dereferences an invalid or NULL pointer. *)
Definition change_clientcount (st : store) (client : nat)
    (total blocked overTimeIdx overTimeMod : Z) : option store :=
  match clients st !! client with
  | None => None
  | Some _ =>
      let inrange := overTimeIdx_in_range overTimeIdx in
      let st :=
        when inrange
             (set_overTime (alter (overTime_add_total overTimeMod)
                                  (Z.to_nat overTimeIdx))) st in
      let st :=
        set_clients (alter (client_add total blocked inrange overTimeIdx overTimeMod)
                           client) st in
      match clients st !! client with
      | None => None
      | Some c =>
          if Client.flags_aliasclient c
          then Some (add_log (Warn_add_to_aliasclient
                                (getstr st (Client.namepos c))
                                (getstr st (Client.ippos c))) st)
          else if -1 <? Client.aliasclient_id c
          then match getClient st (Client.aliasclient_id c) true with
               | None => None
               | Some _ =>
                   Some (set_clients
                           (alter (client_add total blocked inrange
                                              overTimeIdx overTimeMod)
                                  (Z.to_nat (Client.aliasclient_id c))) st)
               end
          else Some st
      end
  end.

(** Body of the loop of [get_next_free_clientID]. *)
Definition client_is_free (st : store) (clientID : Z) : bool :=
  match getClient st clientID false with
  | None => false
  | Some client => Client.magic client =? 0
  end.

Definition get_next_free_clientID (st : store) : Z :=
  match scan_IDs (Counters.clients (counters st)) (client_is_free st) with
  | Some clientID => clientID
  | None => Counters.clients (counters st)
  end.

(** Body of the scan of [_findClientID]. *)
Definition client_matches (st : store) (clientIP : string) (clientID : Z) : bool :=
  match getClient st clientID true with
  | None => false
  | Some client =>
      if negb (Ascii.eqb (first_char (getstr st (Client.ippos client)))
                         (first_char clientIP))
      then false
      else strcmp (getstr st (Client.ippos client)) clientIP =? 0
  end.

(** [client->aliasclient_id = a] *)
Definition set_aliasclient_id (a : Z) (client : Client.clientsData)
    : Client.clientsData :=
  {| Client.magic := Client.magic client;
     Client.count := Client.count client;
     Client.blockedcount := Client.blockedcount client;
     Client.ippos := Client.ippos client;
     Client.flags_new := Client.flags_new client;
     Client.namepos := Client.namepos client;
     Client.lastQuery := Client.lastQuery client;
     Client.numQueriesARP := Client.numQueriesARP client;
     Client.flags_found_group := Client.flags_found_group client;
     Client.groupspos := Client.groupspos client;
     Client.reread_groups := Client.reread_groups client;
     Client.firstSeen := Client.firstSeen client;
     Client.ifacepos := Client.ifacepos client;
     Client.hwlen := Client.hwlen client;
     Client.hwaddr := Client.hwaddr client;
     Client.flags_aliasclient := Client.flags_aliasclient client;
     Client.aliasclient_id := a;
     Client.overTime := Client.overTime client;
     Client.id := Client.id client |}.

(** Modelled from the spec: [reset_aliasclient] belongs to the alias-client
    database code, which is not part of the sources.  Per section 4.2 it
    checks whether the client is governed by an alias-client grouping rule
    and links it if so: the rule engine's answer becomes the client's
    [aliasclient_id]. *)
Definition reset_aliasclient (st : store) (client : nat) : store :=
  set_clients
    (alter (λ c, set_aliasclient_id (get_aliasclient_ID (getstr st (Client.ippos c))) c)
           client) st.

(** The fields of a client record as [_findClientID] initialises them;
    [now] is the reading of [time(NULL)]. *)
Definition new_client (count aliasclient : bool) (now : Z) (pos : nat)
    (clientID : Z) : Client.clientsData :=
  let cnt := if count && negb aliasclient then 1 else 0 in
  {| Client.magic := MAGICBYTE;
     Client.count := cnt;
     Client.blockedcount := 0;
     Client.ippos := pos;
     Client.flags_new := true;
     Client.namepos := 0%nat;
     Client.lastQuery := 0%Q;
     Client.numQueriesARP := cnt;
     Client.flags_found_group := false;
     Client.groupspos := 0%nat;
     Client.reread_groups := 0;
     Client.firstSeen := now;
     Client.ifacepos := 0%nat;
     Client.hwlen := -1;
     Client.hwaddr := replicate 16 0;
     Client.flags_aliasclient := aliasclient;
     Client.aliasclient_id := -1;
     Client.overTime := replicate (Z.to_nat OVERTIME_SLOTS) 0;
     Client.id := clientID |}.

(** [counters->clients++] *)
Definition incr_clients (c : Counters.countersStruct) : Counters.countersStruct :=
  {| Counters.queries := Counters.queries c;
     Counters.domains := Counters.domains c;
     Counters.clients := int_add (Counters.clients c) 1;
     Counters.upstreams := Counters.upstreams c;
     Counters.dns_cache_size := Counters.dns_cache_size c;
     Counters.status := Counters.status c |}.

(** The tail of [_findClientID], after the slot has been initialised and the
    count increased: the regex reload and the alias-client check. *)
Definition after_new_client (st : store) (aliasclient : bool) (clientID : Z)
    : store :=
  let st := when (negb (startup st) && negb aliasclient)
                 (add_request (Reload_per_client_regex clientID)) st in
  when (negb aliasclient) (λ st, reset_aliasclient st (Z.to_nat clientID)) st.

Definition _findClientID (st : store) (clientIP : string) (count aliasclient : bool)
    (now : Z) : option (store * Z) :=
  match scan_IDs (Counters.clients (counters st)) (client_matches st clientIP) with
  | Some clientID =>
      if count && negb aliasclient
      then match change_clientcount st (Z.to_nat clientID) 1 0 (-1) 0 with
           | Some st => Some (st, clientID)
           | None => None
           end
      else Some (st, clientID)
  | None =>
      if negb count && negb aliasclient then Some (st, -1)
      else
        let clientID := get_next_free_clientID st in
        match getClient st clientID false with
        | None => Some (add_log (Err_memory "findClientID") st, -1)
        | Some _ =>
            let '(st, pos) := addstr clientIP st in
            let st := add_request RESOLVE_NEW_HOSTNAMES st in
            let client := new_client count aliasclient now pos clientID in
            let st := set_clients (λ a, <[Z.to_nat clientID := client]> a) st in
            let st := set_counters incr_clients st in
            Some (after_new_client st aliasclient clientID, clientID)
        end
  end.

(** ** Cache entries *)

(** Body of the loop of [get_next_free_cacheID]. *)
Definition cache_is_free (st : store) (cacheID : Z) : bool :=
  match getDNSCache st cacheID false with
  | None => false
  | Some cache => Cache.magic cache =? 0
  end.

Definition get_next_free_cacheID (st : store) : Z :=
  match scan_IDs (Counters.dns_cache_size (counters st)) (cache_is_free st) with
  | Some cacheID => cacheID
  | None => Counters.dns_cache_size (counters st)
  end.

(** Body of the scan of [_findCacheID]. *)
Definition cache_matches (st : store) (domainID clientID : Z) (query_type : N)
    (cacheID : Z) : bool :=
  match getDNSCache st cacheID true with
  | None => false
  | Some dns_cache =>
      (Cache.domainID dns_cache =? domainID)
      && (Cache.clientID dns_cache =? clientID)
      && (Cache.query_type dns_cache =? query_type)%N
  end.

Definition _findCacheID (st : store) (domainID clientID : Z) (query_type : N)
    (create_new : bool) : store * Z :=
  match scan_IDs (Counters.dns_cache_size (counters st))
                 (cache_matches st domainID clientID query_type) with
  | Some cacheID => (st, cacheID)
  | None =>
      if negb create_new then (st, -1)
      else
        let cacheID := get_next_free_cacheID st in
        match getDNSCache st cacheID false with
        | None => (add_log (Err_memory "findCacheID") st, -1)
        | Some _ =>
            let dns_cache :=
              {| Cache.magic := MAGICBYTE;
                 Cache.blocking_status := UNKNOWN_BLOCKED;
                 Cache.domainID := domainID;
                 Cache.clientID := clientID;
                 Cache.query_type := query_type;
                 Cache.force_reply := 0;
                 Cache.list_id := -1 |} in
            let st := set_dns_cache (λ a, <[Z.to_nat cacheID := dns_cache]> a) st in
            let st := set_counters (λ c,
              {| Counters.queries := Counters.queries c;
                 Counters.domains := Counters.domains c;
                 Counters.clients := Counters.clients c;
                 Counters.upstreams := Counters.upstreams c;
                 Counters.dns_cache_size := int_add (Counters.dns_cache_size c) 1;
                 Counters.status := Counters.status c |}) st in
            (st, cacheID)
        end
  end.

(** ** Privacy-gated accessors

    The argument is the query the pointer refers to, [None] for NULL. *)

Definition getDomainString (st : store) (query : option Query.queriesData) : string :=
  match query with
  | None => ""
  | Some query =>
      if Query.domainID query <? 0 then ""
      else if (Query.privacylevel query <? PRIVACY_HIDE_DOMAINS)%N
      then match getDomain st (Query.domainID query) true with
           | None => ""
           | Some domain => getstr st (Domain.domainpos domain)
           end
      else HIDDEN_DOMAIN
  end.

Definition getCNAMEDomainString (st : store) (query : option Query.queriesData)
    : string :=
  match query with
  | None => ""
  | Some query =>
      if Query.CNAME_domainID query <? 0 then ""
      else if (Query.privacylevel query <? PRIVACY_HIDE_DOMAINS)%N
      then match getDomain st (Query.CNAME_domainID query) true with
           | None => ""
           | Some domain => getstr st (Domain.domainpos domain)
           end
      else HIDDEN_DOMAIN
  end.

Definition getClientIPString (st : store) (query : option Query.queriesData) : string :=
  match query with
  | None => ""
  | Some query =>
      if Query.clientID query <? 0 then ""
      else if (Query.privacylevel query <? PRIVACY_HIDE_DOMAINS_CLIENTS)%N
      then match getClient st (Query.clientID query) true with
           | None => ""
           | Some client => getstr st (Client.ippos client)
           end
      else HIDDEN_CLIENT
  end.

Definition getClientNameString (st : store) (query : option Query.queriesData)
    : string :=
  match query with
  | None => ""
  | Some query =>
      if Query.clientID query <? 0 then ""
      else if (Query.privacylevel query <? PRIVACY_HIDE_DOMAINS_CLIENTS)%N
      then match getClient st (Query.clientID query) true with
           | None => ""
           | Some client => getstr st (Client.namepos client)
           end
      else HIDDEN_CLIENT
  end.

(** ** The query status state machine *)

(** [counters->status[s] += delta] *)
Definition status_add (s : N) (delta : Z) (c : Counters.countersStruct)
    : Counters.countersStruct :=
  {| Counters.queries := Counters.queries c;
     Counters.domains := Counters.domains c;
     Counters.clients := Counters.clients c;
     Counters.upstreams := Counters.upstreams c;
     Counters.dns_cache_size := Counters.dns_cache_size c;
     Counters.status := alter (λ n, int_add n delta) (N.to_nat s) (Counters.status c) |}.

Definition blocked_add (delta : Z) (slot : OverTime.overTimeData)
    : OverTime.overTimeData :=
  {| OverTime.total := OverTime.total slot;
     OverTime.blocked := int_add (OverTime.blocked slot) delta;
     OverTime.cached := OverTime.cached slot;
     OverTime.forwarded := OverTime.forwarded slot |}.

Definition cached_add (delta : Z) (slot : OverTime.overTimeData)
    : OverTime.overTimeData :=
  {| OverTime.total := OverTime.total slot;
     OverTime.blocked := OverTime.blocked slot;
     OverTime.cached := int_add (OverTime.cached slot) delta;
     OverTime.forwarded := OverTime.forwarded slot |}.

Definition forwarded_add (delta : Z) (slot : OverTime.overTimeData)
    : OverTime.overTimeData :=
  {| OverTime.total := OverTime.total slot;
     OverTime.blocked := OverTime.blocked slot;
     OverTime.cached := OverTime.cached slot;
     OverTime.forwarded := int_add (OverTime.forwarded slot) delta |}.

(** [query->status = new_status] *)
Definition with_status (new_status : N) (query : Query.queriesData)
    : Query.queriesData :=
  {| Query.id := Query.id query;
     Query.timestamp := Query.timestamp query;
     Query.domainID := Query.domainID query;
     Query.CNAME_domainID := Query.CNAME_domainID query;
     Query.clientID := Query.clientID query;
     Query.type := Query.type query;
     Query.status := new_status;
     Query.privacylevel := Query.privacylevel query |}.

(** [query] is the index of the record the pointer refers to.  The result is
    [None] when the pointer is invalid or when the function writes
    [counters->status] or [overTime] out of bounds. *)
Definition _query_set_status (st : store) (query : nat) (new_status : N)
    (init : bool) : option store :=
  match queries st !! query with
  | None => None
  | Some q =>
      if (QUERY_STATUS_MAX <=? new_status)%N then Some st
      else
        let old_status := Query.status q in
        if (old_status =? new_status)%N && negb init then Some st
        else
          let timeidx := getOverTimeID (Query.timestamp q) in
          let old_cached := ((old_status =? QUERY_CACHE)%N
                             || (old_status =? QUERY_CACHE_STALE)%N) && negb init in
          let new_cached := (new_status =? QUERY_CACHE)%N
                            || (new_status =? QUERY_CACHE_STALE)%N in
          let bucket_written :=
            (is_blocked old_status && negb init) || is_blocked new_status
            || old_cached || new_cached
            || ((old_status =? QUERY_FORWARDED)%N && negb init)
            || (new_status =? QUERY_FORWARDED)%N in
          if negb init && (QUERY_STATUS_MAX <=? old_status)%N then None
          else if bucket_written
                  && ((timeidx <? 0) || (Z.of_nat (length (overTime st)) <=? timeidx))
          then None
          else
            let st := when (negb init)
                           (set_counters (status_add old_status (-1))) st in
            let st := set_counters (status_add new_status 1) st in
            let slot := Z.to_nat timeidx in
            let st := when (is_blocked old_status && negb init)
                           (set_overTime (alter (blocked_add (-1)) slot)) st in
            let st := when (is_blocked new_status)
                           (set_overTime (alter (blocked_add 1) slot)) st in
            let st := when old_cached
                           (set_overTime (alter (cached_add (-1)) slot)) st in
            let st := when new_cached
                           (set_overTime (alter (cached_add 1) slot)) st in
            let st := when ((old_status =? QUERY_FORWARDED)%N && negb init)
                           (set_overTime (alter (forwarded_add (-1)) slot)) st in
            let st := when (new_status =? QUERY_FORWARDED)%N
                           (set_overTime (alter (forwarded_add 1) slot)) st in
            Some (set_queries (alter (with_status new_status) query) st)
  end.

(** *** Sequences of status assignments

    A query record is produced by the resolver pipeline and receives its
    initial status through a call with [init = true]; afterwards its status
    changes through calls with [init = false]. *)

Inductive status_call :=
  | Initial_status (record : Query.queriesData) (new_status : N)
  | Transition (query : nat) (new_status : N).

Definition status_step (st : store) (call : status_call) : option store :=
  match call with
  | Initial_status record new_status =>
      _query_set_status (set_queries (λ qs, (qs ++ [record])%list) st)
                        (length (queries st)) new_status true
  | Transition query new_status =>
      _query_set_status st query new_status false
  end.

Fixpoint status_run (st : store) (calls : list status_call) : option store :=
  match calls with
  | [] => Some st
  | call :: calls =>
      match status_step st call with
      | Some st => status_run st calls
      | None => None
      end
  end.

(** The calls pass valid statuses and refer to queries that are live when
    the call is made; [live] is the number of live queries before the
    calls. *)
Fixpoint status_calls_ok (live : nat) (calls : list status_call) : Prop :=
  match calls with
  | [] => True
  | Initial_status _ new_status :: calls =>
      (new_status < QUERY_STATUS_MAX)%N ∧ status_calls_ok (S live) calls
  | Transition query new_status :: calls =>
      (new_status < QUERY_STATUS_MAX)%N ∧ (query < live)%nat
      ∧ status_calls_ok live calls
  end.

Definition initial_assignments (calls : list status_call) : nat :=
  length (List.filter (λ c, match c with Initial_status _ _ => true | _ => false end)
                      calls).

(** *** What the counters are meant to equal *)

Fixpoint count_queries (p : Query.queriesData → bool) (qs : list Query.queriesData)
    : Z :=
  match qs with
  | [] => 0
  | q :: qs => (if p q then 1 else 0) + count_queries p qs
  end.

Definition in_bucket (b : nat) (q : Query.queriesData) : bool :=
  getOverTimeID (Query.timestamp q) =? Z.of_nat b.

Definition histogram_sum (st : store) : Z :=
  foldr Z.add 0 (Counters.status (counters st)).

(** The counters agree with the list [qs] of queries: the histogram sums to
    the number of queries, and every bucket's sub-counts are the numbers of
    queries of that bucket that are blocked, cached and forwarded. *)
Definition counters_match (qs : list Query.queriesData) (st : store) : Prop :=
  histogram_sum st = Z.of_nat (length qs)
  ∧ ∀ (b : nat) slot, overTime st !! b = Some slot →
      OverTime.blocked slot
        = count_queries (λ q, in_bucket b q && is_blocked (Query.status q)) qs
      ∧ OverTime.cached slot
        = count_queries (λ q, in_bucket b q && is_cached (Query.status q)) qs
      ∧ OverTime.forwarded slot
        = count_queries (λ q, in_bucket b q && (Query.status q =? QUERY_FORWARDED)%N) qs.

Definition counters_consistent (st : store) : Prop :=
  counters_match (queries st) st.

(** The invariant behind [counters_consistent]: every histogram slot counts
    the queries with that status, every query has a valid status, and the
    bucket array has [OVERTIME_SLOTS] entries. *)
Definition status_inv_for (qs : list Query.queriesData) (st : store) : Prop :=
  (∀ s, (s < QUERY_STATUS_MAX)%N →
        Counters.status (counters st) !! N.to_nat s
        = Some (count_queries (λ q, (Query.status q =? s)%N) qs))
  ∧ Forall (λ q, (Query.status q < QUERY_STATUS_MAX)%N) qs
  ∧ Z.of_nat (length (overTime st)) = OVERTIME_SLOTS
  ∧ counters_match qs st.

Definition status_inv (st : store) : Prop := status_inv_for (queries st) st.

(** ** The store at startup: every counter and every slot zeroed *)

Definition zero_domain : Domain.domainsData :=
  {| Domain.magic := 0; Domain.count := 0; Domain.blockedcount := 0;
     Domain.domainpos := 0%nat; Domain.domainhash := 0; Domain.lastQuery := 0%Q |}.

Definition zero_client : Client.clientsData :=
  {| Client.magic := 0; Client.count := 0; Client.blockedcount := 0;
     Client.ippos := 0%nat; Client.flags_new := false; Client.namepos := 0%nat;
     Client.lastQuery := 0%Q; Client.numQueriesARP := 0;
     Client.flags_found_group := false; Client.groupspos := 0%nat;
     Client.reread_groups := 0; Client.firstSeen := 0; Client.ifacepos := 0%nat;
     Client.hwlen := 0; Client.hwaddr := replicate 16 0;
     Client.flags_aliasclient := false; Client.aliasclient_id := 0;
     Client.overTime := replicate (Z.to_nat OVERTIME_SLOTS) 0; Client.id := 0 |}.

Definition zero_upstream : Upstream.upstreamsData :=
  {| Upstream.magic := 0; Upstream.ippos := 0%nat; Upstream.failed := 0;
     Upstream.flags_new := false; Upstream.namepos := 0%nat; Upstream.rtime := 0%Q;
     Upstream.rtuncertainty := 0%Q; Upstream.responses := 0;
     Upstream.lastQuery := 0%Q; Upstream.port := 0 |}.

Definition zero_cache : Cache.DNSCacheData :=
  {| Cache.magic := 0; Cache.blocking_status := 0%N; Cache.domainID := 0;
     Cache.clientID := 0; Cache.query_type := 0%N; Cache.force_reply := 0;
     Cache.list_id := 0 |}.

Definition zero_bucket : OverTime.overTimeData :=
  {| OverTime.total := 0; OverTime.blocked := 0; OverTime.cached := 0;
     OverTime.forwarded := 0 |}.

(** [capacity] is the number of slots allocated for each kind of record. *)
Definition store_init (capacity : nat) : store :=
  {| counters :=
       {| Counters.queries := 0; Counters.domains := 0; Counters.clients := 0;
          Counters.upstreams := 0; Counters.dns_cache_size := 0;
          Counters.status := replicate (N.to_nat QUERY_STATUS_MAX) 0 |};
     domains := replicate capacity zero_domain;
     clients := replicate capacity zero_client;
     upstreams := replicate capacity zero_upstream;
     dns_cache := replicate capacity zero_cache;
     queries := [];
     overTime := replicate (Z.to_nat OVERTIME_SLOTS) zero_bucket;
     strings := [""];
     startup := true;
     requests := [];
     log := [] |}.

End Store.

(** ** The enums with a mapping in both directions

    A mapping pairs a printer with a parser.  [values] are the enumerators
    the printer names; [also_accepted] are the further spellings that the
    parser maps to an enumerator. *)

Record enum_mapping := {
  values : list N;
  print : N → option string;
  parse : string → Z;
  also_accepted : list string
}.

Definition refresh_hostnames_mapping : enum_mapping :=
  {| values := [REFRESH_ALL; REFRESH_IPV4_ONLY; REFRESH_UNKNOWN; REFRESH_NONE];
     print := λ v, Some (get_refresh_hostnames_str v);
     parse := get_refresh_hostnames_val;
     also_accepted := [] |}.

Definition blocking_mode_mapping : enum_mapping :=
  {| values := [MODE_IP; MODE_NX; MODE_NULL; MODE_IP_NODATA_AAAA; MODE_NODATA];
     print := λ v, Some (get_blocking_mode_str v);
     parse := get_blocking_mode_val;
     also_accepted := [] |}.

Definition ptr_type_mapping : enum_mapping :=
  {| values := [PTR_PIHOLE; PTR_HOSTNAME; PTR_HOSTNAMEFQDN; PTR_NONE];
     print := get_ptr_type_str;
     parse := get_ptr_type_val;
     also_accepted := ["false"] |}.

Definition busy_reply_mapping : enum_mapping :=
  {| values := [BUSY_BLOCK; BUSY_ALLOW; BUSY_REFUSE; BUSY_DROP];
     print := get_busy_reply_str;
     parse := get_busy_reply_val;
     also_accepted := [] |}.

Definition listeningMode_mapping : enum_mapping :=
  {| values := [LISTEN_LOCAL; LISTEN_ALL; LISTEN_SINGLE; LISTEN_BIND; LISTEN_NONE];
     print := get_listeningMode_str;
     parse := get_listeningMode_val;
     also_accepted := [] |}.

Definition temp_unit_mapping : enum_mapping :=
  {| values := [TEMP_UNIT_C; TEMP_UNIT_F; TEMP_UNIT_K];
     print := get_temp_unit_str;
     parse := get_temp_unit_val;
     also_accepted := [] |}.

Definition enum_mappings : list enum_mapping :=
  [refresh_hostnames_mapping; blocking_mode_mapping; ptr_type_mapping;
   busy_reply_mapping; listeningMode_mapping; temp_unit_mapping].

(** Parsing what the printer produces for a valid value, in any mix of
    upper and lower case, gives the value back. *)
Definition round_trips (m : enum_mapping) : Prop :=
  ∀ v, v ∈ values m →
    ∃ name, print m v = Some name
            ∧ ∀ token, strcasecmp token name = 0 → parse m token = enum_int v.

(** A token that is no spelling of a valid value parses to -1, which is the
    [int] of no enumerator. *)
Definition rejects_unknown (m : enum_mapping) : Prop :=
  (∀ token,
     (∀ v name, v ∈ values m → print m v = Some name → strcasecmp token name ≠ 0) →
     (∀ alias, alias ∈ also_accepted m → strcasecmp token alias ≠ 0) →
     parse m token = -1)
  ∧ (∀ v : N, enum_int v ≠ -1)
  ∧ (∀ token, parse m token = -1 ∨ ∃ v, v ∈ values m ∧ parse m token = enum_int v).

(** Sections 5 and 8 on parsing: a token that matches the name of no valid
    value, in any mix of upper and lower case, parses to the invalid
    sentinel -1. *)
Definition unmatched_tokens_rejected (m : enum_mapping) : Prop :=
  ∀ token,
    (∀ v name, v ∈ values m → print m v = Some name → strcasecmp token name ≠ 0) →
    parse m token = -1.

(** ** Reference definitions, written after the specification *)

Section Reference.
Context `{Env}.

(** Section 4.1, [allocate_or_reuse]: scan the slots [0, count) in ascending
    order for a dead one (liveness tag unset) and return the lowest such
    index, leaving the count alone; only otherwise return the high-water
    index and advance the count.  [magics] are the liveness tags of the
    slots; the result is the index and the count afterwards. *)
Definition allocate_or_reuse (magics : list Z) (count : Z) : Z * Z :=
  match scan_IDs count (λ ID, bool_decide (magics !! Z.to_nat ID = Some 0)) with
  | Some ID => (ID, count)
  | None => (count, count + 1)
  end.

(** Sections 4.3 and 7: a delta applied to an alias-client is dropped, and
    nothing changes. *)
Definition aliasclient_delta_dropped : Prop :=
  ∀ st client c total blocked overTimeIdx overTimeMod,
    clients st !! client = Some c →
    Client.flags_aliasclient c = true →
    ∃ st', change_clientcount st client total blocked overTimeIdx overTimeMod
             = Some st'
           ∧ clients st' = clients st ∧ overTime st' = overTime st.

(** Section 4.2 without the accelerators: a forward scan that only compares
    the strings. *)
Definition domain_matches_exact (st : store) (domainString : string)
    (domainID : Z) : bool :=
  match getDomain st domainID false with
  | None => false
  | Some domain => strcmp (getstr st (Domain.domainpos domain)) domainString =? 0
  end.

Definition client_matches_exact (st : store) (clientIP : string) (clientID : Z)
    : bool :=
  match getClient st clientID true with
  | None => false
  | Some client => strcmp (getstr st (Client.ippos client)) clientIP =? 0
  end.

(** ** Well-formedness of a store *)

Definition is_int (z : Z) : Prop := INT_MIN ≤ z ≤ INT_MAX.

(** Every domain slot whose ID the scan visits stores the hash of the name
    it stores (section 3: the hash field is the precomputed hash of the
    name). *)
Definition domain_hashes_ok (st : store) : Prop :=
  ∀ domainID domain,
    0 ≤ domainID < Counters.domains (counters st) →
    getDomain st domainID false = Some domain →
    Domain.domainhash domain = hashStr (getstr st (Domain.domainpos domain)).

(** The same for every slot of the array, visited or not; this is what the
    resolver maintains. *)
Definition domain_hashes_all (st : store) : Prop :=
  Forall (λ d, Domain.domainhash d = hashStr (getstr st (Domain.domainpos d)))
         (domains st).

(** The string offsets stored in the domain, resp. client, slots were handed
    out by the pool. *)
Definition domain_strings_ok (st : store) : Prop :=
  Forall (λ d, (Domain.domainpos d < length (strings st))%nat) (domains st).

Definition client_strings_ok (st : store) : Prop :=
  Forall (λ c, (Client.ippos c < length (strings st))%nat) (clients st).

(** The lowest free slot below [count], or [count] if there is none. *)
Definition lowest_free_or_count (is_free : Z → bool) (count ID : Z) : Prop :=
  (0 ≤ ID < count ∧ is_free ID = true ∧ ∀ j, 0 ≤ j < ID → is_free j = false)
  ∨ (ID = count ∧ ∀ j, 0 ≤ j < count → is_free j = false).

(** [ID] is a live slot that holds [domainString], no slot before it matches
    [domainString], and the scan of [_findDomainID] reaches it. *)
Definition domain_held (st : store) (domainString : string) (ID : Z) : Prop :=
  domain_strings_ok st
  ∧ 0 ≤ ID
  ∧ is_int (Counters.domains (counters st))
  ∧ (ID < Counters.domains (counters st) ∨ Counters.domains (counters st) < 0)
  ∧ (∃ d, domains st !! Z.to_nat ID = Some d
          ∧ Domain.magic d = MAGICBYTE
          ∧ Domain.domainhash d = hashStr domainString
          ∧ getstr st (Domain.domainpos d) = domainString)
  ∧ ∀ j, 0 ≤ j < ID →
         domain_matches st (hashStr domainString) domainString j = false.

(** What the scan of [_findClientID] reads of a client slot. *)
Definition client_key (c : Client.clientsData) : Z * nat :=
  (Client.magic c, Client.ippos c).

(** [st] is [st0] after [n] counting calls for the new client [clientIP]:
    the client lives in the slot that was free in [st0], it has been counted
    [n] times, its time series is untouched, and the other slots are as the
    scan saw them in [st0]. *)
Definition client_counted (st0 : store) (clientIP : string) (n : Z) (st : store)
    : Prop :=
  let k := get_next_free_clientID st0 in
  strings st = (strings st0 ++ [clientIP])%list
  ∧ Counters.clients (counters st) = Counters.clients (counters st0) + 1
  ∧ (∃ c, clients st !! Z.to_nat k = Some c
          ∧ Client.magic c = MAGICBYTE
          ∧ Client.count c = n
          ∧ Client.blockedcount c = 0
          ∧ Client.ippos c = length (strings st0)
          ∧ Client.flags_aliasclient c = false
          ∧ Client.aliasclient_id c = get_aliasclient_ID clientIP
          ∧ Client.overTime c = replicate (Z.to_nat OVERTIME_SLOTS) 0)
  ∧ ∀ j : nat, j ≠ Z.to_nat k →
      client_key <$> clients st !! j = client_key <$> clients st0 !! j.

(** The conditions under which [clientIP] is a new client of [st] that can
    be created and counted [n] times: its IP is not found, a slot is
    available, the counters have room, and the alias-client rule names no
    alias-client or a live record other than the new one. *)
Definition new_client_ok (st : store) (clientIP : string) (n : nat) : Prop :=
  let k := get_next_free_clientID st in
  let a := get_aliasclient_ID clientIP in
  client_strings_ok st
  ∧ scan_IDs (Counters.clients (counters st)) (client_matches st clientIP) = None
  ∧ is_Some (getClient st k false)
  ∧ is_int (Counters.clients (counters st))
  ∧ Counters.clients (counters st) < INT_MAX
  ∧ Z.of_nat n ≤ INT_MAX
  ∧ (a < 0 ∨ (a ≠ k ∧ is_Some (getClient st a true))).

(** Count and sum of the time series of the live client [clientID]. *)
Definition client_totals (st : store) (clientID : Z) : option (Z * Z) :=
  match getClient st clientID true with
  | Some c => Some (Client.count c, foldr Z.add 0 (Client.overTime c))
  | None => None
  end.

(** ** Sequences of lookups *)

(** Calls of [_findDomainID]: name, [count] flag and clock reading. *)
Fixpoint domain_run (st : store) (calls : list (string * bool * Q)) : store :=
  match calls with
  | [] => st
  | (domainString, count, now) :: calls =>
      domain_run (fst (_findDomainID st domainString count now)) calls
  end.

(** Calls of [_findClientID] for one IP with [count = true] and
    [aliasclient = false], one per clock reading; the result collects the
    returned IDs. *)
Fixpoint client_run (st : store) (clientIP : string) (nows : list Z)
    : option (store * list Z) :=
  match nows with
  | [] => Some (st, [])
  | now :: nows =>
      match _findClientID st clientIP true false now with
      | None => None
      | Some (st, clientID) =>
          match client_run st clientIP nows with
          | None => None
          | Some (st, IDs) => Some (st, clientID :: IDs)
          end
      end
  end.

End Reference.

(** ** A concrete environment and concrete stores *)

Definition example_env : Env :=
  {| CHAR_SIGNED := true;
     MAGICBYTE := 87;
     OVERTIME_SLOTS := 4;
     PRIVACY_HIDE_DOMAINS := 1%N;
     PRIVACY_HIDE_DOMAINS_CLIENTS := 2%N;
     HIDDEN_DOMAIN := "hidden";
     HIDDEN_CLIENT := "0.0.0.0";
     getOverTimeID := λ t, Z.max 0 (Z.min 3 (Qfloor t / 600));
     get_aliasclient_ID := λ ip, if String.eqb ip "192.168.0.2" then 0 else -1 |}.

(** A store with the alias-client [group-1] registered in client slot 0. *)
Definition aliasclient_store : store :=
  match @_findClientID example_env (@store_init example_env 3) "group-1"
                       false true 1700000000 with
  | Some (st, _) => st
  | None => @store_init example_env 3
  end.

(** A store with two domains and two upstreams in which the garbage
    collector (a collaborator) has since freed, that is zeroed, slot 0 of
    both arrays. *)
Definition recycled_store : store :=
  let E := example_env in
  let st := store_init 4 in
  let st := fst (_findDomainID st "a.example" true 1) in
  let st := fst (_findDomainID st "b.example" true 2) in
  let st := fst (_findUpstreamID st "8.8.8.8" 53) in
  let st := fst (_findUpstreamID st "1.1.1.1" 53) in
  let st := set_domains (λ a, <[0%nat := zero_domain]> a) st in
  set_upstreams (λ a, <[0%nat := zero_upstream]> a) st.

(** A query as the resolver pipeline hands it over, its status not yet
    assigned. *)
Definition example_query (id : Z) (timestamp : Q) : Query.queriesData :=
  {| Query.id := id; Query.timestamp := timestamp; Query.domainID := 0;
     Query.CNAME_domainID := -1; Query.clientID := 0; Query.type := 1%N;
     Query.status := 0%N; Query.privacylevel := 0%N |}.

(** Three queries in two buckets: the first is forwarded and then answered
    from the cache, the second is blocked by gravity, the third stays
    in progress. *)
Definition example_calls : list status_call :=
  [ Initial_status (example_query 1 100) QUERY_UNKNOWN;
    Transition 0 QUERY_FORWARDED;
    Initial_status (example_query 2 700) QUERY_UNKNOWN;
    Transition 1 QUERY_GRAVITY;
    Transition 0 QUERY_CACHE;
    Initial_status (example_query 3 800) QUERY_IN_PROGRESS;
    Transition 1 QUERY_GRAVITY ].

(** A store with one query of unknown status. *)
Definition one_query_store : store :=
  let E := example_env in
  match status_run (store_init 2) [Initial_status (example_query 1 100) QUERY_UNKNOWN] with
  | Some st => st
  | None => store_init 2
  end.

(** The record of the alias-client in slot 0 of [aliasclient_store]. *)
Definition aliasclient_record : Client.clientsData :=
  @new_client example_env false true 1700000000 1 0.

(** * Further functions of [datastructure.c] *)

(** ** Aggregate counts read off the histogram *)

(** [counters->status[status]] for a status below [QUERY_STATUS_MAX]; an
    array the store does not hold reads as 0. *)
Definition status_count (st : store) (status : N) : Z :=
  default 0 (Counters.status (counters st) !! N.to_nat status).

(** [for(status = 0; status < QUERY_STATUS_MAX; status++) if(p(status))
    acc += counters->status[status];] from [status] on, [remaining] rounds. *)
Fixpoint sum_statuses (p : N → bool) (st : store) (status : N) (remaining : nat)
    (acc : Z) : Z :=
  match remaining with
  | O => acc
  | S k =>
      sum_statuses p st (status + 1)%N k
        (if p status then int_add acc (status_count st status) else acc)
  end.

Definition get_blocked_count (st : store) : Z :=
  sum_statuses is_blocked st 0%N (N.to_nat QUERY_STATUS_MAX) 0.

Definition get_forwarded_count (st : store) : Z :=
  int_add (int_add (status_count st QUERY_FORWARDED) (status_count st QUERY_RETRIED))
          (status_count st QUERY_RETRIED_DNSSEC).

Definition get_cached_count (st : store) : Z :=
  int_add (status_count st QUERY_CACHE) (status_count st QUERY_CACHE_STALE).

(** Everything a status assignment has no business with. *)
Definition same_records (st st' : store) : Prop :=
  domains st' = domains st
  ∧ clients st' = clients st
  ∧ upstreams st' = upstreams st
  ∧ dns_cache st' = dns_cache st
  ∧ strings st' = strings st
  ∧ startup st' = startup st
  ∧ requests st' = requests st
  ∧ log st' = log st
  ∧ Counters.queries (counters st') = Counters.queries (counters st)
  ∧ Counters.domains (counters st') = Counters.domains (counters st)
  ∧ Counters.clients (counters st') = Counters.clients (counters st)
  ∧ Counters.upstreams (counters st') = Counters.upstreams (counters st)
  ∧ Counters.dns_cache_size (counters st') = Counters.dns_cache_size (counters st).

(** The counters of a store are [int]s. *)
Definition counters_are_ints (st : store) : Prop :=
  Forall is_int (Counters.status (counters st))
  ∧ Forall (λ slot, is_int (OverTime.blocked slot)
                    ∧ is_int (OverTime.cached slot)
                    ∧ is_int (OverTime.forwarded slot)) (overTime st).

(** The sum of one sub-count over all time buckets. *)
Definition bucket_sum (field : OverTime.overTimeData → Z) (st : store) : Z :=
  foldr (λ slot acc, field slot + acc) 0 (overTime st).

(** Forwarded to an upstream, retried ones included. *)
Definition is_forwarded_or_retried (status : N) : bool :=
  (status =? QUERY_FORWARDED)%N || (status =? QUERY_RETRIED)%N
  || (status =? QUERY_RETRIED_DNSSEC)%N.

(** ** The per-client cache reset *)

Section Reset.
Context `{Env}.

(** [dns_cache->blocking_status = UNKNOWN_BLOCKED; dns_cache->list_id = -1;] *)
Definition reset_cache_entry (cache : Cache.DNSCacheData) : Cache.DNSCacheData :=
  {| Cache.magic := Cache.magic cache;
     Cache.blocking_status := UNKNOWN_BLOCKED;
     Cache.domainID := Cache.domainID cache;
     Cache.clientID := Cache.clientID cache;
     Cache.query_type := Cache.query_type cache;
     Cache.force_reply := Cache.force_reply cache;
     Cache.list_id := -1 |}.

(** The loop of [FTL_reset_per_client_domain_data] from [cacheID] on, for
    [remaining] rounds; the loop leaves [counters->dns_cache_size] alone, so
    the number of rounds is fixed when it starts. *)
Fixpoint reset_loop (st : store) (cacheID : Z) (remaining : nat) : store :=
  match remaining with
  | O => st
  | S k =>
      let st :=
        match getDNSCache st cacheID true with
        | None => st
        | Some _ => set_dns_cache (alter reset_cache_entry (Z.to_nat cacheID)) st
        end in
      reset_loop st (cacheID + 1) k
  end.

Definition FTL_reset_per_client_domain_data (st : store) : store :=
  reset_loop st 0 (Z.to_nat (Counters.dns_cache_size (counters st))).

(** What the scan of [_findCacheID] compares. *)
Definition cache_key (cache : Cache.DNSCacheData) : Z * Z * N :=
  (Cache.domainID cache, Cache.clientID cache, Cache.query_type cache).

(** The string offsets stored in the upstream slots were handed out by the
    pool. *)
Definition upstream_strings_ok (st : store) : Prop :=
  Forall (λ u, (Upstream.ippos u < length (strings st))%nat) (upstreams st).

End Reset.

(** ** Finding a query by its ID *)

Section FindQuery.

(** The accessor of query records and the window length are defined outside
    [datastructure.c]: [getQuery i checkMagic] is [None] for NULL. *)
Variable getQuery : Z → bool → option Query.queriesData.
Variable MAXITER : Z.

(** [for(int i = start; ...; i--)], [remaining] rounds from [i] down. *)
Fixpoint findQueryID_loop (id : Z) (i : Z) (remaining : nat) : Z :=
  match remaining with
  | O => -1
  | S k =>
      match getQuery i true with
      | None => findQueryID_loop id (i - 1) k
      | Some query =>
          if Query.id query =? id then i else findQueryID_loop id (i - 1) k
      end
  end.

(** [MAX(0, counters->queries-MAXITER)] *)
Definition findQueryID_until (st : store) : Z :=
  Z.max 0 (int_wrap (Counters.queries (counters st) - MAXITER)).

(** [MAX(0, counters->queries-1)] *)
Definition findQueryID_start (st : store) : Z :=
  Z.max 0 (int_wrap (Counters.queries (counters st) - 1)).

(** The loop runs while [i >= until]: [start - until + 1] rounds, none if
    [start < until]. *)
Definition findQueryID (st : store) (id : Z) : Z :=
  findQueryID_loop id (findQueryID_start st)
                   (Z.to_nat (findQueryID_start st - findQueryID_until st + 1)).

End FindQuery.

(** ** Names of the query statuses *)

Definition get_query_status_str (status : N) : string :=
  match status with
  | QUERY_UNKNOWN => "UNKNOWN"
  | QUERY_GRAVITY => "GRAVITY"
  | QUERY_FORWARDED => "FORWARDED"
  | QUERY_CACHE => "CACHE"
  | QUERY_REGEX => "REGEX"
  | QUERY_DENYLIST => "DENYLIST"
  | QUERY_EXTERNAL_BLOCKED_IP => "EXTERNAL_BLOCKED_IP"
  | QUERY_EXTERNAL_BLOCKED_NULL => "EXTERNAL_BLOCKED_NULL"
  | QUERY_EXTERNAL_BLOCKED_NXRA => "EXTERNAL_BLOCKED_NXRA"
  | QUERY_GRAVITY_CNAME => "GRAVITY_CNAME"
  | QUERY_REGEX_CNAME => "REGEX_CNAME"
  | QUERY_DENYLIST_CNAME => "DENYLIST_CNAME"
  | QUERY_RETRIED => "RETRIED"
  | QUERY_RETRIED_DNSSEC => "RETRIED_DNSSEC"
  | QUERY_IN_PROGRESS => "IN_PROGRESS"
  | QUERY_DBBUSY => "DBBUSY"
  | QUERY_SPECIAL_DOMAIN => "SPECIAL_DOMAIN"
  | QUERY_CACHE_STALE => "CACHE_STALE"
  | QUERY_STATUS_MAX => "INVALID"
  | _ => "INVALID"
  end.

(** The static [query_status_str]; [None] is NULL. *)
Definition query_status_str (status : N) : option string :=
  match status with
  | QUERY_UNKNOWN => Some "UNKNOWN"
  | QUERY_GRAVITY => Some "GRAVITY"
  | QUERY_FORWARDED => Some "FORWARDED"
  | QUERY_CACHE => Some "CACHE"
  | QUERY_REGEX => Some "REGEX"
  | QUERY_DENYLIST => Some "DENYLIST"
  | QUERY_EXTERNAL_BLOCKED_IP => Some "EXTERNAL_BLOCKED_IP"
  | QUERY_EXTERNAL_BLOCKED_NULL => Some "EXTERNAL_BLOCKED_NULL"
  | QUERY_EXTERNAL_BLOCKED_NXRA => Some "EXTERNAL_BLOCKED_NXRA"
  | QUERY_GRAVITY_CNAME => Some "GRAVITY_CNAME"
  | QUERY_REGEX_CNAME => Some "REGEX_CNAME"
  | QUERY_DENYLIST_CNAME => Some "DENYLIST_CNAME"
  | QUERY_RETRIED => Some "RETRIED"
  | QUERY_RETRIED_DNSSEC => Some "RETRIED_DNSSEC"
  | QUERY_IN_PROGRESS => Some "IN_PROGRESS"
  | QUERY_DBBUSY => Some "DBBUSY"
  | QUERY_SPECIAL_DOMAIN => Some "SPECIAL_DOMAIN"
  | QUERY_CACHE_STALE => Some "CACHE_STALE"
  | QUERY_STATUS_MAX => None
  | _ => None
  end.

(** ** Further concrete stores *)

(** [one_query_store] after its query has been blocked by gravity. *)
Definition gravity_store : store :=
  default one_query_store
          (@_query_set_status example_env one_query_store 0 QUERY_GRAVITY false).

(** [aliasclient_store] after the client 192.168.0.2, which the rule engine
    of [example_env] links to the alias-client in slot 0, has been seen
    once; the client is in slot 1. *)
Definition linked_store : store :=
  match @_findClientID example_env aliasclient_store "192.168.0.2"
                       true false 1700000100 with
  | Some (st, _) => st
  | None => aliasclient_store
  end.

(** The record of the client in slot 1 of [linked_store]. *)
Definition linked_record : Client.clientsData :=
  default (@zero_client example_env) (clients linked_store !! 1%nat).

(** ** Strings of 7-bit characters and of lower-case characters *)

(** Every character of the string is below 128. *)
Fixpoint is_7bit (s : string) : bool :=
  match s with
  | EmptyString => true
  | String c rest => (uchar c <? 128) && is_7bit rest
  end.

(** No character of the string is an upper-case letter. *)
Fixpoint no_upper (s : string) : bool :=
  match s with
  | EmptyString => true
  | String c rest => negb ((65 <=? uchar c) && (uchar c <=? 90)) && no_upper rest
  end.

(** ** Further concrete collaborators *)

(** An accessor of query records over the queries of [one_query_store]. *)
Definition example_getQuery (i : Z) (checkMagic : bool)
    : option Query.queriesData :=
  if i <? 0 then None else queries one_query_store !! Z.to_nat i.

(** [example_env] on a platform whose plain [char] is unsigned. *)
Definition unsigned_env : Env :=
  {| CHAR_SIGNED := false;
     MAGICBYTE := @MAGICBYTE example_env;
     OVERTIME_SLOTS := @OVERTIME_SLOTS example_env;
     PRIVACY_HIDE_DOMAINS := @PRIVACY_HIDE_DOMAINS example_env;
     PRIVACY_HIDE_DOMAINS_CLIENTS := @PRIVACY_HIDE_DOMAINS_CLIENTS example_env;
     HIDDEN_DOMAIN := @HIDDEN_DOMAIN example_env;
     HIDDEN_CLIENT := @HIDDEN_CLIENT example_env;
     getOverTimeID := @getOverTimeID example_env;
     get_aliasclient_ID := @get_aliasclient_ID example_env |}.

(** ** What a change of a client's count leaves alone *)

(** Everything in the store but the client records, the time buckets and
    the log. *)
Definition same_outside_clients (st st' : store) : Prop :=
  counters st' = counters st
  ∧ domains st' = domains st
  ∧ upstreams st' = upstreams st
  ∧ dns_cache st' = dns_cache st
  ∧ queries st' = queries st
  ∧ strings st' = strings st
  ∧ startup st' = startup st
  ∧ requests st' = requests st.

(** * Properties *)

(** ** Machine integers *)

Lemma int_wrap_id z : INT_MIN ≤ z ≤ INT_MAX → int_wrap z = z.
Proof.
  unfold INT_MIN, INT_MAX, int_wrap. intros Hz.
  rewrite Z.mod_small; lia.
Qed.

Lemma int_add_exact a b :
  INT_MIN ≤ a + b ≤ INT_MAX → int_add a b = a + b.
Proof. apply int_wrap_id. Qed.

Lemma int_add_0_r a : INT_MIN ≤ a ≤ INT_MAX → int_add a 0 = a.
Proof. intros Ha. rewrite int_add_exact; lia. Qed.

(** ** C strings *)

Lemma strcmp_0 a b : strcmp a b = 0 ↔ a = b.
Proof.
  unfold strcmp. split.
  - destruct (String.compare a b) eqn:E; try discriminate.
    intros _. by apply String.compare_eq_iff.
  - intros ->. pose proof (String.compare_antisym b b) as H.
    by destruct (String.compare b b).
Qed.

Lemma strcmp_eqb a b : (strcmp a b =? 0) = true ↔ a = b.
Proof. rewrite Z.eqb_eq. apply strcmp_0. Qed.

Lemma strcmp_refl a : strcmp a a = 0.
Proof. by apply strcmp_0. Qed.

Lemma strcmp_neq a b : a ≠ b → (strcmp a b =? 0) = false.
Proof.
  intros Hne. apply Z.eqb_neq. intros H. by apply Hne, strcmp_0.
Qed.

Lemma strcasecmp_0 a b : strcasecmp a b = 0 ↔ strtolower a = strtolower b.
Proof. apply strcmp_0. Qed.

Lemma strcmp_first_char a b : strcmp a b = 0 → first_char a = first_char b.
Proof. intros H. apply strcmp_0 in H. by subst. Qed.


Lemma strcasecmp_eqb s t :
  (strcasecmp s t =? 0) = String.eqb (strtolower s) (strtolower t).
Proof.
  destruct (String.eqb_spec (strtolower s) (strtolower t)) as [E|E].
  - by apply Z.eqb_eq, strcasecmp_0.
  - apply Z.eqb_neq. by rewrite strcasecmp_0.
Qed.

(** ** Enum mappings *)

(** Evaluates [strtolower] on the string literals of the goal. *)
Ltac lower_literals :=
  repeat match goal with
  | |- context [strtolower (String ?c ?r)] =>
      let t := constr:(strtolower (String c r)) in
      let v := eval vm_compute in t in
      change t with v
  end.

Ltac lower_literals_in H :=
  repeat match type of H with
  | context [strtolower (String ?c ?r)] =>
      let t := constr:(strtolower (String c r)) in
      let v := eval vm_compute in t in
      change t with v in H
  end.

(** Decides a parser on a token whose lower-cased form is known. *)
Ltac parse_known Htoken :=
  apply strcasecmp_0 in Htoken; lower_literals_in Htoken;
  cbv [parse print values also_accepted
       refresh_hostnames_mapping blocking_mode_mapping ptr_type_mapping
       busy_reply_mapping listeningMode_mapping temp_unit_mapping
       get_refresh_hostnames_val get_blocking_mode_val get_ptr_type_val
       get_busy_reply_val get_listeningMode_val get_temp_unit_val];
  rewrite !strcasecmp_eqb; lower_literals; rewrite Htoken; reflexivity.

Lemma mapping_round_trips m : m ∈ enum_mappings → round_trips m.
Proof.
  unfold enum_mappings. intros Hm.
  repeat (apply elem_of_cons in Hm as [->|Hm]); try by apply elem_of_nil in Hm.
  all: intros v Hv; cbn [values refresh_hostnames_mapping blocking_mode_mapping
         ptr_type_mapping busy_reply_mapping listeningMode_mapping
         temp_unit_mapping] in Hv;
       repeat (apply elem_of_cons in Hv as [->|Hv]); try by apply elem_of_nil in Hv.
  all: eexists; (split; [reflexivity|]); intros token Htoken; parse_known Htoken.
Qed.

Lemma strcasecmp_ne_eqb s t :
  strcasecmp s t ≠ 0 → String.eqb (strtolower s) (strtolower t) = false.
Proof. intros Hne. rewrite <- strcasecmp_eqb. by apply Z.eqb_neq. Qed.

Ltac unfold_mappings :=
  cbv [parse print values also_accepted
       refresh_hostnames_mapping blocking_mode_mapping ptr_type_mapping
       busy_reply_mapping listeningMode_mapping temp_unit_mapping
       get_refresh_hostnames_val get_blocking_mode_val get_ptr_type_val
       get_busy_reply_val get_listeningMode_val get_temp_unit_val] in *.

Lemma mapping_rejects_unknown m : m ∈ enum_mappings → rejects_unknown m.
Proof.
  unfold enum_mappings. intros Hm.
  repeat (apply elem_of_cons in Hm as [->|Hm]); try by apply elem_of_nil in Hm.
  all: split; [|split].
  all: try (intros v; unfold enum_int; lia).
  all: try (intros token;
            cbv [parse refresh_hostnames_mapping blocking_mode_mapping
                 ptr_type_mapping busy_reply_mapping listeningMode_mapping
                 temp_unit_mapping get_refresh_hostnames_val get_blocking_mode_val
                 get_ptr_type_val get_busy_reply_val get_listeningMode_val
                 get_temp_unit_val values];
            repeat match goal with
                   | |- context [strcasecmp ?a ?b =? 0] =>
                       destruct (strcasecmp a b =? 0)
                   end;
            cbn [orb];
            first [ by left
                  | right; eexists; split; [|reflexivity]; by repeat constructor ]).
  all: intros token Hnames Halias.
  all: assert (HF : Forall (λ v, ∀ name, print _ v = Some name →
                                strcasecmp token name ≠ 0) (values _))
         by (apply Forall_forall; intros v Hv name Hname;
             exact (Hnames v name Hv Hname)).
  all: assert (HA : Forall (λ alias, strcasecmp token alias ≠ 0) (also_accepted _))
         by (apply Forall_forall; intros alias Hal; exact (Halias alias Hal)).
  all: clear Hnames Halias; unfold_mappings.
  all: repeat (apply Forall_cons in HF as [? HF]); clear HF.
  all: repeat (apply Forall_cons in HA as [? HA]); clear HA.
  all: repeat match goal with
              | Hv : ∀ name, _ = Some name → _ |- _ => specialize (Hv _ eq_refl)
              end.
  all: rewrite !strcasecmp_eqb; lower_literals.
  all: repeat match goal with
              | Hv : strcasecmp _ ?n ≠ 0 |- _ =>
                  let n' := eval vm_compute in n in
                  change n with n' in Hv;
                  apply strcasecmp_ne_eqb in Hv; lower_literals_in Hv;
                  rewrite ?Hv; clear Hv
              end.
  all: reflexivity.
Qed.

(** C9.  Every enum that [datastructure.c] both prints and parses (hostname
    refresh, blocking mode, PTR mode, busy reply, listening mode,
    temperature unit): parsing the string printed for a valid value, in any
    mix of upper and lower case, yields that value.  A token that matches
    the name of no valid value parses to -1, which is the value of no
    enumerator, with one exception: the PTR parser has a second spelling of
    NONE, [false], which it accepts in any mix of upper and lower case.  No
    other parser has a second spelling. *)
Theorem enum_string_round_trip :
  Forall (λ m, round_trips m ∧ rejects_unknown m) enum_mappings
  ∧ also_accepted <$> enum_mappings = [[]; []; ["false"]; []; []; []]
  ∧ Forall (λ m, also_accepted m = [] → unmatched_tokens_rejected m) enum_mappings
  ∧ ∀ token, strcasecmp token "false" = 0 →
             get_ptr_type_val token = enum_int PTR_NONE.
Proof.
  split; [|split; [done|split]].
  - apply Forall_forall. intros m Hm. split.
    + by apply mapping_round_trips.
    + by apply mapping_rejects_unknown.
  - apply Forall_forall. intros m Hm Hnone token Hnames.
    apply (mapping_rejects_unknown m Hm); [done|].
    rewrite Hnone. by intros alias Halias%elem_of_nil.
  - intros token Htoken. parse_known Htoken.
Qed.

(** C9, counterexample: [false] matches the name of none of the four PTR
    modes, yet the PTR parser maps it to NONE, not to -1. *)
Lemma ptr_false_parses_to_none :
  (∀ v name, v ∈ values ptr_type_mapping →
             print ptr_type_mapping v = Some name →
             strcasecmp "false" name ≠ 0)
  ∧ get_ptr_type_val "false" = enum_int PTR_NONE
  ∧ enum_int PTR_NONE ≠ -1
  ∧ ¬ Forall unmatched_tokens_rejected enum_mappings.
Proof.
  assert (Hnames : ∀ v name, v ∈ values ptr_type_mapping →
                             print ptr_type_mapping v = Some name →
                             strcasecmp "false" name ≠ 0).
  { intros v name Hv Hname.
    cbn [values ptr_type_mapping] in Hv.
    repeat (apply elem_of_cons in Hv as [->|Hv]); try by apply elem_of_nil in Hv.
    all: injection Hname as <-; vm_compute; discriminate. }
  split; [done|]. split; [reflexivity|]. split; [discriminate|].
  intros Hall. rewrite Forall_forall in Hall.
  assert (Hptr : ptr_type_mapping ∈ enum_mappings) by (by repeat constructor).
  specialize (Hall ptr_type_mapping Hptr "false" Hnames).
  vm_compute in Hall. discriminate Hall.
Qed.

(** ** Status classification *)

Lemma is_cached_true s :
  is_cached s = true → s = QUERY_CACHE ∨ s = QUERY_CACHE_STALE.
Proof.
  destruct s as [|p]; [discriminate|].
  do 5 (try destruct p as [p|p|]); cbn; try discriminate; auto.
Qed.

Lemma is_cached_inline s :
  is_cached s = ((s =? QUERY_CACHE) || (s =? QUERY_CACHE_STALE))%N.
Proof.
  destruct (is_cached s) eqn:E.
  - by destruct (is_cached_true s E) as [-> | ->].
  - symmetry. apply orb_false_intro; apply N.eqb_neq; intros ->; discriminate.
Qed.

(** ** Scans *)

Lemma scan_loop_Some body ID n r :
  scan_loop body ID n = Some r ↔
  ID ≤ r < ID + Z.of_nat n ∧ body r = true ∧ ∀ j, ID ≤ j < r → body j = false.
Proof.
  revert ID. induction n as [|n IH]; intros ID; cbn [scan_loop].
  - split; [discriminate | lia].
  - destruct (body ID) eqn:E.
    + split.
      * intros [= <-]. repeat split; [lia..|done|]. intros j Hj. lia.
      * intros (Hr & Hb & Hlow).
        destruct (decide (r = ID)) as [-> | Hne]; [done|].
        rewrite Hlow in E; [done | lia].
    + rewrite IH. split.
      * intros (Hr & Hb & Hlow). repeat split; [lia..|done|].
        intros j Hj. destruct (decide (j = ID)) as [-> | Hne]; [done|].
        apply Hlow. lia.
      * intros (Hr & Hb & Hlow).
        assert (r ≠ ID) by (intros ->; congruence).
        repeat split; [lia..|done|]. intros j Hj. apply Hlow. lia.
Qed.

Lemma scan_loop_None body ID n :
  scan_loop body ID n = None ↔ ∀ j, ID ≤ j < ID + Z.of_nat n → body j = false.
Proof.
  revert ID. induction n as [|n IH]; intros ID; cbn [scan_loop].
  - split; [intros _ j Hj; lia | done].
  - destruct (body ID) eqn:E.
    + split; [discriminate|]. intros Hall. rewrite Hall in E; [done | lia].
    + rewrite IH. split.
      * intros Hall j Hj. destruct (decide (j = ID)) as [-> | Hne]; [done|].
        apply Hall. lia.
      * intros Hall j Hj. apply Hall. lia.
Qed.

Lemma scan_IDs_Some count body r :
  scan_IDs count body = Some r ↔
  0 ≤ r < count ∧ body r = true ∧ ∀ j, 0 ≤ j < r → body j = false.
Proof.
  unfold scan_IDs. rewrite scan_loop_Some. split.
  - intros (Hr & Hb & Hlow). repeat split; [lia..|done|done].
  - intros (Hr & Hb & Hlow). repeat split; [lia..|done|done].
Qed.

Lemma scan_IDs_None count body :
  scan_IDs count body = None ↔ ∀ j, 0 ≤ j < count → body j = false.
Proof.
  unfold scan_IDs. rewrite scan_loop_None. split.
  - intros Hall j Hj. apply Hall. lia.
  - intros Hall j Hj. apply Hall. lia.
Qed.

Lemma scan_IDs_ext count body body' :
  (∀ j, 0 ≤ j < count → body j = body' j) →
  scan_IDs count body = scan_IDs count body'.
Proof.
  intros Hext. destruct (scan_IDs count body') as [r|] eqn:E.
  - apply scan_IDs_Some in E as (Hr & Hb & Hlow). apply scan_IDs_Some.
    repeat split; [lia..| |].
    + rewrite Hext; [done | lia].
    + intros j Hj. rewrite Hext; [auto | lia].
  - apply scan_IDs_None. intros j Hj. rewrite Hext; [|done].
    by eapply scan_IDs_None in E.
Qed.

Lemma scan_IDs_lowest count body :
  lowest_free_or_count body count
    (match scan_IDs count body with Some ID => ID | None => count end).
Proof.
  destruct (scan_IDs count body) as [r|] eqn:E.
  - left. by apply scan_IDs_Some.
  - right. split; [done|]. by apply scan_IDs_None.
Qed.

Section Properties.
Context `{Env}.

(** ** Status classification and the time buckets *)

(** C10.  No status is both blocked and cached, so no query is counted in
    both the blocked and the cached sub-counter of a time bucket. *)
Theorem blocked_cached_disjoint :
  (∀ s : N, is_blocked s && is_cached s = false)
  ∧ ∀ (qs : list Query.queriesData) (b : nat),
      count_queries (λ q, (in_bucket b q && is_blocked (Query.status q))
                          && (in_bucket b q && is_cached (Query.status q))) qs = 0.
Proof.
  assert (Hdisj : ∀ s : N, is_blocked s && is_cached s = false).
  { intros s. destruct (is_cached s) eqn:E; [|by rewrite andb_false_r].
    by destruct (is_cached_true s E) as [-> | ->]. }
  split; [done|]. intros qs b.
  induction qs as [|q qs IH]; cbn [count_queries]; [done|].
  rewrite IH.
  destruct (in_bucket b q); cbn [andb]; [|done].
  by rewrite Hdisj.
Qed.

(** ** Privacy-gated accessors *)

(** C4.  Each accessor returns the empty string for a NULL query or a
    negative ID; at or above its privacy threshold it returns its
    placeholder whether or not the record exists; below the threshold it
    resolves the record, returning the empty string when there is none and
    the interned string otherwise. *)
Theorem privacy_gated_accessors (st : store) :
  getDomainString st None = ""
  ∧ getClientIPString st None = ""
  ∧ getClientNameString st None = ""
  ∧ ∀ q : Query.queriesData,
      (Query.domainID q < 0 → getDomainString st (Some q) = "")
      ∧ (0 ≤ Query.domainID q →
         (PRIVACY_HIDE_DOMAINS ≤ Query.privacylevel q)%N →
         getDomainString st (Some q) = HIDDEN_DOMAIN)
      ∧ (0 ≤ Query.domainID q →
         (Query.privacylevel q < PRIVACY_HIDE_DOMAINS)%N →
         getDomainString st (Some q)
         = match getDomain st (Query.domainID q) true with
           | None => ""
           | Some domain => getstr st (Domain.domainpos domain)
           end)
      ∧ (Query.clientID q < 0 →
         getClientIPString st (Some q) = "" ∧ getClientNameString st (Some q) = "")
      ∧ (0 ≤ Query.clientID q →
         (PRIVACY_HIDE_DOMAINS_CLIENTS ≤ Query.privacylevel q)%N →
         getClientIPString st (Some q) = HIDDEN_CLIENT
         ∧ getClientNameString st (Some q) = HIDDEN_CLIENT)
      ∧ (0 ≤ Query.clientID q →
         (Query.privacylevel q < PRIVACY_HIDE_DOMAINS_CLIENTS)%N →
         getClientIPString st (Some q)
         = match getClient st (Query.clientID q) true with
           | None => ""
           | Some client => getstr st (Client.ippos client)
           end
         ∧ getClientNameString st (Some q)
           = match getClient st (Query.clientID q) true with
             | None => ""
             | Some client => getstr st (Client.namepos client)
             end).
Proof.
  split; [done|]. split; [done|]. split; [done|]. intros q.
  unfold getDomainString, getClientIPString, getClientNameString.
  repeat apply conj.
  - intros Hneg. by rewrite (proj2 (Z.ltb_lt _ _) Hneg).
  - intros Hid Hlevel. rewrite (proj2 (Z.ltb_ge _ _) Hid).
    by rewrite (proj2 (N.ltb_ge _ _) Hlevel).
  - intros Hid Hlevel. rewrite (proj2 (Z.ltb_ge _ _) Hid).
    by rewrite (proj2 (N.ltb_lt _ _) Hlevel).
  - intros Hneg. by rewrite (proj2 (Z.ltb_lt _ _) Hneg).
  - intros Hid Hlevel. rewrite (proj2 (Z.ltb_ge _ _) Hid).
    by rewrite (proj2 (N.ltb_ge _ _) Hlevel).
  - intros Hid Hlevel. rewrite (proj2 (Z.ltb_ge _ _) Hid).
    by rewrite (proj2 (N.ltb_lt _ _) Hlevel).
Qed.

(** ** The status state machine: rejected calls *)

(** C5.  A call whose new status is outside the enum's range returns at the
    sanity check: the store, and with it the query's status, the histogram
    and every time bucket, is what it was. *)
Theorem set_status_out_of_range (st : store) (query : nat) (q : Query.queriesData)
    (new_status : N) (init : bool) :
  queries st !! query = Some q →
  (QUERY_STATUS_MAX ≤ new_status)%N →
  _query_set_status st query new_status init = Some st.
Proof.
  intros Hq Hrange. unfold _query_set_status. rewrite Hq.
  by rewrite (proj2 (N.leb_le _ _) Hrange).
Qed.

(** ** Client deltas *)

Lemma clients_set_overTime f (st : store) : clients (set_overTime f st) = clients st.
Proof. done. Qed.

(** C2, as the code has it.  On a record flagged as alias-client the deltas
    are applied to the record itself (total, blocked and, for a bucket index
    in range, its time series and the global bucket total); then a warning
    is logged and no other client record is touched. *)
Theorem change_clientcount_on_aliasclient (st : store) (client : nat)
    (c : Client.clientsData) (total blocked overTimeIdx overTimeMod : Z) :
  clients st !! client = Some c →
  Client.flags_aliasclient c = true →
  ∃ st' c',
    change_clientcount st client total blocked overTimeIdx overTimeMod = Some st'
    ∧ clients st' !! client = Some c'
    ∧ Client.count c' = int_add (Client.count c) total
    ∧ Client.blockedcount c' = int_add (Client.blockedcount c) blocked
    ∧ Client.overTime c'
      = (if overTimeIdx_in_range overTimeIdx
         then alter (λ n, int_add n overTimeMod) (Z.to_nat overTimeIdx)
                    (Client.overTime c)
         else Client.overTime c)
    ∧ overTime st'
      = (if overTimeIdx_in_range overTimeIdx
         then alter (overTime_add_total overTimeMod) (Z.to_nat overTimeIdx)
                    (overTime st)
         else overTime st)
    ∧ (∀ j, j ≠ client → clients st' !! j = clients st !! j)
    ∧ log st'
      = (log st ++ [Warn_add_to_aliasclient (getstr st (Client.namepos c))
                                            (getstr st (Client.ippos c))])%list.
Proof.
  intros Hc Hflag. unfold change_clientcount. rewrite Hc.
  set (inrange := overTimeIdx_in_range overTimeIdx).
  set (st1 := when inrange _ st).
  assert (Hcl : clients st1 = clients st) by (subst st1; by destruct inrange).
  assert (Hstr : strings st1 = strings st) by (subst st1; by destruct inrange).
  assert (Hlog : log st1 = log st) by (subst st1; by destruct inrange).
  assert (Hot : overTime st1
                = if inrange
                  then alter (overTime_add_total overTimeMod) (Z.to_nat overTimeIdx)
                             (overTime st)
                  else overTime st) by (subst st1; by destruct inrange).
  clearbody st1. cbn [clients set_clients].
  rewrite list_lookup_alter_eq, Hcl, Hc. cbn [fmap option_fmap option_map].
  cbn [client_add Client.flags_aliasclient]. rewrite Hflag.
  eexists _, _. split; [reflexivity|].
  cbn [clients add_log set_clients log overTime].
  split.
  { rewrite list_lookup_alter_eq, Hcl, Hc. reflexivity. }
  cbn [client_add Client.count Client.blockedcount Client.overTime].
  repeat split.
  - done.
  - intros j Hj. rewrite list_lookup_alter_ne by done. by rewrite Hcl.
  - rewrite Hlog. unfold getstr. cbn [strings set_clients]. by rewrite Hstr.
Qed.

(** ** Allocation on a miss *)

Lemma counters_after_new_client (st : store) aliasclient clientID :
  counters (after_new_client st aliasclient clientID) = counters st.
Proof.
  unfold after_new_client.
  by destruct (negb (startup st) && negb aliasclient), (negb aliasclient).
Qed.

(** C3, as the code has it.  On a miss, domains, clients and cache entries
    take the lowest free slot (magic byte 0) below the count, or the slot at
    the count when none is free, and the count is incremented in both
    cases; upstreams always take the slot at the count. *)
Theorem allocation_on_miss :
  (∀ st domainString count now,
     scan_IDs (Counters.domains (counters st))
              (domain_matches st (hashStr domainString) domainString) = None →
     is_Some (getDomain st (get_next_free_domainID st) false) →
     lowest_free_or_count (domain_is_free st) (Counters.domains (counters st))
                          (get_next_free_domainID st)
     ∧ snd (_findDomainID st domainString count now) = get_next_free_domainID st
     ∧ Counters.domains (counters (fst (_findDomainID st domainString count now)))
       = int_add (Counters.domains (counters st)) 1)
  ∧ (∀ st clientIP count aliasclient now,
       count || aliasclient = true →
       scan_IDs (Counters.clients (counters st)) (client_matches st clientIP) = None →
       is_Some (getClient st (get_next_free_clientID st) false) →
       lowest_free_or_count (client_is_free st) (Counters.clients (counters st))
                            (get_next_free_clientID st)
       ∧ ∃ st', _findClientID st clientIP count aliasclient now
                = Some (st', get_next_free_clientID st)
                ∧ Counters.clients (counters st')
                  = int_add (Counters.clients (counters st)) 1)
  ∧ (∀ st domainID clientID query_type,
       scan_IDs (Counters.dns_cache_size (counters st))
                (cache_matches st domainID clientID query_type) = None →
       is_Some (getDNSCache st (get_next_free_cacheID st) false) →
       lowest_free_or_count (cache_is_free st) (Counters.dns_cache_size (counters st))
                            (get_next_free_cacheID st)
       ∧ snd (_findCacheID st domainID clientID query_type true)
         = get_next_free_cacheID st
       ∧ Counters.dns_cache_size
           (counters (fst (_findCacheID st domainID clientID query_type true)))
         = int_add (Counters.dns_cache_size (counters st)) 1)
  ∧ (∀ st upstreamString port,
       scan_IDs (Counters.upstreams (counters st))
                (upstream_matches st upstreamString port) = None →
       is_Some (getUpstream st (Counters.upstreams (counters st)) false) →
       snd (_findUpstreamID st upstreamString port) = Counters.upstreams (counters st)
       ∧ Counters.upstreams (counters (fst (_findUpstreamID st upstreamString port)))
         = int_add (Counters.upstreams (counters st)) 1).
Proof.
  repeat apply conj.
  - intros st domainString count now Hmiss [d Hslot]. split.
    { apply scan_IDs_lowest. }
    unfold _findDomainID. rewrite Hmiss, Hslot. by cbn.
  - intros st clientIP count aliasclient now Hflags Hmiss [c Hslot]. split.
    { apply scan_IDs_lowest. }
    unfold _findClientID. rewrite Hmiss, Hslot.
    assert (negb count && negb aliasclient = false) as ->
      by (by destruct count, aliasclient).
    cbn [addstr]. eexists. split; [reflexivity|].
    by rewrite counters_after_new_client.
  - intros st domainID clientID query_type Hmiss [c Hslot]. split.
    { apply scan_IDs_lowest. }
    unfold _findCacheID. rewrite Hmiss, Hslot. by cbn.
  - intros st upstreamString port Hmiss [u Hslot].
    unfold _findUpstreamID. rewrite Hmiss, Hslot. by cbn.
Qed.

(** ** The pre-filters of the scans *)

(** C8.  In a store whose domain slots hold the hash of their name, the
    domain scan with the hash test and the client scan with the
    first-character test find exactly what the scans that only compare the
    strings find. *)
Theorem prefilters_preserve_lookup (st : store) (key : string) :
  domain_hashes_ok st →
  scan_IDs (Counters.domains (counters st)) (domain_matches st (hashStr key) key)
  = scan_IDs (Counters.domains (counters st)) (domain_matches_exact st key)
  ∧ scan_IDs (Counters.clients (counters st)) (client_matches st key)
    = scan_IDs (Counters.clients (counters st)) (client_matches_exact st key).
Proof.
  intros Hhash. split; apply scan_IDs_ext; intros j Hj.
  - unfold domain_matches, domain_matches_exact.
    destruct (getDomain st j false) as [d|] eqn:Hd; [|done].
    destruct (Domain.domainhash d =? hashStr key) eqn:Eh; cbn [negb]; [done|].
    symmetry. apply Z.eqb_neq. intros Hcmp. apply strcmp_0 in Hcmp.
    apply Z.eqb_neq in Eh. apply Eh.
    rewrite (Hhash j d Hj Hd). by rewrite Hcmp.
  - unfold client_matches, client_matches_exact.
    destruct (getClient st j true) as [c|]; [|done].
    destruct (Ascii.eqb _ _) eqn:Ec; cbn [negb]; [done|].
    symmetry. apply Z.eqb_neq. intros Hcmp.
    apply strcmp_first_char in Hcmp. rewrite Hcmp in Ec.
    by rewrite Ascii.eqb_refl in Ec.
Qed.

(** ** Counting queries *)

Lemma count_queries_bounds p qs :
  0 ≤ count_queries p qs ≤ Z.of_nat (length qs).
Proof.
  induction qs as [|q qs IH]; cbn [count_queries length]; [lia|].
  destruct (p q); lia.
Qed.

Lemma count_queries_app p qs q :
  count_queries p (qs ++ [q]) = count_queries p qs + (if p q then 1 else 0).
Proof.
  induction qs as [|q' qs IH]; cbn [count_queries app]; [lia|].
  rewrite IH. lia.
Qed.

Lemma count_queries_alter p g qs i q :
  qs !! i = Some q →
  count_queries p (alter g i qs)
  = count_queries p qs - (if p q then 1 else 0) + (if p (g q) then 1 else 0).
Proof.
  revert i. induction qs as [|q' qs IH]; intros i Hi; [done|].
  destruct i as [|i]; cbn in Hi |- *.
  - injection Hi as ->. lia.
  - rewrite (IH i Hi). lia.
Qed.

Lemma count_queries_pos p qs i q :
  qs !! i = Some q → p q = true → 1 ≤ count_queries p qs.
Proof.
  revert i. induction qs as [|q' qs IH]; intros i Hi Hp; [done|].
  destruct i as [|i]; cbn in Hi |- *.
  - injection Hi as ->. rewrite Hp. pose proof (count_queries_bounds p qs). lia.
  - pose proof (IH i Hi Hp). destruct (p q'); lia.
Qed.

Lemma count_queries_lt p qs i q :
  qs !! i = Some q → p q = false → count_queries p qs + 1 ≤ Z.of_nat (length qs).
Proof.
  revert i. induction qs as [|q' qs IH]; intros i Hi Hp; [done|].
  destruct i as [|i]; cbn in Hi |- *.
  - injection Hi as ->. rewrite Hp. pose proof (count_queries_bounds p qs). lia.
  - pose proof (IH i Hi Hp). destruct (p q'); lia.
Qed.

Lemma count_queries_ext p p' qs :
  (∀ q, p q = p' q) → count_queries p qs = count_queries p' qs.
Proof.
  intros Hext. induction qs as [|q qs IH]; cbn [count_queries]; [done|].
  by rewrite Hext, IH.
Qed.

Lemma sum_alter (f : Z → Z) (l : list Z) i x :
  l !! i = Some x →
  foldr Z.add 0 (alter f i l) = foldr Z.add 0 l - x + f x.
Proof.
  revert i. induction l as [|y l IH]; intros i Hi; [done|].
  destruct i as [|i]; cbn in Hi |- *.
  - injection Hi as ->. lia.
  - rewrite (IH i Hi). lia.
Qed.

Lemma sum_replicate_0 n : foldr Z.add 0 (replicate n 0) = 0.
Proof. induction n as [|n IH]; cbn; [done | by rewrite IH]. Qed.

(** ** What a status assignment does to the store *)

Lemma overTime_when (c : bool) f i (st : store) :
  overTime (when c (set_overTime (alter f i)) st)
  = alter (if c then f else id) i (overTime st).
Proof. destruct c; [done|]. cbn [when]. by rewrite list_alter_id. Qed.

Lemma queries_when_overTime (c : bool) f (st : store) :
  queries (when c (set_overTime f) st) = queries st.
Proof. by destruct c. Qed.

Lemma counters_when_overTime (c : bool) f (st : store) :
  counters (when c (set_overTime f) st) = counters st.
Proof. by destruct c. Qed.

Lemma set_status_effect (st : store) (i : nat) (q : Query.queriesData)
    (new_status : N) (init : bool) :
  let old_status := Query.status q in
  let timeidx := getOverTimeID (Query.timestamp q) in
  queries st !! i = Some q →
  (new_status < QUERY_STATUS_MAX)%N →
  (old_status =? new_status)%N && negb init = false →
  init = true ∨ (old_status < QUERY_STATUS_MAX)%N →
  0 ≤ timeidx < Z.of_nat (length (overTime st)) →
  ∃ st',
    _query_set_status st i new_status init = Some st'
    ∧ queries st' = alter (with_status new_status) i (queries st)
    ∧ Counters.status (counters st')
      = alter (λ n, int_add n 1) (N.to_nat new_status)
          (if init then Counters.status (counters st)
           else alter (λ n, int_add n (-1)) (N.to_nat old_status)
                      (Counters.status (counters st)))
    ∧ overTime st'
      = alter
          ((if (new_status =? QUERY_FORWARDED)%N then forwarded_add 1 else id)
           ∘ (if (old_status =? QUERY_FORWARDED)%N && negb init
              then forwarded_add (-1) else id)
           ∘ (if (new_status =? QUERY_CACHE)%N || (new_status =? QUERY_CACHE_STALE)%N
              then cached_add 1 else id)
           ∘ (if ((old_status =? QUERY_CACHE)%N || (old_status =? QUERY_CACHE_STALE)%N)
                 && negb init
              then cached_add (-1) else id)
           ∘ (if is_blocked new_status then blocked_add 1 else id)
           ∘ (if is_blocked old_status && negb init then blocked_add (-1) else id))
          (Z.to_nat timeidx) (overTime st).
Proof.
  intros old_status timeidx Hq Hnew Hchange Hold Hidx.
  unfold _query_set_status. rewrite Hq.
  rewrite (proj2 (N.leb_gt _ _) Hnew).
  fold old_status timeidx. rewrite Hchange.
  assert (negb init && (QUERY_STATUS_MAX <=? old_status)%N = false) as ->.
  { destruct Hold as [-> | Hold]; [done|].
    rewrite (proj2 (N.leb_gt _ _) Hold). by rewrite andb_false_r. }
  assert ((timeidx <? 0) || (Z.of_nat (length (overTime st)) <=? timeidx) = false)
    as ->.
  { apply orb_false_intro; [apply Z.ltb_ge | apply Z.leb_gt]; lia. }
  rewrite andb_false_r.
  eexists. split; [reflexivity|].
  cbn [queries set_queries counters overTime].
  repeat split.
  - rewrite !queries_when_overTime. by destruct init.
  - rewrite !counters_when_overTime. by destruct init.
  - rewrite !overTime_when. rewrite !list_alter_alter_eq.
    by destruct init.
Qed.

Lemma bucket_effect_fields (c1 c2 c3 c4 c5 c6 : bool) (slot : OverTime.overTimeData) :
  let slot' :=
    ((if c6 then forwarded_add 1 else id)
     ∘ (if c5 then forwarded_add (-1) else id)
     ∘ (if c4 then cached_add 1 else id)
     ∘ (if c3 then cached_add (-1) else id)
     ∘ (if c2 then blocked_add 1 else id)
     ∘ (if c1 then blocked_add (-1) else id)) slot in
  let step (down up : bool) (x : Z) :=
    let x := if down then int_add x (-1) else x in
    if up then int_add x 1 else x in
  OverTime.blocked slot' = step c1 c2 (OverTime.blocked slot)
  ∧ OverTime.cached slot' = step c3 c4 (OverTime.cached slot)
  ∧ OverTime.forwarded slot' = step c5 c6 (OverTime.forwarded slot).
Proof. by destruct c1, c2, c3, c4, c5, c6. Qed.

(** A counter that is decremented and then incremented stays exact as long
    as the count it tracks stays within [0, INT_MAX]. *)
Lemma counter_step_exact (down up : bool) (x : Z) :
  0 ≤ x ≤ INT_MAX →
  (down = true → 1 ≤ x) →
  x - (if down then 1 else 0) + (if up then 1 else 0) ≤ INT_MAX →
  (let x := if down then int_add x (-1) else x in
   if up then int_add x 1 else x)
  = x - (if down then 1 else 0) + (if up then 1 else 0).
Proof.
  unfold INT_MAX. intros Hx Hdown Hup. cbv zeta.
  destruct down, up; rewrite ?int_add_exact; try rewrite int_add_exact;
    unfold INT_MIN, INT_MAX; try lia.
  all: specialize (Hdown eq_refl); lia.
Qed.

(** One status assignment keeps the invariant.  [qs] are the queries counted
    so far: all of them for a transition, all but the new record for an
    initial assignment. *)
Lemma set_status_core (st : store) (qs : list Query.queriesData) (i : nat)
    (q : Query.queriesData) (new_status : N) (init : bool) :
  env_buckets_ok →
  status_inv_for qs st →
  queries st !! i = Some q →
  (init = false ∧ qs = queries st)
  ∨ (init = true ∧ queries st = (qs ++ [q])%list ∧ i = length qs) →
  (new_status < QUERY_STATUS_MAX)%N →
  Z.of_nat (length (queries st)) ≤ INT_MAX →
  ∃ st', _query_set_status st i new_status init = Some st'
         ∧ status_inv st'
         ∧ length (queries st') = length (queries st).
Proof.
  intros Henv (Hhist & Hvalid & Hslots & Hsum & Hbuckets) Hq Hqs Hnew Hmax.
  set (old_status := Query.status q).
  destruct ((old_status =? new_status)%N && negb init) eqn:Hchange.
  { (* the status does not change *)
    apply andb_prop in Hchange as [Hsame Hinit].
    destruct init; [done|]. destruct Hqs as [[_ ->] | [? _]]; [|done].
    exists st. split; [|split; [|done]].
    - unfold _query_set_status. rewrite Hq.
      rewrite (proj2 (N.leb_gt _ _) Hnew). fold old_status. by rewrite Hsame.
    - exact (conj Hhist (conj Hvalid (conj Hslots (conj Hsum Hbuckets)))). }
  assert (Hold : init = true ∨ (old_status < QUERY_STATUS_MAX)%N).
  { destruct Hqs as [[_ ->] | [? _]]; [right | by left].
    rewrite Forall_lookup in Hvalid. exact (Hvalid i q Hq). }
  pose proof (Henv (Query.timestamp q)) as Hidx. rewrite <- Hslots in Hidx.
  destruct (set_status_effect st i q new_status init Hq Hnew Hchange Hold Hidx)
    as (st' & Hrun & Hqueries & Hstatus & HoverTime).
  exists st'. split; [done|].
  set (q' := with_status new_status q).
  set (b2z := λ c : bool, if c then 1 else 0).
  (* how the counts move *)
  assert (Hcount : ∀ p, count_queries p (queries st')
                        = count_queries p qs - b2z (negb init && p q) + b2z (p q')).
  { intros p. rewrite Hqueries. destruct Hqs as [[-> ->] | (-> & Heq & ->)].
    - by rewrite (count_queries_alter p _ _ i q Hq).
    - rewrite Heq. unfold b2z.
      replace (length qs) with (length qs + 0)%nat by lia.
      rewrite alter_app_r. cbn [alter list_alter]. rewrite count_queries_app.
      cbn [negb andb]. fold q'. lia. }
  assert (Hlen : length (queries st') = length (queries st))
    by (by rewrite Hqueries, length_alter).
  assert (Hupper : ∀ p, 0 ≤ count_queries p (queries st') ≤ INT_MAX).
  { intros p. pose proof (count_queries_bounds p (queries st')). lia. }
  assert (Hlower : ∀ p, 0 ≤ count_queries p qs ≤ INT_MAX).
  { intros p. pose proof (count_queries_bounds p qs).
    destruct Hqs as [[_ ->] | (_ & Heq & _)]; [lia|].
    rewrite Heq, length_app in Hmax. lia. }
  assert (Hpos : ∀ p, negb init && p q = true → 1 ≤ count_queries p qs).
  { intros p Hp. apply andb_prop in Hp as [Hinit Hp].
    destruct Hqs as [[_ ->] | (-> & _)]; [|done].
    by apply (count_queries_pos p _ i q). }
  assert (Hstep : ∀ p, (let x := if negb init && p q
                                 then int_add (count_queries p qs) (-1)
                                 else count_queries p qs in
                        if p q' then int_add x 1 else x)
                       = count_queries p (queries st')).
  { intros p. rewrite Hcount. apply counter_step_exact.
    - apply Hlower.
    - apply Hpos.
    - specialize (Hupper p). rewrite Hcount in Hupper. unfold b2z in Hupper. lia. }
  assert (Hbucket_q' : ∀ b, in_bucket b q' = in_bucket b q) by done.
  split; [|done]. split; [|split; [|split; [|split]]].
  - (* the histogram, slot by slot *)
    intros s Hs. rewrite Hstatus.
    specialize (Hstep (λ x, (Query.status x =? s)%N)). cbn beta in Hstep.
    rewrite <- Hstep. change (Query.status q') with new_status.
    fold old_status in Hchange |- *.
    destruct (N.eqb_spec new_status s) as [<- | Hns];
      destruct init; cbn [negb andb] in Hchange |- *;
      destruct (N.eqb_spec old_status new_status) as [Hon | Hon]; try done;
      try destruct (N.eqb_spec old_status s) as [Hos | Hos]; try done.
    all: try subst s.
    all: repeat first
           [ rewrite list_lookup_alter_eq
           | rewrite list_lookup_alter_ne
               by (intros E; apply N2Nat.inj in E; congruence) ].
    all: try (rewrite Hhist by (subst; done)); try (subst; done).
    all: rewrite Hhist by (destruct Hold; [done | by subst]); by subst.
  - (* every status is valid *)
    rewrite Hqueries. destruct Hqs as [[_ ->] | (_ & Heq & ->)].
    + apply Forall_alter; [done|]. intros x _ _. exact Hnew.
    + rewrite Heq. replace (length qs) with (length qs + 0)%nat by lia.
      rewrite alter_app_r. apply Forall_app. split; [done|].
      apply Forall_cons. split; [exact Hnew | by apply Forall_nil].
  - by rewrite HoverTime, length_alter.
  - (* the histogram sums to the number of queries *)
    unfold histogram_sum in Hsum |- *. rewrite Hstatus, Hlen.
    pose proof (Hcount (λ x, (Query.status x =? new_status)%N)) as Hc_new.
    pose proof (Hupper (λ x, (Query.status x =? new_status)%N)) as Hu_new.
    pose proof (Hlower (λ x, (Query.status x =? new_status)%N)) as Hl_new.
    cbn beta in Hc_new. change (Query.status q') with new_status in Hc_new.
    rewrite N.eqb_refl in Hc_new. fold old_status in Hc_new.
    destruct Hqs as [[-> Hqs] | (-> & Heq & ->)];
      cbn [negb andb] in Hchange, Hc_new.
    + rewrite andb_true_r in Hchange. rewrite Hchange in Hc_new.
      apply N.eqb_neq in Hchange. unfold b2z in Hc_new.
      assert (Hold' : (old_status < QUERY_STATUS_MAX)%N) by (by destruct Hold).
      pose proof (Hpos (λ x, (Query.status x =? old_status)%N)) as Hp_old.
      pose proof (Hlower (λ x, (Query.status x =? old_status)%N)) as Hl_old.
      cbn beta in Hp_old. fold old_status in Hp_old.
      rewrite N.eqb_refl in Hp_old. specialize (Hp_old eq_refl).
      erewrite sum_alter; last first.
      { rewrite list_lookup_alter_ne
          by (intros E; apply N2Nat.inj in E; by apply Hchange).
        by apply Hhist. }
      erewrite sum_alter by (by apply Hhist).
      fold old_status. rewrite !int_add_exact by (unfold INT_MIN, INT_MAX in *; lia).
      subst qs. lia.
    + erewrite sum_alter by (by apply Hhist).
      rewrite int_add_exact by (unfold INT_MIN, INT_MAX, b2z in *; lia).
      rewrite Heq, length_app. cbn [length]. lia.
  - (* every bucket *)
    intros b slot' Hb. rewrite HoverTime, list_lookup_alter in Hb.
    set (timeidx := getOverTimeID (Query.timestamp q)) in *.
    destruct (decide (Z.to_nat timeidx = b)) as [Hsame | Hother].
    + assert (Hin : in_bucket b q = true).
      { unfold in_bucket. fold timeidx. apply Z.eqb_eq. lia. }
      destruct (overTime st !! Z.to_nat timeidx) as [slot|] eqn:Hslot; [|done].
      injection Hb as <-. rewrite Hsame in Hslot.
      destruct (Hbuckets b slot Hslot) as (Hblocked & Hcached & Hforwarded).
      destruct (bucket_effect_fields
                  (is_blocked old_status && negb init)
                  (is_blocked new_status)
                  (((old_status =? QUERY_CACHE)%N || (old_status =? QUERY_CACHE_STALE)%N)
                   && negb init)
                  ((new_status =? QUERY_CACHE)%N || (new_status =? QUERY_CACHE_STALE)%N)
                  ((old_status =? QUERY_FORWARDED)%N && negb init)
                  (new_status =? QUERY_FORWARDED)%N slot) as (E1 & E2 & E3).
      cbv zeta in E1, E2, E3. unfold compose in E1, E2, E3.
      fold old_status. rewrite E1, E2, E3.
      rewrite Hblocked, Hcached, Hforwarded.
      fold old_status.
      pose proof (Hstep (λ x, in_bucket b x && is_blocked (Query.status x))) as S1.
      pose proof (Hstep (λ x, in_bucket b x && is_cached (Query.status x))) as S2.
      pose proof (Hstep (λ x, in_bucket b x && (Query.status x =? QUERY_FORWARDED)%N))
        as S3.
      cbn beta in S1, S2, S3. rewrite Hbucket_q', Hin in S1, S2, S3.
      change (Query.status q') with new_status in S1, S2, S3.
      fold old_status in S1, S2, S3. cbn [andb] in S1, S2, S3.
      rewrite !is_cached_inline in S2.
      rewrite (andb_comm (negb init)) in S1, S2, S3.
      by rewrite S1, S2, S3.
    + assert (Hin : in_bucket b q = false).
      { unfold in_bucket. fold timeidx. apply Z.eqb_neq. lia. }
      destruct (Hbuckets b slot' Hb) as (Hblocked & Hcached & Hforwarded).
      rewrite Hblocked, Hcached, Hforwarded.
      rewrite !Hcount. rewrite !Hbucket_q', !Hin. cbn [andb].
      rewrite !andb_false_r. unfold b2z. repeat split; lia.
Qed.

Lemma store_init_status_inv (capacity : nat) :
  env_buckets_ok → status_inv (store_init capacity).
Proof.
  intros Henv. pose proof (Henv 0%Q) as Hslots.
  split; [|split; [|split; [|split]]]; cbn.
  - intros s Hs. apply lookup_replicate_2. lia.
  - by apply Forall_nil.
  - rewrite length_replicate. lia.
  - done.
  - intros b slot Hb. apply lookup_replicate in Hb as [-> _]. done.
Qed.

Lemma status_step_inv (st : store) (call : status_call) :
  env_buckets_ok →
  status_inv st →
  status_calls_ok (length (queries st)) [call] →
  Z.of_nat (length (queries st) + initial_assignments [call]) ≤ INT_MAX →
  ∃ st', status_step st call = Some st'
         ∧ status_inv st'
         ∧ length (queries st')
           = (length (queries st) + initial_assignments [call])%nat.
Proof.
  intros Henv Hinv Hok Hmax. destruct call as [record new_status | i new_status].
  - destruct Hok as [Hnew _]. cbn in Hmax |- *.
    set (st_a := set_queries (λ qs, (qs ++ [record])%list) st).
    assert (Hq : queries st_a !! length (queries st) = Some record)
      by (by apply list_lookup_middle).
    destruct (set_status_core st_a (queries st) (length (queries st)) record
                new_status true Henv Hinv Hq) as (st' & Hrun & Hinv' & Hlen).
    + right. by repeat split.
    + done.
    + cbn. rewrite length_app. cbn. lia.
    + exists st'. split; [done|]. split; [done|].
      rewrite Hlen. cbn. rewrite length_app. cbn. lia.
  - destruct Hok as (Hnew & Hi & _). cbn in Hmax |- *.
    destruct (lookup_lt_is_Some_2 (queries st) i Hi) as [q Hq].
    destruct (set_status_core st (queries st) i q new_status false Henv Hinv Hq)
      as (st' & Hrun & Hinv' & Hlen).
    + left. by split.
    + done.
    + lia.
    + exists st'. split; [done|]. split; [done|]. lia.
Qed.

Lemma status_run_inv (calls : list status_call) :
  ∀ st : store,
    env_buckets_ok →
    status_inv st →
    status_calls_ok (length (queries st)) calls →
    Z.of_nat (length (queries st) + initial_assignments calls) ≤ INT_MAX →
    ∃ st', status_run st calls = Some st'
           ∧ status_inv st'
           ∧ length (queries st')
             = (length (queries st) + initial_assignments calls)%nat.
Proof.
  induction calls as [|call calls IH]; intros st Henv Hinv Hok Hmax.
  - exists st. cbn. split; [done|]. split; [done|]. lia.
  - assert (Hsplit : initial_assignments (call :: calls)
                     = (initial_assignments [call] + initial_assignments calls)%nat)
      by (by destruct call).
    rewrite Hsplit in Hmax |- *.
    destruct (status_step_inv st call Henv Hinv) as (st1 & Hstep & Hinv1 & Hlen1).
    { destruct call; cbn in Hok |- *; tauto. }
    { lia. }
    destruct (IH st1 Henv Hinv1) as (st' & Hrun & Hinv' & Hlen').
    { rewrite Hlen1. destruct call; cbn in Hok |- *.
      - destruct Hok as [_ Hok]. by replace (length (queries st) + 1)%nat
                                      with (S (length (queries st))) by lia.
      - destruct Hok as (_ & _ & Hok). by rewrite Nat.add_0_r. }
    { lia. }
    exists st'. cbn [status_run]. rewrite Hstep. split; [done|]. split; [done|]. lia.
Qed.

(** C1.  Starting from the zeroed store, after any sequence of status
    assignments (an initial assignment for each new query, then
    transitions, all with valid statuses) the histogram sums to the number
    of live queries and every bucket's blocked, cached and forwarded
    sub-counts are the numbers of live queries of that bucket whose current
    status is blocked, cached and forwarded. *)
Theorem status_counters_consistent (capacity : nat) (calls : list status_call) :
  env_buckets_ok →
  status_calls_ok 0 calls →
  Z.of_nat (initial_assignments calls) ≤ INT_MAX →
  ∃ st', status_run (store_init capacity) calls = Some st'
         ∧ counters_consistent st'
         ∧ length (queries st') = initial_assignments calls.
Proof.
  intros Henv Hok Hmax.
  destruct (status_run_inv calls (store_init capacity) Henv
              (store_init_status_inv capacity Henv) Hok)
    as (st' & Hrun & (_ & _ & _ & Hcons) & Hlen); [done|].
  by exists st'.
Qed.

(** ** The string pool *)

Lemma getstr_addstr_old (st : store) (s : string) (pos : nat) :
  (pos < length (strings st))%nat →
  getstr (fst (addstr s st)) pos = getstr st pos.
Proof.
  intros Hpos. unfold getstr, addstr. cbn [fst strings set_strings].
  by rewrite lookup_app_l.
Qed.

Lemma getstr_addstr_new (st : store) (s : string) :
  getstr (fst (addstr s st)) (snd (addstr s st)) = s.
Proof.
  unfold getstr, addstr. cbn [fst snd strings set_strings].
  by rewrite list_lookup_middle.
Qed.

(** ** Domain lookups *)

(** The three ways [_findDomainID] can go. *)
Lemma findDomainID_cases (st : store) (domainString : string) (count : bool)
    (now : Q) :
  let r := _findDomainID st domainString count now in
  let scan := scan_IDs (Counters.domains (counters st))
                       (domain_matches st (hashStr domainString) domainString) in
  (scan = Some (snd r)
   ∧ fst r = if count
             then set_domains (alter (domain_counted now) (Z.to_nat (snd r))) st
             else st)
  ∨ (scan = None ∧ getDomain st (get_next_free_domainID st) false = None
     ∧ snd r = -1 ∧ fst r = add_log (Err_memory "findDomainID") st)
  ∨ (scan = None ∧ is_Some (getDomain st (get_next_free_domainID st) false)
     ∧ snd r = get_next_free_domainID st
     ∧ fst r = set_counters incr_domains
                 (set_domains
                    (λ a, <[Z.to_nat (get_next_free_domainID st)
                            := new_domain domainString count (length (strings st))]> a)
                    (fst (addstr domainString st)))).
Proof.
  cbv zeta. unfold _findDomainID.
  destruct (scan_IDs _ _) as [ID|]; [left; by destruct count|].
  destruct (getDomain st (get_next_free_domainID st) false) eqn:Hslot.
  - right; right. by repeat split.
  - right; left. by repeat split.
Qed.

Lemma getDomain_unchecked (st : store) (ID : Z) :
  getDomain st ID false = if ID <? 0 then None else domains st !! Z.to_nat ID.
Proof.
  unfold getDomain. destruct (ID <? 0); [done|].
  by destruct (domains st !! Z.to_nat ID).
Qed.

Lemma domain_matches_counted (st : store) (now : Q) (k : nat) h D j :
  domain_matches (set_domains (alter (domain_counted now) k) st) h D j
  = domain_matches st h D j.
Proof.
  unfold domain_matches. rewrite !getDomain_unchecked.
  destruct (j <? 0); [done|]. cbn [domains set_domains].
  rewrite list_lookup_alter. case_decide as Hk; [subst k|done].
  by destruct (domains st !! Z.to_nat j).
Qed.

Lemma domain_matches_log (st : store) e h D j :
  domain_matches (add_log e st) h D j = domain_matches st h D j.
Proof. done. Qed.

(** A new domain in slot [k] leaves the other slots' matches alone. *)
Lemma domain_matches_created (st : store) (k : Z) (E : string) (count : bool)
    h D j :
  domain_strings_ok st →
  0 ≤ j → j ≠ k → 0 ≤ k →
  domain_matches
    (set_counters incr_domains
       (set_domains (λ a, <[Z.to_nat k := new_domain E count (length (strings st))]> a)
                    (fst (addstr E st)))) h D j
  = domain_matches st h D j.
Proof.
  intros Hstr Hj Hjk Hk. unfold domain_matches. rewrite !getDomain_unchecked.
  rewrite (proj2 (Z.ltb_ge _ _) Hj).
  cbn [domains set_domains set_counters addstr fst set_strings].
  rewrite list_lookup_insert_ne by lia.
  destruct (domains st !! Z.to_nat j) as [d|] eqn:Hd; [|done].
  destruct (negb _); [done|].
  unfold getstr. cbn [strings set_counters set_domains set_strings].
  rewrite lookup_app_l; [done|].
  unfold domain_strings_ok in Hstr. rewrite Forall_lookup in Hstr.
  exact (Hstr _ _ Hd).
Qed.

Lemma domain_strings_ok_step (st : store) (E : string) (count : bool) (now : Q) :
  domain_strings_ok st →
  domain_strings_ok (fst (_findDomainID st E count now)).
Proof.
  intros Hstr. unfold domain_strings_ok in *.
  destruct (findDomainID_cases st E count now)
    as [[_ ->] | [(_ & _ & _ & ->) | (_ & _ & _ & ->)]].
  - destruct count; [|done]. cbn [domains set_domains strings].
    apply Forall_alter; [done|]. by intros d _ Hd.
  - done.
  - cbn [domains set_domains set_counters strings addstr fst set_strings].
    rewrite length_app. cbn [length].
    apply Forall_insert.
    + eapply Forall_impl; [exact Hstr|]. intros d Hd. cbn beta in Hd |- *. lia.
    + cbn. lia.
Qed.

Lemma int_wrap_range z : is_int (int_wrap z).
Proof.
  unfold is_int, int_wrap, INT_MIN, INT_MAX.
  pose proof (Z.mod_pos_bound (z + 2 ^ 31) (2 ^ 32)). lia.
Qed.

Lemma int_add_1_cases c : is_int c → int_add c 1 = c + 1 ∨ int_add c 1 < 0.
Proof.
  unfold is_int, INT_MIN, INT_MAX. intros Hc.
  destruct (decide (c = 2 ^ 31 - 1)) as [-> | Hne].
  - right. by vm_compute.
  - left. apply int_add_exact. unfold INT_MIN, INT_MAX. lia.
Qed.

Lemma domain_matches_true (st : store) h D j :
  domain_matches st h D j = true →
  0 ≤ j ∧ ∃ d, domains st !! Z.to_nat j = Some d
               ∧ Domain.domainhash d = h
               ∧ getstr st (Domain.domainpos d) = D.
Proof.
  unfold domain_matches. rewrite getDomain_unchecked.
  destruct (j <? 0) eqn:Hj; [done|]. apply Z.ltb_ge in Hj.
  destruct (domains st !! Z.to_nat j) as [d|]; [|done].
  destruct (Domain.domainhash d =? h) eqn:Hh; cbn [negb]; [|done].
  intros Hcmp. apply Z.eqb_eq in Hh. apply strcmp_eqb in Hcmp. eauto.
Qed.

Lemma domain_matches_slot (st : store) D j d :
  0 ≤ j →
  domains st !! Z.to_nat j = Some d →
  Domain.domainhash d = hashStr D →
  getstr st (Domain.domainpos d) = D →
  domain_matches st (hashStr D) D j = true.
Proof.
  intros Hj Hd Hh Hname. unfold domain_matches. rewrite getDomain_unchecked.
  rewrite (proj2 (Z.ltb_ge _ _) Hj), Hd, Hh, Z.eqb_refl. cbn [negb].
  rewrite Hname. by apply strcmp_eqb.
Qed.

Lemma getDomain_Some_inv (st : store) ID checkMagic d :
  getDomain st ID checkMagic = Some d →
  0 ≤ ID ∧ domains st !! Z.to_nat ID = Some d
  ∧ (checkMagic = true → Domain.magic d = MAGICBYTE).
Proof.
  unfold getDomain. destruct (ID <? 0) eqn:Hneg; [done|]. apply Z.ltb_ge in Hneg.
  destruct (domains st !! Z.to_nat ID) as [d'|]; [|done].
  destruct checkMagic; cbn [andb].
  - destruct (Domain.magic d' =? MAGICBYTE) eqn:Hm; cbn [negb]; [|done].
    intros [= ->]. apply Z.eqb_eq in Hm. by repeat split.
  - intros [= ->]. by repeat split.
Qed.

Lemma next_free_domain_spec (st : store) :
  lowest_free_or_count (domain_is_free st) (Counters.domains (counters st))
                       (get_next_free_domainID st).
Proof. apply scan_IDs_lowest. Qed.

Lemma domain_is_free_true (st : store) j :
  domain_is_free st j = true →
  ∃ d, domains st !! Z.to_nat j = Some d ∧ Domain.magic d = 0.
Proof.
  unfold domain_is_free. rewrite getDomain_unchecked.
  destruct (j <? 0); [done|].
  destruct (domains st !! Z.to_nat j) as [d|]; [|done].
  intros Hm. apply Z.eqb_eq in Hm. eauto.
Qed.

(** The slot a successful call returns holds the name. *)
Lemma domain_held_after_call (st : store) (D : string) (count : bool) (now : Q) :
  domain_strings_ok st →
  is_int (Counters.domains (counters st)) →
  is_Some (getDomain (fst (_findDomainID st D count now))
                     (snd (_findDomainID st D count now)) true) →
  domain_held (fst (_findDomainID st D count now)) D
              (snd (_findDomainID st D count now)).
Proof.
  intros Hstr Hint [d1 Hlive].
  pose proof (domain_strings_ok_step st D count now Hstr) as Hstr1.
  apply getDomain_Some_inv in Hlive as (Hid & Hd1 & Hmagic).
  specialize (Hmagic eq_refl).
  destruct (findDomainID_cases st D count now)
    as [[Hscan Hst] | [(_ & _ & Hid' & _) | (Hscan & [d0 Hslot] & Hid' & Hst)]].
  - (* found *)
    apply scan_IDs_Some in Hscan as (Hrange & Hmatch & Hbefore).
    assert (Hsame : ∀ j, domain_matches (fst (_findDomainID st D count now))
                                        (hashStr D) D j
                         = domain_matches st (hashStr D) D j).
    { intros j. rewrite Hst. destruct count; [|done].
      apply domain_matches_counted. }
    assert (Hcounters : counters (fst (_findDomainID st D count now)) = counters st)
      by (rewrite Hst; by destruct count).
    rewrite <- Hsame in Hmatch.
    apply domain_matches_true in Hmatch as (_ & d & Hd & Hhash & Hname).
    rewrite Hd1 in Hd. injection Hd as <-.
    repeat split; try done; rewrite ?Hcounters; try apply Hint.
    + left. lia.
    + by exists d1.
    + intros j Hj. rewrite Hsame. by apply Hbefore.
  - rewrite Hid' in Hid. lia.
  - (* created *)
    pose proof (next_free_domain_spec st) as Hfree.
    apply getDomain_Some_inv in Hslot as (Hk & Hslot & _).
    set (k := get_next_free_domainID st) in *.
    assert (Hk_le : k ≤ Counters.domains (counters st))
      by (destruct Hfree as [(? & _) | [-> _]]; lia).
    rewrite Hid' in *.
    assert (Hcount : Counters.domains (counters (fst (_findDomainID st D count now)))
                     = int_add (Counters.domains (counters st)) 1)
      by (by rewrite Hst).
    rewrite Hst in Hd1. cbn [domains set_domains set_counters] in Hd1.
    rewrite list_lookup_insert_eq in Hd1
      by (cbn [domains addstr fst set_strings]; by eapply lookup_lt_Some).
    injection Hd1 as <-.
    repeat split; try done.
    + rewrite Hcount. apply int_wrap_range.
    + rewrite Hcount. apply int_wrap_range.
    + rewrite Hcount. destruct (int_add_1_cases _ Hint) as [-> | Hneg]; [left|right]; lia.
    + eexists. split; [|repeat split].
      * rewrite Hst. cbn [domains set_domains set_counters].
        apply list_lookup_insert_eq.
        cbn [domains addstr fst set_strings]. by eapply lookup_lt_Some.
      * done.
      * done.
      * rewrite Hst. apply (getstr_addstr_new st D).
    + intros j Hj. rewrite Hst.
      rewrite domain_matches_created by (done || lia).
      eapply scan_IDs_None in Hscan; [exact Hscan | lia].
Qed.

(** In a store that holds [D] at [ID], a call that creates a record uses
    another slot, for another name, while the scan reaches [ID]. *)
Lemma domain_held_create (st : store) (D E : string) (ID : Z) :
  MAGICBYTE ≠ 0 →
  domain_held st D ID →
  scan_IDs (Counters.domains (counters st)) (domain_matches st (hashStr E) E) = None →
  is_Some (getDomain st (get_next_free_domainID st) false) →
  get_next_free_domainID st ≠ ID ∧ E ≠ D ∧ ID < Counters.domains (counters st).
Proof.
  intros Hmagic (Hstr & Hid & Hint & Hreach & (d & Hd & Hd_magic & Hd_hash & Hd_name)
                 & Hbefore) Hscan [d0 Hslot].
  apply getDomain_Some_inv in Hslot as (Hk & Hslot & _).
  pose proof (next_free_domain_spec st) as Hfree.
  set (k := get_next_free_domainID st) in *.
  assert (Hin : ID < Counters.domains (counters st)).
  { destruct Hreach as [? | Hneg]; [done|].
    destruct Hfree as [(? & _) | [Hk' _]]; lia. }
  repeat split; [| |done].
  - destruct Hfree as [(_ & Hfree & _) | [Hk' _]]; [|lia].
    apply domain_is_free_true in Hfree as (d' & Hd' & Hzero).
    intros ->. rewrite Hd in Hd'. injection Hd' as <-. congruence.
  - intros ->. eapply scan_IDs_None in Hscan; [|split; [exact Hid | exact Hin]].
    by rewrite (domain_matches_slot st D ID d) in Hscan.
Qed.

(** A further call keeps what the store holds. *)
Lemma domain_held_step (st : store) (D E : string) (ID : Z) (count : bool) (now : Q) :
  MAGICBYTE ≠ 0 →
  domain_held st D ID →
  domain_held (fst (_findDomainID st E count now)) D ID.
Proof.
  intros Hmagic Hheld.
  pose proof Hheld as (Hstr & Hid & Hint & Hreach
                       & (d & Hd & Hd_magic & Hd_hash & Hd_name) & Hbefore).
  pose proof (domain_strings_ok_step st E count now Hstr) as Hstr1.
  destruct (findDomainID_cases st E count now)
    as [[Hscan Hst] | [(_ & _ & _ & Hst) | (Hscan & Hslot & Hid' & Hst)]].
  - (* found *)
    assert (Hsame : ∀ j, domain_matches (fst (_findDomainID st E count now))
                                        (hashStr D) D j
                         = domain_matches st (hashStr D) D j).
    { intros j. rewrite Hst. destruct count; [|done].
      apply domain_matches_counted. }
    assert (Hcounters : counters (fst (_findDomainID st E count now)) = counters st)
      by (rewrite Hst; by destruct count).
    repeat split; try done; rewrite ?Hcounters; try apply Hint; try done.
    + rewrite Hst. destruct count; [|by exists d].
      cbn [domains set_domains]. rewrite list_lookup_alter.
      case_decide as Heq; [rewrite Heq|by exists d].
      exists (domain_counted now d). rewrite Hd. by repeat split.
    + intros j Hj. rewrite Hsame. by apply Hbefore.
  - rewrite Hst. exact Hheld.
  - (* created *)
    destruct (domain_held_create st D E ID Hmagic Hheld Hscan Hslot)
      as (Hk_ne & HE & Hin).
    destruct Hslot as [d0 Hslot].
    apply getDomain_Some_inv in Hslot as (Hk & Hslot & _).
    set (k := get_next_free_domainID st) in *.
    assert (Hcount : Counters.domains (counters (fst (_findDomainID st E count now)))
                     = int_add (Counters.domains (counters st)) 1)
      by (by rewrite Hst).
    repeat split; try done.
    + rewrite Hcount. apply int_wrap_range.
    + rewrite Hcount. apply int_wrap_range.
    + rewrite Hcount. destruct (int_add_1_cases _ Hint) as [-> | Hneg]; [left|right]; lia.
    + exists d. rewrite Hst. cbn [domains set_domains set_counters].
      rewrite list_lookup_insert_ne by lia. repeat split; try done.
      rewrite <- Hd_name. apply (getstr_addstr_old st E).
      unfold domain_strings_ok in Hstr. rewrite Forall_lookup in Hstr.
      exact (Hstr _ _ Hd).
    + intros j Hj. rewrite Hst.
      destruct (decide (j = k)) as [-> | Hjk].
      * unfold domain_matches. rewrite getDomain_unchecked.
        rewrite (proj2 (Z.ltb_ge _ _) Hk).
        cbn [domains set_domains set_counters].
        rewrite list_lookup_insert_eq
          by (cbn [domains addstr fst set_strings]; by eapply lookup_lt_Some).
        cbn [new_domain Domain.domainhash Domain.domainpos].
        destruct (negb _); [done|].
        change ((strcmp (getstr (fst (addstr E st)) (snd (addstr E st))) D =? 0) = false).
        rewrite getstr_addstr_new. by apply strcmp_neq.
      * rewrite domain_matches_created by (done || lia). by apply Hbefore.
Qed.

Lemma domain_held_run (calls : list (string * bool * Q)) :
  ∀ (st : store) (D : string) (ID : Z),
    MAGICBYTE ≠ 0 →
    domain_held st D ID →
    domain_held (domain_run st calls) D ID.
Proof.
  induction calls as [|[[E count] now] calls IH]; intros st D ID Hmagic Hheld.
  - done.
  - cbn [domain_run]. apply IH; [done|]. by apply domain_held_step.
Qed.

(** A lookup of the held name finds the held slot. *)
Lemma domain_held_find_same (st : store) (D : string) (ID : Z) (count : bool)
    (now : Q) :
  domain_held st D ID →
  0 ≤ snd (_findDomainID st D count now) →
  snd (_findDomainID st D count now) = ID.
Proof.
  intros (Hstr & Hid & Hint & Hreach & (d & Hd & Hd_magic & Hd_hash & Hd_name)
          & Hbefore) Hok.
  pose proof (domain_matches_slot st D ID d Hid Hd Hd_hash Hd_name) as Hmatch.
  destruct (findDomainID_cases st D count now)
    as [[Hscan _] | [(_ & _ & Hid' & _) | (Hscan & [d0 Hslot] & Hid' & _)]].
  - apply scan_IDs_Some in Hscan as (Hrange & Hk & Hfirst).
    set (k := snd (_findDomainID st D count now)) in *.
    destruct (Z.lt_trichotomy k ID) as [Hlt | [Heq | Hgt]]; [|done|].
    + rewrite Hbefore in Hk by lia. done.
    + rewrite Hfirst in Hmatch by lia. done.
  - lia.
  - apply getDomain_Some_inv in Hslot as (Hk & _ & _).
    pose proof (next_free_domain_spec st) as Hfree.
    assert (Hin : 0 ≤ ID < Counters.domains (counters st)).
    { destruct Hreach as [? | Hneg]; [lia|].
      destruct Hfree as [(? & _) | [Hk' _]]; lia. }
    eapply scan_IDs_None in Hscan; [|exact Hin]. congruence.
Qed.

(** A lookup of another name does not return the held slot. *)
Lemma domain_held_find_other (st : store) (D E : string) (ID : Z) (count : bool)
    (now : Q) :
  MAGICBYTE ≠ 0 →
  domain_held st D ID →
  E ≠ D →
  snd (_findDomainID st E count now) ≠ ID.
Proof.
  intros Hmagic Hheld HE.
  pose proof Hheld as (Hstr & Hid & Hint & Hreach
                       & (d & Hd & Hd_magic & Hd_hash & Hd_name) & Hbefore).
  destruct (findDomainID_cases st E count now)
    as [[Hscan _] | [(_ & _ & Hid' & _) | (Hscan & Hslot & Hid' & _)]].
  - apply scan_IDs_Some in Hscan as (_ & Hk & _). intros Heq. rewrite Heq in Hk.
    apply domain_matches_true in Hk as (_ & d' & Hd' & _ & Hname).
    rewrite Hd in Hd'. injection Hd' as <-. congruence.
  - lia.
  - rewrite Hid'. by apply (domain_held_create st D E ID).
Qed.

(** X18.  Once a call for [D1] has returned a live slot, after any further
    calls a call for another name does not return that slot, and a call for
    [D1] itself returns it again (whether or not the hashes of the two names
    collide). *)
Theorem domain_IDs_distinct_and_stable (st : store) (D1 D2 : string)
    (count1 count2 : bool) (now1 now2 : Q) (calls : list (string * bool * Q)) :
  let first := _findDomainID st D1 count1 now1 in
  let later := _findDomainID (domain_run (fst first) calls) D2 count2 now2 in
  MAGICBYTE ≠ 0 →
  domain_strings_ok st →
  is_int (Counters.domains (counters st)) →
  is_Some (getDomain (fst first) (snd first) true) →
  0 ≤ snd later →
  (D1 ≠ D2 → snd first ≠ snd later) ∧ (D1 = D2 → snd first = snd later).
Proof.
  intros first later Hmagic Hstr Hint Hlive Hok.
  pose proof (domain_held_after_call st D1 count1 now1 Hstr Hint Hlive) as Hheld.
  apply (domain_held_run calls) in Hheld; [|done].
  split.
  - intros Hne Heq. fold first in Hheld. rewrite Heq in Hheld.
    by apply (domain_held_find_other _ D1 D2 _ count2 now2 Hmagic Hheld).
  - intros <-. symmetry. by apply domain_held_find_same.
Qed.

(** ** Client lookups *)

Lemma getClient_unchecked (st : store) (ID : Z) :
  getClient st ID false = if ID <? 0 then None else clients st !! Z.to_nat ID.
Proof.
  unfold getClient. destruct (ID <? 0); [done|].
  by destruct (clients st !! Z.to_nat ID).
Qed.

Lemma getClient_checked (st : store) (ID : Z) c :
  0 ≤ ID → clients st !! Z.to_nat ID = Some c → Client.magic c = MAGICBYTE →
  getClient st ID true = Some c.
Proof.
  intros HID Hc Hm. unfold getClient.
  rewrite (proj2 (Z.ltb_ge _ _) HID), Hc, Hm, Z.eqb_refl. done.
Qed.

Lemma getClient_Some_inv (st : store) ID checkMagic c :
  getClient st ID checkMagic = Some c →
  0 ≤ ID ∧ clients st !! Z.to_nat ID = Some c
  ∧ (checkMagic = true → Client.magic c = MAGICBYTE).
Proof.
  unfold getClient. destruct (ID <? 0) eqn:Hneg; [done|]. apply Z.ltb_ge in Hneg.
  destruct (clients st !! Z.to_nat ID) as [c'|]; [|done].
  destruct checkMagic; cbn [andb].
  - destruct (Client.magic c' =? MAGICBYTE) eqn:Hm; cbn [negb]; [|done].
    intros [= ->]. apply Z.eqb_eq in Hm. by repeat split.
  - intros [= ->]. by repeat split.
Qed.

(** The scan reads only the key of a slot and the string it refers to. *)
Lemma client_matches_key (st st' : store) (clientIP : string) (j : Z) :
  0 ≤ j →
  client_key <$> clients st' !! Z.to_nat j = client_key <$> clients st !! Z.to_nat j →
  (∀ c, clients st !! Z.to_nat j = Some c →
        getstr st' (Client.ippos c) = getstr st (Client.ippos c)) →
  client_matches st' clientIP j = client_matches st clientIP j.
Proof.
  intros Hj Hkey Hstr. unfold client_matches, getClient.
  rewrite (proj2 (Z.ltb_ge _ _) Hj).
  destruct (clients st' !! Z.to_nat j) as [c'|], (clients st !! Z.to_nat j) as [c|];
    try done.
  injection Hkey as Hm Hp. specialize (Hstr c eq_refl).
  rewrite Hm. cbn [andb]. destruct (negb (Client.magic c =? MAGICBYTE)); [done|].
  by rewrite Hp, Hstr.
Qed.

Lemma client_matches_slot (st : store) (clientIP : string) (k : Z) c :
  0 ≤ k →
  clients st !! Z.to_nat k = Some c →
  Client.magic c = MAGICBYTE →
  getstr st (Client.ippos c) = clientIP →
  client_matches st clientIP k = true.
Proof.
  intros Hk Hc Hm Hname. unfold client_matches.
  rewrite (getClient_checked st k c Hk Hc Hm), Hname, Ascii.eqb_refl.
  cbn [negb]. by apply strcmp_eqb.
Qed.

Lemma next_free_client_spec (st : store) :
  lowest_free_or_count (client_is_free st) (Counters.clients (counters st))
                       (get_next_free_clientID st).
Proof. apply scan_IDs_lowest. Qed.

Lemma overTimeIdx_minus_one : overTimeIdx_in_range (-1) = false.
Proof. done. Qed.

Lemma client_key_add total blocked overTimeIdx overTimeMod withOverTime c :
  client_key (client_add total blocked withOverTime overTimeIdx overTimeMod c)
  = client_key c.
Proof. done. Qed.

(** A counting hit on a client that is not an alias-client: the client is
    counted once, no bucket is touched, and every slot keeps its key. *)
Lemma change_clientcount_hit (st : store) (k : nat) (c : Client.clientsData) :
  clients st !! k = Some c →
  Client.flags_aliasclient c = false →
  Client.aliasclient_id c < 0
  ∨ (Z.to_nat (Client.aliasclient_id c) ≠ k
     ∧ is_Some (getClient st (Client.aliasclient_id c) true)) →
  ∃ st', change_clientcount st k 1 0 (-1) 0 = Some st'
         ∧ strings st' = strings st
         ∧ counters st' = counters st
         ∧ clients st' !! k = Some (client_add 1 0 false (-1) 0 c)
         ∧ ∀ j, j ≠ k → client_key <$> clients st' !! j = client_key <$> clients st !! j.
Proof.
  intros Hc Hflag Halias. unfold change_clientcount.
  rewrite Hc, overTimeIdx_minus_one. cbn [when clients set_clients].
  rewrite list_lookup_alter_eq, Hc. cbn [fmap option_fmap option_map].
  cbn [client_add Client.flags_aliasclient Client.aliasclient_id]. rewrite Hflag.
  destruct Halias as [Hneg | [Hne [ca Hca]]].
  - rewrite (proj2 (Z.ltb_ge _ _)) by lia.
    eexists. split; [reflexivity|]. cbn [strings counters clients set_clients].
    repeat split.
    + by rewrite list_lookup_alter_eq, Hc.
    + intros j Hj. by rewrite list_lookup_alter_ne.
  - apply getClient_Some_inv in Hca as (Ha & Hca & Hmagic).
    specialize (Hmagic eq_refl).
    rewrite (proj2 (Z.ltb_lt _ _)) by lia.
    erewrite getClient_checked; [|done| |exact Hmagic]; last first.
    { cbn [clients set_clients]. by rewrite list_lookup_alter_ne. }
    eexists. split; [reflexivity|]. cbn [strings counters clients set_clients].
    repeat split.
    + rewrite list_lookup_alter_ne by done. by rewrite list_lookup_alter_eq, Hc.
    + intros j Hj. rewrite list_lookup_alter.
      case_decide as Heq.
      * rewrite list_lookup_alter_ne by done. rewrite <- Heq.
        destruct (clients st !! Z.to_nat (Client.aliasclient_id c)); [|done].
        done.
      * by rewrite list_lookup_alter_ne.
Qed.

Lemma strings_after_new_client (st : store) aliasclient clientID :
  strings (after_new_client st aliasclient clientID) = strings st.
Proof.
  unfold after_new_client.
  by destruct (negb (startup st) && negb aliasclient), (negb aliasclient).
Qed.

Lemma clients_after_new_client (st : store) clientID :
  clients (after_new_client st false clientID)
  = alter (λ c, set_aliasclient_id (get_aliasclient_ID (getstr st (Client.ippos c))) c)
          (Z.to_nat clientID) (clients st).
Proof.
  unfold after_new_client. by destruct (negb (startup st) && negb false).
Qed.

(** The first call creates the client and counts it once. *)
Lemma client_counted_first (st : store) (clientIP : string) (n : nat) (now : Z) :
  new_client_ok st clientIP n →
  ∃ st', _findClientID st clientIP true false now
         = Some (st', get_next_free_clientID st)
         ∧ client_counted st clientIP 1 st'.
Proof.
  intros (Hstr & Hscan & [c0 Hslot] & Hint & Hroom & _ & _).
  unfold _findClientID. rewrite Hscan, Hslot. cbn [negb andb addstr].
  eexists. split; [reflexivity|].
  apply getClient_Some_inv in Hslot as (Hk & Hslot & _).
  set (k := get_next_free_clientID st) in *.
  unfold client_counted. fold k.
  rewrite strings_after_new_client, counters_after_new_client,
    clients_after_new_client.
  cbn [strings counters clients set_counters set_clients add_request set_strings
       incr_clients Counters.clients].
  repeat split.
  - apply int_add_exact. unfold is_int, INT_MIN, INT_MAX in *. lia.
  - eexists. split.
    { rewrite list_lookup_alter_eq.
      rewrite list_lookup_insert_eq by (by eapply lookup_lt_Some). reflexivity. }
    cbn [set_aliasclient_id new_client Client.magic Client.count Client.blockedcount
         Client.ippos Client.flags_aliasclient Client.aliasclient_id Client.overTime
         negb andb].
    repeat split. f_equal.
    unfold getstr.
    cbn [strings set_counters set_clients add_request set_strings].
    by rewrite list_lookup_middle.
  - intros j Hj. rewrite list_lookup_alter_ne by done.
    by rewrite list_lookup_insert_ne.
Qed.

(** Each further call finds the client again and counts it once more. *)
Lemma client_counted_step (st0 st : store) (clientIP : string) (n : nat) (i now : Z) :
  new_client_ok st0 clientIP n →
  client_counted st0 clientIP i st →
  0 ≤ i < INT_MAX →
  ∃ st', _findClientID st clientIP true false now
         = Some (st', get_next_free_clientID st0)
         ∧ client_counted st0 clientIP (i + 1) st'.
Proof.
  intros (Hstr & Hscan & [c0 Hslot] & Hint & Hroom & _ & Halias)
         (Hstrings & Hcount & (c & Hc & Hmagic & Hcnt & Hblocked & Hpos & Hflag
                               & Hlink & Htime) & Hkeys) Hi.
  apply getClient_Some_inv in Hslot as (Hk & Hslot & _).
  pose proof (next_free_client_spec st0) as Hfree.
  set (k := get_next_free_clientID st0) in *.
  assert (Hk_le : k ≤ Counters.clients (counters st0))
    by (destruct Hfree as [(? & _) | [-> _]]; lia).
  assert (Hname : getstr st (Client.ippos c) = clientIP).
  { unfold getstr. rewrite Hstrings, Hpos. by rewrite list_lookup_middle. }
  (* the scan finds the client in its slot *)
  assert (Hfound : scan_IDs (Counters.clients (counters st)) (client_matches st clientIP)
                   = Some k).
  { apply scan_IDs_Some. repeat split; [lia..| |].
    - by apply (client_matches_slot st clientIP k c).
    - intros j Hj. rewrite (client_matches_key st0 st) ; [| lia | |].
      + eapply scan_IDs_None in Hscan; [exact Hscan | lia].
      + apply Hkeys. lia.
      + intros cj Hcj. unfold getstr. rewrite Hstrings.
        rewrite lookup_app_l; [done|].
        unfold client_strings_ok in Hstr. rewrite Forall_lookup in Hstr.
        exact (Hstr _ _ Hcj). }
  (* the hit counts it *)
  destruct (change_clientcount_hit st (Z.to_nat k) c Hc Hflag)
    as (st' & Hchange & Hstrings' & Hcounters' & Hc' & Hkeys').
  { rewrite Hlink. destruct Halias as [Hneg | [Hne [ca Hca]]]; [by left | right].
    apply getClient_Some_inv in Hca as (Ha & Hca & Hlive).
    specialize (Hlive eq_refl).
    assert (Hne' : Z.to_nat (get_aliasclient_ID clientIP) ≠ Z.to_nat k)
      by (fold k in Hne; lia).
    split; [done|].
    pose proof (Hkeys _ Hne') as Hkey. rewrite Hca in Hkey.
    destruct (clients st !! Z.to_nat (get_aliasclient_ID clientIP)) as [ca'|] eqn:Hca';
      [|done].
    exists ca'. apply getClient_checked; [done|done|].
    by injection Hkey as -> _. }
  unfold _findClientID. rewrite Hfound. cbn [negb andb]. rewrite Hchange.
  exists st'. split; [done|].
  unfold client_counted. fold k. rewrite Hstrings', Hcounters'.
  repeat split; [done|done| |].
  - eexists. split; [exact Hc'|].
    cbn [client_add Client.magic Client.count Client.blockedcount Client.ippos
         Client.flags_aliasclient Client.aliasclient_id Client.overTime].
    rewrite Hcnt, Hblocked.
    repeat split; try done.
    + apply int_add_exact. unfold INT_MIN, INT_MAX in *. lia.
  - intros j Hj. rewrite Hkeys' by done. by apply Hkeys.
Qed.

Lemma client_counted_run (st0 : store) (clientIP : string) (n : nat) (nows : list Z) :
  ∀ (st : store) (i : Z),
    new_client_ok st0 clientIP n →
    client_counted st0 clientIP i st →
    0 ≤ i → i + Z.of_nat (length nows) ≤ INT_MAX →
    ∃ st', client_run st clientIP nows
           = Some (st', replicate (length nows) (get_next_free_clientID st0))
           ∧ client_counted st0 clientIP (i + Z.of_nat (length nows)) st'.
Proof.
  induction nows as [|now nows IH]; intros st i Hok Hcounted Hi Hmax.
  - exists st. split; [done|]. cbn [length]. by rewrite Z.add_0_r.
  - cbn [length] in Hmax |- *.
    destruct (client_counted_step st0 st clientIP n i now Hok Hcounted)
      as (st1 & Hcall & Hcounted1); [lia|].
    destruct (IH st1 (i + 1) Hok Hcounted1) as (st' & Hrun & Hcounted');
      [lia..|].
    exists st'. cbn [client_run replicate]. rewrite Hcall, Hrun.
    split; [done|].
    by replace (i + Z.of_nat (S (length nows)))
         with (i + 1 + Z.of_nat (length nows)) by lia.
Qed.

(** C6, as the code has it.  After N >= 1 counting calls of the client
    find-or-create for an IP that was new to the store, every call has
    returned the same ID, the client's count is N, and its time series is
    still all zero (the calls pass bucket index -1), so that its sum is 0. *)
Theorem client_count_after_calls (st : store) (clientIP : string) (nows : list Z) :
  nows ≠ [] →
  new_client_ok st clientIP (length nows) →
  ∃ st' c,
    client_run st clientIP nows
    = Some (st', replicate (length nows) (get_next_free_clientID st))
    ∧ getClient st' (get_next_free_clientID st) true = Some c
    ∧ Client.count c = Z.of_nat (length nows)
    ∧ Client.overTime c = replicate (Z.to_nat OVERTIME_SLOTS) 0
    ∧ foldr Z.add 0 (Client.overTime c) = 0.
Proof.
  intros Hne Hok. destruct nows as [|now nows]; [done|]. clear Hne.
  pose proof Hok as (_ & _ & [c0 Hslot] & _ & _ & Hmax & _).
  apply getClient_Some_inv in Hslot as (Hk & _ & _).
  destruct (client_counted_first st clientIP _ now Hok) as (st1 & Hfirst & Hcounted1).
  destruct (client_counted_run st clientIP _ nows st1 1 Hok Hcounted1)
    as (st' & Hrun & Hcounted'); [lia | cbn [length] in Hmax; lia |].
  destruct Hcounted' as (_ & _ & (c & Hc & Hmagic & Hcnt & _ & _ & _ & _ & Htime) & _).
  exists st', c. cbn [client_run length replicate]. rewrite Hfirst, Hrun.
  repeat split; try done.
  - by apply getClient_checked.
  - rewrite Hcnt. lia.
  - rewrite Htime. apply sum_replicate_0.
Qed.

(** ** The stored hashes *)

Lemma domain_hashes_all_ok (st : store) :
  domain_hashes_all st → domain_hashes_ok st.
Proof.
  intros Hall ID d _ Hd. apply getDomain_Some_inv in Hd as (_ & Hd & _).
  unfold domain_hashes_all in Hall. rewrite Forall_lookup in Hall.
  exact (Hall _ _ Hd).
Qed.

Lemma domain_hashes_all_init (capacity : nat) :
  domain_hashes_all (store_init capacity).
Proof.
  unfold domain_hashes_all. cbn [domains store_init].
  apply Forall_replicate. reflexivity.
Qed.

Lemma domain_strings_ok_init (capacity : nat) :
  domain_strings_ok (store_init capacity).
Proof.
  unfold domain_strings_ok. cbn [domains strings store_init length].
  apply Forall_replicate. cbn. lia.
Qed.

(** [_findDomainID] stores the hash of the name it stores. *)
Lemma domain_hashes_all_step (st : store) (E : string) (count : bool) (now : Q) :
  domain_strings_ok st →
  domain_hashes_all st →
  domain_hashes_all (fst (_findDomainID st E count now)).
Proof.
  intros Hstr Hall. unfold domain_hashes_all, domain_strings_ok in *.
  destruct (findDomainID_cases st E count now)
    as [[_ ->] | [(_ & _ & _ & ->) | (_ & _ & _ & ->)]].
  - destruct count; [|done]. cbn [domains set_domains].
    apply Forall_alter; [done|]. by intros d _ Hd.
  - done.
  - cbn [domains set_domains set_counters].
    apply Forall_insert.
    + rewrite Forall_lookup in Hstr, Hall |- *. intros i d Hd.
      cbn [addstr fst domains set_strings] in Hd.
      rewrite (Hall i d Hd). f_equal. symmetry.
      unfold getstr. cbn [strings set_counters set_domains addstr fst set_strings].
      rewrite lookup_app_l; [done|]. exact (Hstr i d Hd).
    + cbn [new_domain Domain.domainhash Domain.domainpos]. f_equal. symmetry.
      unfold getstr. cbn [strings set_counters set_domains addstr fst set_strings].
      by rewrite list_lookup_middle.
Qed.

(** ** More on the status state machine *)

Lemma same_records_refl (st : store) : same_records st st.
Proof. by repeat split. Qed.

Lemma same_records_trans (st st1 st2 : store) :
  same_records st st1 → same_records st1 st2 → same_records st st2.
Proof.
  unfold same_records.
  intros (D1 & C1 & U1 & K1 & S1 & T1 & R1 & L1 & Q1 & CD1 & CC1 & CU1 & CK1)
         (D2 & C2 & U2 & K2 & S2 & T2 & R2 & L2 & Q2 & CD2 & CC2 & CU2 & CK2).
  rewrite D2, C2, U2, K2, S2, T2, R2, L2, Q2, CD2, CC2, CU2, CK2.
  by rewrite D1, C1, U1, K1, S1, T1, R1, L1, Q1, CD1, CC1, CU1, CK1.
Qed.

(** Two stores with the same records, queries, histogram and buckets are
    equal. *)
Lemma store_eq (st st' : store) :
  same_records st st' →
  queries st' = queries st →
  Counters.status (counters st') = Counters.status (counters st) →
  overTime st' = overTime st →
  st' = st.
Proof.
  unfold same_records.
  destruct st as [[] ], st' as [[] ].
  cbn [counters domains clients upstreams dns_cache queries overTime strings
       startup requests log Counters.queries Counters.domains Counters.clients
       Counters.upstreams Counters.dns_cache_size Counters.status].
  intros (-> & -> & -> & -> & -> & -> & -> & -> & -> & -> & -> & -> & ->).
  by intros -> -> ->.
Qed.

Lemma same_records_set_queries (st st1 : store) f :
  same_records st st1 → same_records st (set_queries f st1).
Proof. intros Hsame. exact Hsame. Qed.

Lemma same_records_when_overTime (st st1 : store) (c : bool) f :
  same_records st st1 → same_records st (when c (set_overTime f) st1).
Proof. intros Hsame. destruct c; exact Hsame. Qed.

Lemma same_records_status_add (st st1 : store) s delta :
  same_records st st1 → same_records st (set_counters (status_add s delta) st1).
Proof. intros Hsame. exact Hsame. Qed.

Lemma same_records_when_status_add (st st1 : store) (c : bool) s delta :
  same_records st st1 →
  same_records st (when c (set_counters (status_add s delta)) st1).
Proof. intros Hsame. destruct c; exact Hsame. Qed.

(** What a call that returns has done: nothing, or the full update. *)
Lemma set_status_Some_inv (st st' : store) (i : nat) (new_status : N) (init : bool) :
  _query_set_status st i new_status init = Some st' →
  ∃ q, queries st !! i = Some q
    ∧ ((st' = st
        ∧ ((QUERY_STATUS_MAX ≤ new_status)%N
           ∨ (Query.status q = new_status ∧ init = false)))
       ∨ ((new_status < QUERY_STATUS_MAX)%N
          ∧ (init = true ∨ Query.status q ≠ new_status)
          ∧ queries st' = alter (with_status new_status) i (queries st)
          ∧ Counters.status (counters st')
            = alter (λ n, int_add n 1) (N.to_nat new_status)
                (if init then Counters.status (counters st)
                 else alter (λ n, int_add n (-1)) (N.to_nat (Query.status q))
                            (Counters.status (counters st)))
          ∧ overTime st'
            = alter
                ((if (new_status =? QUERY_FORWARDED)%N then forwarded_add 1 else id)
                 ∘ (if (Query.status q =? QUERY_FORWARDED)%N && negb init
                    then forwarded_add (-1) else id)
                 ∘ (if (new_status =? QUERY_CACHE)%N
                       || (new_status =? QUERY_CACHE_STALE)%N
                    then cached_add 1 else id)
                 ∘ (if ((Query.status q =? QUERY_CACHE)%N
                        || (Query.status q =? QUERY_CACHE_STALE)%N) && negb init
                    then cached_add (-1) else id)
                 ∘ (if is_blocked new_status then blocked_add 1 else id)
                 ∘ (if is_blocked (Query.status q) && negb init
                    then blocked_add (-1) else id))
                (Z.to_nat (getOverTimeID (Query.timestamp q))) (overTime st)
          ∧ same_records st st')).
Proof.
  unfold _query_set_status.
  destruct (queries st !! i) as [q|] eqn:Hq; [|done].
  intros Hrun. exists q. split; [done|].
  destruct (QUERY_STATUS_MAX <=? new_status)%N eqn:Hmax.
  { injection Hrun as <-. left. split; [done|]. left. by apply N.leb_le. }
  apply N.leb_gt in Hmax.
  destruct ((Query.status q =? new_status)%N && negb init) eqn:Hchange.
  { injection Hrun as <-. left. split; [done|]. right.
    apply andb_prop in Hchange as [Hs Hi]. apply N.eqb_eq in Hs.
    by destruct init. }
  cbv zeta in Hrun.
  destruct (negb init && (QUERY_STATUS_MAX <=? Query.status q)%N); [done|].
  destruct (_ && ((_ <? 0) || _)); [done|].
  injection Hrun as <-. right. split; [done|]. split.
  { destruct init; [by left | right].
    rewrite andb_true_r in Hchange. by apply N.eqb_neq. }
  split; [|split; [|split]].
  - cbn [queries set_queries]. rewrite !queries_when_overTime. by destruct init.
  - cbn [counters set_queries]. rewrite !counters_when_overTime. by destruct init.
  - cbn [overTime set_queries]. rewrite !overTime_when, !list_alter_alter_eq.
    by destruct init.
  - apply same_records_set_queries. do 6 apply same_records_when_overTime.
    apply same_records_status_add, same_records_when_status_add.
    apply same_records_refl.
Qed.

(** X1.  Repeating a status assignment as a transition changes nothing: once
    a call with status [s] has returned, a further call with [s] and
    [init = false] returns the store as it is. *)
Theorem set_status_idempotent (st st' : store) (i : nat) (s : N) (init : bool) :
  _query_set_status st i s init = Some st' →
  _query_set_status st' i s false = Some st'.
Proof.
  intros Hrun. destruct (set_status_Some_inv _ _ _ _ _ Hrun)
    as (q & Hq & [[-> Hnoop] | (Hs & _ & Hqueries & _)]).
  - unfold _query_set_status. rewrite Hq.
    destruct Hnoop as [Hmax | [Hsame _]].
    + by rewrite (proj2 (N.leb_le _ _) Hmax).
    + destruct (QUERY_STATUS_MAX <=? s)%N; [done|].
      by rewrite Hsame, N.eqb_refl.
  - unfold _query_set_status.
    rewrite Hqueries, list_lookup_alter_eq, Hq. cbn [fmap option_fmap option_map].
    rewrite (proj2 (N.leb_gt _ _) Hs).
    cbn [with_status Query.status]. by rewrite N.eqb_refl.
Qed.

Lemma bucket_total_unchanged (c1 c2 c3 c4 c5 c6 : bool) (slot : OverTime.overTimeData) :
  OverTime.total
    (((if c6 then forwarded_add 1 else id)
      ∘ (if c5 then forwarded_add (-1) else id)
      ∘ (if c4 then cached_add 1 else id)
      ∘ (if c3 then cached_add (-1) else id)
      ∘ (if c2 then blocked_add 1 else id)
      ∘ (if c1 then blocked_add (-1) else id)) slot)
  = OverTime.total slot.
Proof. by destruct c1, c2, c3, c4, c5, c6. Qed.

(** X2.  A status assignment is confined to its query: the records, the
    per-kind counts, the other queries, the query's own fields other than
    the status, the buckets other than the query's own, the total of every
    bucket and the histogram slots of the statuses not involved are all
    left as they were. *)
Theorem set_status_frame (st st' : store) (i : nat) (q : Query.queriesData)
    (s : N) (init : bool) :
  queries st !! i = Some q →
  _query_set_status st i s init = Some st' →
  same_records st st'
  ∧ (∀ j, j ≠ i → queries st' !! j = queries st !! j)
  ∧ (∃ q', queries st' !! i = Some q'
           ∧ with_status (Query.status q) q' = q)
  ∧ (∀ b, b ≠ Z.to_nat (getOverTimeID (Query.timestamp q)) →
          overTime st' !! b = overTime st !! b)
  ∧ (∀ b, OverTime.total <$> overTime st' !! b = OverTime.total <$> overTime st !! b)
  ∧ (∀ s', s' ≠ s → s' ≠ Query.status q →
           Counters.status (counters st') !! N.to_nat s'
           = Counters.status (counters st) !! N.to_nat s').
Proof.
  intros Hq Hrun. destruct (set_status_Some_inv _ _ _ _ _ Hrun)
    as (q0 & Hq0 & Hcases).
  rewrite Hq in Hq0. injection Hq0 as <-.
  destruct Hcases as [[-> _] | (Hs & _ & Hqueries & Hstatus & HoverTime & Hsame)].
  - repeat split; try done. exists q. split; [done|]. by destruct q.
  - split; [done|]. split; [|split; [|split; [|split]]].
    + intros j Hj. rewrite Hqueries. by rewrite list_lookup_alter_ne.
    + exists (with_status s q). split.
      * by rewrite Hqueries, list_lookup_alter_eq, Hq.
      * by destruct q.
    + intros b Hb. rewrite HoverTime. by rewrite list_lookup_alter_ne.
    + intros b. rewrite HoverTime, list_lookup_alter.
      case_decide as Hb; [subst b|done].
      destruct (overTime st !! _) as [slot|]; [|done].
      cbn [fmap option_fmap option_map]. f_equal. apply bucket_total_unchanged.
    + intros s' Hs' Hold. rewrite Hstatus.
      rewrite list_lookup_alter_ne
        by (intros E; apply N2Nat.inj in E; congruence).
      destruct init; [done|].
      by rewrite list_lookup_alter_ne
        by (intros E; apply N2Nat.inj in E; congruence).
Qed.

Lemma int_add_int_add x a b : int_add (int_add x a) b = int_wrap (x + a + b).
Proof.
  unfold int_add, int_wrap. f_equal.
  replace ((x + a + 2 ^ 31) mod 2 ^ 32 - 2 ^ 31 + b + 2 ^ 31)
    with ((x + a + 2 ^ 31) mod 2 ^ 32 + b) by lia.
  rewrite Zplus_mod_idemp_l. f_equal. lia.
Qed.

Lemma int_add_cancel x a : is_int x → int_add (int_add x a) (- a) = x.
Proof.
  intros Hx. rewrite int_add_int_add.
  replace (x + a + - a) with x by lia. by apply int_wrap_id.
Qed.

Lemma alter_fixed {A} (f : A → A) (l : list A) (i : nat) :
  (∀ x, l !! i = Some x → f x = x) → alter f i l = l.
Proof.
  intros Hf. apply list_eq. intros j. rewrite list_lookup_alter.
  case_decide as Hj; [subst j|done].
  destruct (l !! i) as [x|] eqn:Hx; [|done].
  cbn. by rewrite Hf.
Qed.

(** A bucket after a transition and the transition back. *)
Lemma bucket_there_and_back (c1 c2 c3 c4 c5 c6 : bool) (slot : OverTime.overTimeData) :
  is_int (OverTime.blocked slot) →
  is_int (OverTime.cached slot) →
  is_int (OverTime.forwarded slot) →
  ((if c5 then forwarded_add 1 else id)
   ∘ (if c6 then forwarded_add (-1) else id)
   ∘ (if c3 then cached_add 1 else id)
   ∘ (if c4 then cached_add (-1) else id)
   ∘ (if c1 then blocked_add 1 else id)
   ∘ (if c2 then blocked_add (-1) else id))
    (((if c6 then forwarded_add 1 else id)
      ∘ (if c5 then forwarded_add (-1) else id)
      ∘ (if c4 then cached_add 1 else id)
      ∘ (if c3 then cached_add (-1) else id)
      ∘ (if c2 then blocked_add 1 else id)
      ∘ (if c1 then blocked_add (-1) else id)) slot)
  = slot.
Proof.
  intros Hb Hc Hf. destruct slot as [t b c f].
  cbn [OverTime.blocked OverTime.cached OverTime.forwarded] in Hb, Hc, Hf.
  assert (Hb1 : int_add (int_add b 1) (-1) = b) by exact (int_add_cancel b 1 Hb).
  assert (Hb2 : int_add (int_add b (-1)) 1 = b) by exact (int_add_cancel b (-1) Hb).
  assert (Hc1 : int_add (int_add c 1) (-1) = c) by exact (int_add_cancel c 1 Hc).
  assert (Hc2 : int_add (int_add c (-1)) 1 = c) by exact (int_add_cancel c (-1) Hc).
  assert (Hf1 : int_add (int_add f 1) (-1) = f) by exact (int_add_cancel f 1 Hf).
  assert (Hf2 : int_add (int_add f (-1)) 1 = f) by exact (int_add_cancel f (-1) Hf).
  destruct c1, c2, c3, c4, c5, c6;
    cbv [compose id forwarded_add cached_add blocked_add
         OverTime.total OverTime.blocked OverTime.cached OverTime.forwarded];
    rewrite ?Hb1, ?Hb2, ?Hc1, ?Hc2, ?Hf1, ?Hf2; reflexivity.
Qed.

(** X3.  A transition and the transition back restore the store: when the
    counters are [int]s, changing a query's status and then changing it back
    to what it was leaves the store exactly as before. *)
Theorem set_status_there_and_back (st st1 st2 : store) (i : nat)
    (q : Query.queriesData) (new_status : N) :
  queries st !! i = Some q →
  counters_are_ints st →
  _query_set_status st i new_status false = Some st1 →
  _query_set_status st1 i (Query.status q) false = Some st2 →
  st2 = st.
Proof.
  intros Hq [Hints Hbuckets] Hrun1 Hrun2.
  destruct (set_status_Some_inv _ _ _ _ _ Hrun1) as (q0 & Hq0 & Hcases1).
  rewrite Hq in Hq0. injection Hq0 as <-.
  destruct Hcases1 as [[-> _] | (Hnew & Hne & Hqueries1 & Hstatus1 & HoverTime1 & Hsame1)].
  { destruct (set_status_Some_inv _ _ _ _ _ Hrun2) as (q0 & Hq0 & Hcases2).
    rewrite Hq in Hq0. injection Hq0 as <-.
    destruct Hcases2 as [[-> _] | (_ & [? | ?] & _)]; done. }
  destruct Hne as [? | Hne]; [done|].
  destruct (set_status_Some_inv _ _ _ _ _ Hrun2) as (q1 & Hq1 & Hcases2).
  rewrite Hqueries1, list_lookup_alter_eq, Hq in Hq1. injection Hq1 as <-.
  cbn [with_status Query.status Query.timestamp] in Hcases2.
  destruct Hcases2 as [[_ [Hmax | [? _]]] | (Hold & _ & Hqueries2 & Hstatus2 & HoverTime2
                                              & Hsame2)]; [|done|].
  { (* the first call would have failed on an old status out of range *)
    unfold _query_set_status in Hrun1. rewrite Hq in Hrun1.
    rewrite (proj2 (N.leb_gt _ _) Hnew) in Hrun1.
    rewrite (proj2 (N.eqb_neq _ _) Hne) in Hrun1. cbn [andb negb] in Hrun1.
    by rewrite (proj2 (N.leb_le _ _) Hmax) in Hrun1. }
  (* the three arrays are back to what they were *)
  assert (Eq : queries st2 = queries st).
  { rewrite Hqueries2, Hqueries1, list_alter_alter_eq. apply alter_fixed.
    intros x Hx. rewrite Hq in Hx. injection Hx as <-. by destruct q. }
  assert (Es : Counters.status (counters st2) = Counters.status (counters st)).
  { rewrite Hstatus2, Hstatus1. apply list_eq. intros k.
    rewrite Forall_lookup in Hints.
    destruct (decide (k = N.to_nat (Query.status q))) as [-> | Hk1].
    - rewrite list_lookup_alter_eq.
      rewrite list_lookup_alter_ne
        by (intros E; apply N2Nat.inj in E; congruence).
      rewrite list_lookup_alter_ne
        by (intros E; apply N2Nat.inj in E; congruence).
      rewrite list_lookup_alter_eq.
      destruct (Counters.status (counters st) !! _) as [x|] eqn:Hx; [|done].
      cbn. f_equal. apply (int_add_cancel x (-1)). by eapply Hints.
    - rewrite list_lookup_alter_ne by done.
      destruct (decide (k = N.to_nat new_status)) as [-> | Hk2].
      + rewrite list_lookup_alter_eq, list_lookup_alter_eq.
        rewrite list_lookup_alter_ne by done.
        destruct (Counters.status (counters st) !! _) as [x|] eqn:Hx; [|done].
        cbn. f_equal. apply (int_add_cancel x 1). by eapply Hints.
      + by rewrite !list_lookup_alter_ne by done. }
  assert (Eo : overTime st2 = overTime st).
  { rewrite HoverTime2, HoverTime1, list_alter_alter_eq. apply alter_fixed.
    intros slot Hslot. rewrite Forall_lookup in Hbuckets.
    destruct (Hbuckets _ _ Hslot) as (Hb & Hc & Hf).
    rewrite !andb_true_r.
    by apply (bucket_there_and_back
                (is_blocked (Query.status q)) (is_blocked new_status)
                ((Query.status q =? QUERY_CACHE)%N || (Query.status q =? QUERY_CACHE_STALE)%N)
                ((new_status =? QUERY_CACHE)%N || (new_status =? QUERY_CACHE_STALE)%N)
                (Query.status q =? QUERY_FORWARDED)%N (new_status =? QUERY_FORWARDED)%N). }
  apply store_eq; [|done..]. by apply same_records_trans with st1.
Qed.

(** ** The aggregate counts *)

Lemma status_count_inv (st : store) (s : N) :
  status_inv st → (s < QUERY_STATUS_MAX)%N →
  status_count st s = count_queries (λ q, (Query.status q =? s)%N) (queries st).
Proof. intros (Hhist & _) Hs. unfold status_count. by rewrite Hhist. Qed.

Lemma count_blocked_by_status (qs : list Query.queriesData) :
  let c := λ s : N, count_queries (λ q, (Query.status q =? s)%N) qs in
  count_queries (λ q, is_blocked (Query.status q)) qs
  = c 1%N + c 4%N + c 5%N + c 6%N + c 7%N + c 8%N + c 9%N + c 10%N + c 11%N
    + c 15%N + c 16%N.
Proof.
  cbv zeta. induction qs as [|q qs IH]; cbn [count_queries]; [done|].
  rewrite IH. destruct (Query.status q) as [|p]; [cbn; lia|].
  do 5 (try destruct p as [p|p|]); cbn; lia.
Qed.

Lemma count_cached_by_status (qs : list Query.queriesData) :
  let c := λ s : N, count_queries (λ q, (Query.status q =? s)%N) qs in
  count_queries (λ q, is_cached (Query.status q)) qs = c 3%N + c 17%N.
Proof.
  cbv zeta. induction qs as [|q qs IH]; cbn [count_queries]; [done|].
  rewrite IH. destruct (Query.status q) as [|p]; [cbn; lia|].
  do 5 (try destruct p as [p|p|]); cbn; lia.
Qed.

Lemma count_forwarded_by_status (qs : list Query.queriesData) :
  let c := λ s : N, count_queries (λ q, (Query.status q =? s)%N) qs in
  count_queries (λ q, is_forwarded_or_retried (Query.status q)) qs
  = c 2%N + c 12%N + c 13%N.
Proof.
  cbv zeta. induction qs as [|q qs IH]; cbn [count_queries]; [done|].
  rewrite IH. destruct (Query.status q) as [|p]; [cbn; lia|].
  do 5 (try destruct p as [p|p|]); cbn; lia.
Qed.

(** In a consistent store whose queries fit an [int], the three getters
    return the numbers of blocked, cached and forwarded-or-retried
    queries. *)
Lemma get_blocked_count_eq (st : store) :
  get_blocked_count st
  = let c := status_count st in
    int_add (int_add (int_add (int_add (int_add (int_add (int_add (int_add
      (int_add (int_add (int_add 0 (c 1%N)) (c 4%N)) (c 5%N)) (c 6%N)) (c 7%N))
      (c 8%N)) (c 9%N)) (c 10%N)) (c 11%N)) (c 15%N)) (c 16%N).
Proof. reflexivity. Qed.

Lemma aggregate_counts_inv (st : store) :
  status_inv st →
  Z.of_nat (length (queries st)) ≤ INT_MAX →
  get_blocked_count st = count_queries (λ q, is_blocked (Query.status q)) (queries st)
  ∧ get_cached_count st = count_queries (λ q, is_cached (Query.status q)) (queries st)
  ∧ get_forwarded_count st
    = count_queries (λ q, is_forwarded_or_retried (Query.status q)) (queries st).
Proof.
  intros Hinv Hmax.
  pose proof (count_queries_bounds (λ q, is_blocked (Query.status q)) (queries st)) as Bb.
  pose proof (count_queries_bounds (λ q, is_cached (Query.status q)) (queries st)) as Bc.
  pose proof (count_queries_bounds (λ q, is_forwarded_or_retried (Query.status q))
                (queries st)) as Bf.
  rewrite count_blocked_by_status in Bb |- *.
  rewrite count_cached_by_status in Bc |- *.
  rewrite count_forwarded_by_status in Bf |- *.
  rewrite get_blocked_count_eq.
  unfold get_cached_count, get_forwarded_count.
  cbv zeta in *.
  rewrite !(status_count_inv st) by (exact Hinv || reflexivity).
  assert (Hpos : ∀ s, 0 ≤ count_queries (λ q, (Query.status q =? s)%N) (queries st))
    by (intros s; apply count_queries_bounds).
  pose proof (Hpos 1%N). pose proof (Hpos 2%N). pose proof (Hpos 3%N).
  pose proof (Hpos 4%N). pose proof (Hpos 5%N). pose proof (Hpos 6%N).
  pose proof (Hpos 7%N). pose proof (Hpos 8%N). pose proof (Hpos 9%N).
  pose proof (Hpos 10%N). pose proof (Hpos 11%N). pose proof (Hpos 12%N).
  pose proof (Hpos 13%N). pose proof (Hpos 15%N). pose proof (Hpos 16%N).
  pose proof (Hpos 17%N). clear Hpos.
  unfold INT_MAX in Hmax.
  repeat match goal with
         | |- context [int_add ?a ?b] =>
             lazymatch a with
             | context [int_add _ _] => fail
             | _ => rewrite (int_add_exact a b) by (unfold INT_MIN, INT_MAX; lia)
             end
         end.
  split; [lia|]. split; lia.
Qed.

(** X4.  After any run of status assignments from the zeroed store,
    [get_blocked_count], [get_cached_count] and [get_forwarded_count] return
    the numbers of live queries whose status is blocked, cached, and
    forwarded or retried. *)
Theorem aggregate_counts_after_run (capacity : nat) (calls : list status_call) :
  env_buckets_ok →
  status_calls_ok 0 calls →
  Z.of_nat (initial_assignments calls) ≤ INT_MAX →
  ∃ st', status_run (store_init capacity) calls = Some st'
         ∧ get_blocked_count st'
           = count_queries (λ q, is_blocked (Query.status q)) (queries st')
         ∧ get_cached_count st'
           = count_queries (λ q, is_cached (Query.status q)) (queries st')
         ∧ get_forwarded_count st'
           = count_queries (λ q, is_forwarded_or_retried (Query.status q))
                           (queries st').
Proof.
  intros Henv Hok Hmax.
  destruct (status_run_inv calls (store_init capacity) Henv
              (store_init_status_inv capacity Henv) Hok)
    as (st' & Hrun & Hinv & Hlen); [done|].
  exists st'. split; [done|]. apply aggregate_counts_inv; [done|].
  rewrite Hlen. cbn [queries store_init length]. lia.
Qed.

Lemma sum_by_index {A} (g : A → Z) (f : nat → Z) (l : list A) (k : nat) :
  (∀ b x, l !! b = Some x → g x = f (k + b)%nat) →
  foldr (λ x acc, g x + acc) 0 l
  = foldr (λ b acc, f b + acc) 0 (seq k (length l)).
Proof.
  revert k. induction l as [|x l IH]; intros k Hg; [done|].
  cbn [foldr length seq]. rewrite (Hg 0%nat x eq_refl), Nat.add_0_r.
  f_equal. apply IH. intros b y Hb.
  rewrite (Hg (S b) y Hb). f_equal. lia.
Qed.

Lemma sum_indicator (t : Z) (k n : nat) :
  Z.of_nat k ≤ t < Z.of_nat (k + n) →
  foldr (λ b acc, (if t =? Z.of_nat b then 1 else 0) + acc) 0 (seq k n) = 1.
Proof.
  revert k. induction n as [|n IH]; intros k Ht; [lia|].
  cbn [seq foldr]. destruct (Z.eqb_spec t (Z.of_nat k)) as [-> | Hne].
  - assert (Hzero : ∀ m j, (k < j)%nat →
              foldr (λ b acc, (if Z.of_nat k =? Z.of_nat b then 1 else 0) + acc) 0
                    (seq j m) = 0).
    { induction m as [|m IHm]; intros j Hj; [done|].
      cbn [seq foldr]. rewrite IHm by lia.
      destruct (Z.eqb_spec (Z.of_nat k) (Z.of_nat j)); lia. }
    rewrite Hzero by lia. lia.
  - rewrite IH by lia. lia.
Qed.

Lemma sum_zero (k n : nat) : foldr (λ (b : nat) acc, 0 + acc) 0 (seq k n) = 0.
Proof. revert k. induction n as [|n IH]; intros k; [done|]. cbn. apply IH. Qed.

Lemma sum_plus (f g : nat → Z) (l : list nat) :
  foldr (λ b acc, (f b + g b) + acc) 0 l
  = foldr (λ b acc, f b + acc) 0 l + foldr (λ b acc, g b + acc) 0 l.
Proof. induction l as [|b l IH]; cbn [foldr]; [done|]. rewrite IH. lia. Qed.

(** Every query lies in exactly one bucket. *)
Lemma count_over_buckets (p : Query.queriesData → bool) (qs : list Query.queriesData)
    (n : nat) :
  (∀ t : Q, 0 ≤ getOverTimeID t < Z.of_nat n) →
  foldr (λ b acc, count_queries (λ q, in_bucket b q && p q) qs + acc) 0 (seq 0 n)
  = count_queries p qs.
Proof.
  intros Hrange. induction qs as [|q qs IH]; cbn [count_queries].
  - apply sum_zero.
  - rewrite sum_plus, IH. f_equal.
    destruct (p q).
    + erewrite foldr_ext; [apply (sum_indicator (getOverTimeID (Query.timestamp q)) 0 n)
                          | | done | done].
      * pose proof (Hrange (Query.timestamp q)). lia.
      * intros b acc. unfold in_bucket. rewrite andb_true_r. done.
    + erewrite foldr_ext; [apply (sum_zero 0 n) | | done | done].
      intros b acc. by rewrite andb_false_r.
Qed.

Lemma bucket_sums_inv (st : store) :
  env_buckets_ok →
  status_inv st →
  bucket_sum OverTime.blocked st
  = count_queries (λ q, is_blocked (Query.status q)) (queries st)
  ∧ bucket_sum OverTime.cached st
    = count_queries (λ q, is_cached (Query.status q)) (queries st)
  ∧ bucket_sum OverTime.forwarded st
    = count_queries (λ q, (Query.status q =? QUERY_FORWARDED)%N) (queries st).
Proof.
  intros Henv (_ & _ & Hslots & _ & Hbuckets).
  assert (Hrange : ∀ t : Q, 0 ≤ getOverTimeID t < Z.of_nat (length (overTime st)))
    by (intros t; rewrite Hslots; apply Henv).
  unfold bucket_sum. repeat split.
  - rewrite <- (count_over_buckets _ _ _ Hrange).
    apply (sum_by_index _ _ _ 0). intros b slot Hb. by apply Hbuckets.
  - rewrite <- (count_over_buckets _ _ _ Hrange).
    apply (sum_by_index _ _ _ 0). intros b slot Hb. by apply Hbuckets.
  - rewrite <- (count_over_buckets _ _ _ Hrange).
    apply (sum_by_index _ _ _ 0). intros b slot Hb. by apply Hbuckets.
Qed.

(** X5.  After any run of status assignments from the zeroed store, the
    blocked and cached counts summed over all time buckets are what
    [get_blocked_count] and [get_cached_count] return, and the forwarded
    counts sum to the histogram slot of FORWARDED alone, which
    [get_forwarded_count] exceeds by the retried queries. *)
Theorem bucket_sums_match_aggregates (capacity : nat) (calls : list status_call) :
  env_buckets_ok →
  status_calls_ok 0 calls →
  Z.of_nat (initial_assignments calls) ≤ INT_MAX →
  ∃ st', status_run (store_init capacity) calls = Some st'
         ∧ bucket_sum OverTime.blocked st' = get_blocked_count st'
         ∧ bucket_sum OverTime.cached st' = get_cached_count st'
         ∧ bucket_sum OverTime.forwarded st' = status_count st' QUERY_FORWARDED
         ∧ get_forwarded_count st'
           = bucket_sum OverTime.forwarded st'
             + status_count st' QUERY_RETRIED + status_count st' QUERY_RETRIED_DNSSEC.
Proof.
  intros Henv Hok Hmax.
  destruct (status_run_inv calls (store_init capacity) Henv
              (store_init_status_inv capacity Henv) Hok)
    as (st' & Hrun & Hinv & Hlen); [done|].
  assert (Hfit : Z.of_nat (length (queries st')) ≤ INT_MAX)
    by (rewrite Hlen; cbn [queries store_init length]; lia).
  destruct (aggregate_counts_inv st' Hinv Hfit) as (Hb & Hc & Hf).
  destruct (bucket_sums_inv st' Henv Hinv) as (Sb & Sc & Sf).
  exists st'. split; [done|].
  rewrite Hb, Hc, Hf, Sb, Sc, Sf.
  rewrite !(status_count_inv st') by (done || lia).
  repeat split. apply count_forwarded_by_status.
Qed.

(** ** More on client deltas *)

Lemma same_outside_own_record (st : store) (c : bool) f g :
  same_outside_clients st (set_clients g (when c (set_overTime f) st)).
Proof. unfold same_outside_clients. by destruct c. Qed.

Lemma same_outside_set_clients (st st1 : store) g :
  same_outside_clients st st1 → same_outside_clients st (set_clients g st1).
Proof. intros Hsame. exact Hsame. Qed.

(** X6.  Fan-out.  For a client that is not itself an alias-client: without
    a link only its own record (and, for a bucket index in range, the global
    bucket total) changes; with a link to a live alias-client other than
    itself the same deltas are also added to the alias-client's count,
    blocked count and time-series slot, while the global bucket total is
    still raised only once.  Nothing is logged, no other client changes,
    and the rest of the store (the counters, the other record arrays, the
    queries, the string pool, the requests) is left as it was. *)
Theorem change_clientcount_fan_out (st : store) (client : nat)
    (c : Client.clientsData) (total blocked overTimeIdx overTimeMod : Z) :
  clients st !! client = Some c →
  Client.flags_aliasclient c = false →
  let a := Client.aliasclient_id c in
  let delta := client_add total blocked (overTimeIdx_in_range overTimeIdx)
                          overTimeIdx overTimeMod in
  let buckets := if overTimeIdx_in_range overTimeIdx
                 then alter (overTime_add_total overTimeMod) (Z.to_nat overTimeIdx)
                            (overTime st)
                 else overTime st in
  (a < 0 →
   ∃ st', change_clientcount st client total blocked overTimeIdx overTimeMod = Some st'
          ∧ clients st' = alter delta client (clients st)
          ∧ overTime st' = buckets ∧ log st' = log st
          ∧ same_outside_clients st st')
  ∧ (∀ ca, 0 ≤ a → Z.to_nat a ≠ client → getClient st a true = Some ca →
     ∃ st', change_clientcount st client total blocked overTimeIdx overTimeMod = Some st'
            ∧ clients st' !! client = Some (delta c)
            ∧ clients st' !! Z.to_nat a = Some (delta ca)
            ∧ (∀ j, j ≠ client → j ≠ Z.to_nat a → clients st' !! j = clients st !! j)
            ∧ length (clients st') = length (clients st)
            ∧ overTime st' = buckets ∧ log st' = log st
            ∧ same_outside_clients st st').
Proof.
  intros Hc Hflag a delta buckets.
  set (inrange := overTimeIdx_in_range overTimeIdx) in *.
  assert (Hstart :
            change_clientcount st client total blocked overTimeIdx overTimeMod
            = (let st := set_clients (alter delta client)
                           (when inrange
                              (set_overTime (alter (overTime_add_total overTimeMod)
                                                   (Z.to_nat overTimeIdx))) st) in
               if -1 <? a
               then match getClient st a true with
                    | None => None
                    | Some _ => Some (set_clients (alter delta (Z.to_nat a)) st)
                    end
               else Some st)).
  { unfold change_clientcount. rewrite Hc. fold inrange. cbv zeta.
    cbn [clients set_clients]. rewrite list_lookup_alter_eq.
    replace (clients (when inrange _ st)) with (clients st) by (by destruct inrange).
    rewrite Hc. cbn [fmap option_fmap option_map].
    cbn [client_add Client.flags_aliasclient Client.aliasclient_id].
    by rewrite Hflag. }
  rewrite Hstart. clear Hstart. cbv zeta.
  split.
  - intros Ha. rewrite (proj2 (Z.ltb_ge _ _)) by lia.
    eexists. split; [reflexivity|].
    split; [|split; [|split]]; [| | |apply same_outside_own_record].
    all: cbn [clients set_clients overTime log]; subst buckets; by destruct inrange.
  - intros ca Ha Hne Hca. rewrite (proj2 (Z.ltb_lt _ _)) by lia.
    apply getClient_Some_inv in Hca as (_ & Hca & Hmagic).
    specialize (Hmagic eq_refl).
    assert (Hcl : clients (when inrange
                     (set_overTime (alter (overTime_add_total overTimeMod)
                                          (Z.to_nat overTimeIdx))) st) = clients st)
      by (by destruct inrange).
    erewrite getClient_checked; [|lia| |exact Hmagic]; last first.
    { cbn [clients set_clients]. rewrite list_lookup_alter_ne by done.
      by rewrite Hcl. }
    eexists. split; [reflexivity|].
    split; [|split; [|split; [|split; [|split; [|split]]]]];
      [| | | | | |apply same_outside_set_clients, same_outside_own_record].
    all: cbn [clients set_clients overTime log]; rewrite ?Hcl.
    + rewrite list_lookup_alter_ne by done. by rewrite list_lookup_alter_eq, Hc.
    + rewrite list_lookup_alter_eq. rewrite list_lookup_alter_ne by done.
      by rewrite Hca.
    + intros j Hj Hja. by rewrite !list_lookup_alter_ne by done.
    + by rewrite !length_alter.
    + subst buckets. by destruct inrange.
    + by destruct inrange.
Qed.

(** ** The resolvers at their edges *)

(** X7.  No slot left.  When the key is not found, no slot below the count
    is free and the count has reached the number of allocated slots, each of
    the four resolvers returns -1, logs one memory error and changes nothing
    else (upstreams never look for a free slot). *)
Theorem resolvers_out_of_slots (st : store) :
  (∀ domainString count now,
     scan_IDs (Counters.domains (counters st))
              (domain_matches st (hashStr domainString) domainString) = None →
     (∀ j, 0 ≤ j < Counters.domains (counters st) → domain_is_free st j = false) →
     Z.of_nat (length (domains st)) ≤ Counters.domains (counters st) →
     _findDomainID st domainString count now
     = (add_log (Err_memory "findDomainID") st, -1))
  ∧ (∀ clientIP count aliasclient now,
       count || aliasclient = true →
       scan_IDs (Counters.clients (counters st)) (client_matches st clientIP) = None →
       (∀ j, 0 ≤ j < Counters.clients (counters st) → client_is_free st j = false) →
       Z.of_nat (length (clients st)) ≤ Counters.clients (counters st) →
       _findClientID st clientIP count aliasclient now
       = Some (add_log (Err_memory "findClientID") st, -1))
  ∧ (∀ upstreamString port,
       scan_IDs (Counters.upstreams (counters st))
                (upstream_matches st upstreamString port) = None →
       Z.of_nat (length (upstreams st)) ≤ Counters.upstreams (counters st) →
       _findUpstreamID st upstreamString port
       = (add_log (Err_memory "findupstreamID") st, -1))
  ∧ (∀ domainID clientID query_type,
       scan_IDs (Counters.dns_cache_size (counters st))
                (cache_matches st domainID clientID query_type) = None →
       (∀ j, 0 ≤ j < Counters.dns_cache_size (counters st) → cache_is_free st j = false) →
       Z.of_nat (length (dns_cache st)) ≤ Counters.dns_cache_size (counters st) →
       _findCacheID st domainID clientID query_type true
       = (add_log (Err_memory "findCacheID") st, -1)).
Proof.
  repeat apply conj.
  - intros domainString count now Hmiss Hfull Hcap.
    unfold _findDomainID, get_next_free_domainID. rewrite Hmiss.
    rewrite (proj2 (scan_IDs_None _ _) Hfull).
    unfold getDomain. destruct (_ <? 0); [done|].
    by rewrite lookup_ge_None_2 by lia.
  - intros clientIP count aliasclient now Hflags Hmiss Hfull Hcap.
    unfold _findClientID, get_next_free_clientID. rewrite Hmiss.
    rewrite (proj2 (scan_IDs_None _ _) Hfull).
    assert (negb count && negb aliasclient = false) as ->
      by (by destruct count, aliasclient).
    unfold getClient. destruct (_ <? 0); [done|].
    by rewrite lookup_ge_None_2 by lia.
  - intros upstreamString port Hmiss Hcap.
    unfold _findUpstreamID. rewrite Hmiss.
    unfold getUpstream. destruct (_ <? 0); [done|].
    by rewrite lookup_ge_None_2 by lia.
  - intros domainID clientID query_type Hmiss Hfull Hcap.
    unfold _findCacheID, get_next_free_cacheID. rewrite Hmiss.
    rewrite (proj2 (scan_IDs_None _ _) Hfull). cbn [negb].
    unfold getDNSCache. destruct (_ <? 0); [done|].
    by rewrite lookup_ge_None_2 by lia.
Qed.

(** ** Looking a client up without counting *)

Lemma client_matches_true (st : store) (clientIP : string) (j : Z) :
  client_matches st clientIP j = true ↔
  ∃ c, getClient st j true = Some c ∧ getstr st (Client.ippos c) = clientIP.
Proof.
  unfold client_matches. destruct (getClient st j true) as [c|]; cycle 1.
  { split; [done | by intros (c & ? & _)]. }
  split.
  - destruct (negb _); [done|]. intros Heq%strcmp_eqb. by exists c.
  - intros (c' & [= <-] & Hname). rewrite Hname, Ascii.eqb_refl. cbn [negb].
    by apply strcmp_eqb.
Qed.

(** X8.  A lookup with [count = false] and [aliasclient = false] never
    changes the store and never fails.  It returns the lowest ID below the
    client count whose live record has this address, and -1 exactly when no
    live record below the count has it. *)
Theorem client_lookup_only (st : store) (clientIP : string) (now : Z) :
  ∃ ID,
    _findClientID st clientIP false false now = Some (st, ID)
    ∧ ((ID = -1
        ∧ ∀ j c, 0 ≤ j < Counters.clients (counters st) →
                 getClient st j true = Some c →
                 getstr st (Client.ippos c) ≠ clientIP)
       ∨ (0 ≤ ID < Counters.clients (counters st)
          ∧ (∃ c, getClient st ID true = Some c
                  ∧ getstr st (Client.ippos c) = clientIP)
          ∧ ∀ j c, 0 ≤ j < ID →
                   getClient st j true = Some c →
                   getstr st (Client.ippos c) ≠ clientIP)).
Proof.
  unfold _findClientID. cbn [andb negb].
  destruct (scan_IDs _ _) as [ID|] eqn:Hscan.
  - exists ID. split; [done|]. right.
    apply scan_IDs_Some in Hscan as (Hrange & Hhit & Hlow).
    split; [done|]. split; [by apply client_matches_true|].
    intros j c Hj Hc Hname. specialize (Hlow j Hj).
    assert (client_matches st clientIP j = true) as Hm
      by (apply client_matches_true; by exists c).
    congruence.
  - exists (-1). split; [done|]. left. split; [done|].
    intros j c Hj Hc Hname.
    assert (client_matches st clientIP j = false) as Hno
      by (by eapply scan_IDs_None in Hscan).
    assert (client_matches st clientIP j = true) as Hm
      by (apply client_matches_true; by exists c).
    congruence.
Qed.

(** ** Upstreams: a second lookup *)

Lemma getUpstream_unchecked (st : store) (ID : Z) :
  getUpstream st ID false = if ID <? 0 then None else upstreams st !! Z.to_nat ID.
Proof.
  unfold getUpstream. destruct (ID <? 0); [done|].
  by destruct (upstreams st !! Z.to_nat ID).
Qed.

Lemma upstream_matches_true (st : store) (upstreamString : string) (port j : Z) :
  upstream_matches st upstreamString port j = true ↔
  ∃ u, getUpstream st j false = Some u
       ∧ getstr st (Upstream.ippos u) = upstreamString
       ∧ Upstream.port u = port.
Proof.
  unfold upstream_matches. destruct (getUpstream st j false) as [u|]; cycle 1.
  { split; [done | by intros (u & ? & _)]. }
  rewrite andb_true_iff, strcmp_eqb, Z.eqb_eq. split.
  - intros [Hname Hport]. by exists u.
  - by intros (u' & [= <-] & Hname & Hport).
Qed.

(** X9.  After a call of [_findUpstreamID] that returned an ID, the same
    call returns the same ID and changes nothing, and the slot at that ID
    holds the address and the port.  The string offsets of the slots must
    have been handed out by the pool, which the call preserves, and the
    upstream count must have room to grow. *)
Theorem upstream_found_again (st st' : store) (upstreamString : string)
    (port ID : Z) :
  upstream_strings_ok st →
  Counters.upstreams (counters st) < INT_MAX →
  _findUpstreamID st upstreamString port = (st', ID) →
  0 ≤ ID →
  _findUpstreamID st' upstreamString port = (st', ID)
  ∧ upstream_strings_ok st'
  ∧ ∃ u, getUpstream st' ID false = Some u
         ∧ getstr st' (Upstream.ippos u) = upstreamString
         ∧ Upstream.port u = port.
Proof.
  intros Hpool Hroom Hcall HID. unfold _findUpstreamID in Hcall.
  destruct (scan_IDs _ _) as [r|] eqn:Hscan.
  - injection Hcall as <- <-. unfold _findUpstreamID. rewrite Hscan.
    split; [done|]. split; [done|].
    apply scan_IDs_Some in Hscan as (_ & Hhit & _).
    by apply upstream_matches_true.
  - set (n := Counters.upstreams (counters st)) in *.
    destruct (getUpstream st n false) as [old|] eqn:Hslot;
      [|injection Hcall as <- <-; lia].
    cbn [addstr] in Hcall. injection Hcall as <- <-.
    rewrite getUpstream_unchecked in Hslot.
    destruct (n <? 0) eqn:Hn; [done|]. apply Z.ltb_ge in Hn.
    pose proof (lookup_lt_Some _ _ _ Hslot) as Hlen.
    set (u := {| Upstream.magic := MAGICBYTE; Upstream.ippos := length (strings st);
                 Upstream.failed := 0; Upstream.flags_new := true;
                 Upstream.namepos := 0%nat; Upstream.rtime := 0%Q;
                 Upstream.rtuncertainty := 0%Q; Upstream.responses := 0;
                 Upstream.lastQuery := 0%Q; Upstream.port := port |}).
    set (st' := set_counters _ _).
    assert (Hups : upstreams st' = <[Z.to_nat n := u]> (upstreams st)) by done.
    assert (Hstr : strings st' = (strings st ++ [upstreamString])%list) by done.
    assert (Hcnt : Counters.upstreams (counters st') = n + 1).
    { cbn. fold n. apply int_add_exact. unfold INT_MIN, INT_MAX in *. lia. }
    assert (Hnew : getUpstream st' n false = Some u).
    { rewrite getUpstream_unchecked, (proj2 (Z.ltb_ge _ _) Hn), Hups.
      by apply list_lookup_insert_eq. }
    assert (Hname : getstr st' (Upstream.ippos u) = upstreamString).
    { unfold getstr. rewrite Hstr. cbn [Upstream.ippos u].
      by rewrite list_lookup_middle. }
    assert (Hold : ∀ j, 0 ≤ j < n →
              upstream_matches st' upstreamString port j = false).
    { intros j Hj.
      assert (upstream_matches st upstreamString port j = false) as Hno
        by (by eapply scan_IDs_None in Hscan).
      rewrite <- Hno. unfold upstream_matches.
      rewrite !getUpstream_unchecked, Hups.
      rewrite list_lookup_insert_ne by lia.
      destruct (j <? 0); [done|].
      destruct (upstreams st !! Z.to_nat j) as [v|] eqn:Hv; [|done].
      assert (Upstream.ippos v < length (strings st))%nat as Hpos.
      { unfold upstream_strings_ok in Hpool. rewrite Forall_lookup in Hpool.
        exact (Hpool _ _ Hv). }
      unfold getstr. rewrite Hstr. by rewrite lookup_app_l. }
    split; [|split].
    + unfold _findUpstreamID.
      assert (scan_IDs (Counters.upstreams (counters st'))
                       (upstream_matches st' upstreamString port) = Some n) as ->;
        [|done].
      apply scan_IDs_Some. split; [lia|]. split; [|done].
      apply upstream_matches_true. by exists u.
    + unfold upstream_strings_ok. rewrite Hups, Hstr.
      rewrite length_app. cbn [length].
      apply Forall_insert.
      * eapply Forall_impl; [exact Hpool|]. intros v Hv. cbn in *. lia.
      * cbn. lia.
    + by exists u.
Qed.

(** ** Cache entries: lookups after a creation *)

Lemma getDNSCache_unchecked (st : store) (ID : Z) :
  getDNSCache st ID false = if ID <? 0 then None else dns_cache st !! Z.to_nat ID.
Proof.
  unfold getDNSCache. destruct (ID <? 0); [done|].
  by destruct (dns_cache st !! Z.to_nat ID).
Qed.

Lemma getDNSCache_checked (st : store) (ID : Z) e :
  getDNSCache st ID true = Some e ↔
  0 ≤ ID ∧ dns_cache st !! Z.to_nat ID = Some e ∧ Cache.magic e = MAGICBYTE.
Proof.
  unfold getDNSCache. destruct (ID <? 0) eqn:Hneg.
  { apply Z.ltb_lt in Hneg. split; [done | lia]. }
  apply Z.ltb_ge in Hneg.
  destruct (dns_cache st !! Z.to_nat ID) as [e'|]; cycle 1.
  { split; [done | by intros (_ & ? & _)]. }
  cbn [andb]. destruct (Cache.magic e' =? MAGICBYTE) eqn:Hm; cbn [negb].
  - apply Z.eqb_eq in Hm. split.
    + by intros [= <-].
    + by intros (_ & [= <-] & _).
  - apply Z.eqb_neq in Hm. split; [done|]. by intros (_ & [= <-] & ?).
Qed.

Lemma cache_matches_true (st : store) (domainID clientID : Z) (query_type : N)
    (j : Z) :
  cache_matches st domainID clientID query_type j = true ↔
  ∃ e, getDNSCache st j true = Some e
       ∧ cache_key e = (domainID, clientID, query_type).
Proof.
  unfold cache_matches, cache_key.
  destruct (getDNSCache st j true) as [e|]; cycle 1.
  { split; [done | by intros (e & ? & _)]. }
  rewrite !andb_true_iff, !Z.eqb_eq, N.eqb_eq. split.
  - intros [[Hd Hc] Ht]. exists e. split; [done|]. by rewrite Hd, Hc, Ht.
  - intros (e' & [= <-] & [= Hd Hc Ht]). done.
Qed.

(** If the checked accessor agrees on a slot, so does the scan's body. *)
Lemma cache_matches_same (st st' : store) (d c : Z) (t : N) (j : Z) :
  getDNSCache st' j true = getDNSCache st j true →
  cache_matches st' d c t j = cache_matches st d c t j.
Proof. intros Hsame. unfold cache_matches. by rewrite Hsame. Qed.

(** X10.  After [_findCacheID] has returned an ID with [create_new = true],
    a lookup of the same key finds that ID without changing the store, and
    the live entry at that ID carries the key.  If the sentinel of a live
    slot is not zero, every other key that a lookup found before the call
    is found at the same ID after it: creating an entry moves no other. *)
Theorem cache_lookup_after_create (st st' : store) (domainID clientID : Z)
    (query_type : N) (ID : Z) :
  Counters.dns_cache_size (counters st) < INT_MAX →
  _findCacheID st domainID clientID query_type true = (st', ID) →
  0 ≤ ID →
  _findCacheID st' domainID clientID query_type false = (st', ID)
  ∧ (∃ e, getDNSCache st' ID true = Some e
          ∧ cache_key e = (domainID, clientID, query_type))
  ∧ (MAGICBYTE ≠ 0 →
     ∀ d c t r, (d, c, t) ≠ (domainID, clientID, query_type) →
       _findCacheID st d c t false = (st, r) →
       0 ≤ r →
       _findCacheID st' d c t false = (st', r)).
Proof.
  intros Hroom Hcall HID. unfold _findCacheID in Hcall.
  destruct (scan_IDs _ _) as [r|] eqn:Hscan.
  - injection Hcall as <- <-. split; [|split].
    + unfold _findCacheID. by rewrite Hscan.
    + apply scan_IDs_Some in Hscan as (_ & Hhit & _).
      by apply cache_matches_true.
    + by intros _ d c t r' _ Hfound _.
  - cbn [negb] in Hcall.
    set (n := Counters.dns_cache_size (counters st)) in *.
    pose proof (scan_IDs_lowest n (cache_is_free st)) as Hk.
    unfold get_next_free_cacheID in Hcall. fold n in Hcall.
    set (k := match scan_IDs n (cache_is_free st) with
              | Some i => i | None => n end) in *.
    destruct (getDNSCache st k false) as [old|] eqn:Hslot;
      [|injection Hcall as <- <-; lia].
    injection Hcall as <- <-.
    rewrite getDNSCache_unchecked in Hslot.
    destruct (k <? 0) eqn:Hneg; [done|]. apply Z.ltb_ge in Hneg.
    pose proof (lookup_lt_Some _ _ _ Hslot) as Hlen.
    set (e := {| Cache.magic := MAGICBYTE; Cache.blocking_status := UNKNOWN_BLOCKED;
                 Cache.domainID := domainID; Cache.clientID := clientID;
                 Cache.query_type := query_type; Cache.force_reply := 0;
                 Cache.list_id := -1 |}).
    set (st' := set_counters _ _).
    assert (Hcache : dns_cache st' = <[Z.to_nat k := e]> (dns_cache st)) by done.
    assert (Hkn : 0 ≤ k ≤ n) by (destruct Hk as [[? _] | [-> _]]; lia).
    assert (Hcnt : Counters.dns_cache_size (counters st') = n + 1).
    { cbn. fold n. apply int_add_exact. unfold INT_MIN, INT_MAX in *. lia. }
    assert (Hnew : getDNSCache st' k true = Some e).
    { apply getDNSCache_checked. split; [done|]. split; [|done].
      rewrite Hcache. by apply list_lookup_insert_eq. }
    assert (Hother : ∀ j, j ≠ k →
              getDNSCache st' j true = getDNSCache st j true).
    { intros j Hj. unfold getDNSCache. destruct (j <? 0) eqn:Hjneg; [done|].
      apply Z.ltb_ge in Hjneg. rewrite Hcache.
      by rewrite list_lookup_insert_ne by lia. }
    split; [|split].
    + unfold _findCacheID.
      assert (scan_IDs (Counters.dns_cache_size (counters st'))
                (cache_matches st' domainID clientID query_type) = Some k) as ->;
        [|done].
      apply scan_IDs_Some. split; [lia|]. split.
      * apply cache_matches_true. by exists e.
      * intros j Hj.
        rewrite (cache_matches_same st st') by (apply Hother; lia).
        eapply scan_IDs_None in Hscan; [exact Hscan | lia].
    + by exists e.
    + intros Hmagic d c t r Hkey Hfound Hr.
      unfold _findCacheID in Hfound. cbn [negb] in Hfound. fold n in Hfound.
      destruct (scan_IDs n (cache_matches st d c t)) as [r'|] eqn:Hold;
        [|injection Hfound as <-; lia].
      injection Hfound as <-.
      apply scan_IDs_Some in Hold as (Hrn & Hhit & Hlow).
      assert (Hfree : k < n → cache_matches st d c t k = false).
      { intros Hlt. destruct Hk as [(_ & Hfree & _) | [Hkeq _]]; [|lia].
        unfold cache_is_free in Hfree. rewrite getDNSCache_unchecked in Hfree.
        rewrite (proj2 (Z.ltb_ge _ _) Hneg), Hslot in Hfree.
        apply Z.eqb_eq in Hfree.
        destruct (cache_matches st d c t k) eqn:Hm; [|done].
        apply cache_matches_true in Hm as (e' & He' & _).
        apply getDNSCache_checked in He' as (_ & He' & Hm').
        congruence. }
      assert (Hnow : cache_matches st' d c t k = false).
      { destruct (cache_matches st' d c t k) eqn:Hm; [|done].
        apply cache_matches_true in Hm as (e' & He' & Hkey').
        rewrite Hnew in He'. injection He' as <-. by rewrite <- Hkey' in Hkey. }
      assert (Hbody : ∀ j, 0 ≤ j < n →
                cache_matches st' d c t j = cache_matches st d c t j).
      { intros j Hj. destruct (decide (j = k)) as [-> | Hne].
        - rewrite Hnow. symmetry. apply Hfree. lia.
        - by apply (cache_matches_same st st'), Hother. }
      unfold _findCacheID. cbn [negb]. rewrite Hcnt.
      assert (scan_IDs (n + 1) (cache_matches st' d c t) = Some r') as ->; [|done].
      apply scan_IDs_Some. split; [lia|]. split.
      * rewrite Hbody; [done | lia].
      * intros j Hj. rewrite Hbody; [apply Hlow; lia | lia].
Qed.

(** ** The per-client cache reset *)

Lemma reset_loop_counters (st : store) (ID : Z) (n : nat) :
  counters (reset_loop st ID n) = counters st.
Proof.
  revert st ID. induction n as [|n IH]; intros st ID; cbn [reset_loop]; [done|].
  rewrite IH. by destruct (getDNSCache st ID true).
Qed.

(** The entry at [j] after the loop has visited the IDs from [ID] on. *)
Lemma reset_loop_lookup (st : store) (ID : Z) (n : nat) (j : nat) :
  0 ≤ ID →
  dns_cache (reset_loop st ID n) !! j
  = (λ e, if decide (ID ≤ Z.of_nat j < ID + Z.of_nat n)
          then if Cache.magic e =? MAGICBYTE then reset_cache_entry e else e
          else e) <$> dns_cache st !! j.
Proof.
  revert st ID. induction n as [|n IH]; intros st ID HID; cbn [reset_loop].
  { destruct (dns_cache st !! j) as [e|]; [|done].
    cbn [fmap option_fmap option_map]. by rewrite decide_False by lia. }
  rewrite IH by lia.
  destruct (decide (j = Z.to_nat ID)) as [-> | Hj].
  - (* the slot visited in this round *)
    replace (Z.of_nat (Z.to_nat ID)) with ID by lia.
    destruct (getDNSCache st ID true) as [e|] eqn:He.
    + apply getDNSCache_checked in He as (_ & He & Hm).
      cbn [dns_cache set_dns_cache]. rewrite list_lookup_alter_eq, He.
      cbn [fmap option_fmap option_map].
      rewrite decide_False by lia. rewrite decide_True by lia.
      by rewrite Hm, Z.eqb_refl.
    + destruct (dns_cache st !! Z.to_nat ID) as [e|] eqn:Hslot; [|done].
      cbn [fmap option_fmap option_map].
      rewrite decide_False by lia. rewrite decide_True by lia.
      destruct (Cache.magic e =? MAGICBYTE) eqn:Hm; [|done].
      apply Z.eqb_eq in Hm.
      assert (getDNSCache st ID true = Some e) as Hlive
        by (by apply getDNSCache_checked).
      congruence.
  - assert (Hsame : ∀ st', dns_cache st' = dns_cache st ∨
                           dns_cache st' = alter reset_cache_entry (Z.to_nat ID)
                                                 (dns_cache st) →
                           dns_cache st' !! j = dns_cache st !! j).
    { intros st' [-> | ->]; [done|]. by rewrite list_lookup_alter_ne. }
    rewrite (Hsame (match getDNSCache st ID true with
                    | Some _ => set_dns_cache (alter reset_cache_entry (Z.to_nat ID)) st
                    | None => st
                    end)) by (destruct (getDNSCache st ID true); [by right | by left]).
    destruct (dns_cache st !! j) as [e|]; [|done].
    cbn [fmap option_fmap option_map]. f_equal.
    destruct (decide (ID + 1 ≤ Z.of_nat j < ID + 1 + Z.of_nat n)),
             (decide (ID ≤ Z.of_nat j < ID + Z.of_nat (S n))); try done; lia.
Qed.

Lemma reset_loop_rest (st : store) (ID : Z) (n : nat) :
  set_dns_cache (λ _, dns_cache st) (reset_loop st ID n) = st.
Proof.
  revert st ID. induction n as [|n IH]; intros st ID; cbn [reset_loop].
  { by destruct st. }
  destruct (getDNSCache st ID true).
  - specialize (IH (set_dns_cache (alter reset_cache_entry (Z.to_nat ID)) st)
                   (ID + 1)).
    destruct (reset_loop _ _ _). destruct st. cbn in *.
    by injection IH as -> -> -> -> -> -> -> -> -> ->.
  - apply IH.
Qed.

Lemma reset_lookup (st : store) (j : nat) :
  dns_cache (FTL_reset_per_client_domain_data st) !! j
  = (λ e, if decide (Z.of_nat j < Counters.dns_cache_size (counters st))
          then if Cache.magic e =? MAGICBYTE then reset_cache_entry e else e
          else e) <$> dns_cache st !! j.
Proof.
  unfold FTL_reset_per_client_domain_data.
  rewrite reset_loop_lookup by done.
  destruct (dns_cache st !! j) as [e|]; [|done].
  cbn [fmap option_fmap option_map]. f_equal.
  destruct (decide (0 ≤ Z.of_nat j < 0 + Z.of_nat (Z.to_nat _))),
           (decide (Z.of_nat j < Counters.dns_cache_size (counters st)));
    try done; lia.
Qed.

(** The reset keeps the liveness and the key of every slot. *)
Lemma reset_keys (st : store) (ID : Z) :
  cache_key <$> getDNSCache (FTL_reset_per_client_domain_data st) ID true
  = cache_key <$> getDNSCache st ID true.
Proof.
  unfold getDNSCache. destruct (ID <? 0); [done|].
  rewrite reset_lookup. destruct (dns_cache st !! Z.to_nat ID) as [e0|]; [|done].
  cbn [fmap option_fmap option_map andb].
  destruct (decide _); [|done].
  destruct (Cache.magic e0 =? MAGICBYTE) eqn:Hm0; [|by rewrite Hm0].
  cbn [reset_cache_entry Cache.magic]. by rewrite Hm0.
Qed.

Lemma reset_counters (st : store) :
  counters (FTL_reset_per_client_domain_data st) = counters st.
Proof. apply reset_loop_counters. Qed.

Lemma reset_twice_cache (st : store) :
  dns_cache (FTL_reset_per_client_domain_data (FTL_reset_per_client_domain_data st))
  = dns_cache (FTL_reset_per_client_domain_data st).
Proof.
  apply list_eq. intros j.
  rewrite (reset_lookup (FTL_reset_per_client_domain_data st)).
  rewrite reset_counters, (reset_lookup st).
  destruct (dns_cache st !! j) as [e|]; [|done].
  cbn [fmap option_fmap option_map]. f_equal.
  destruct (decide _); [|done].
  destruct (Cache.magic e =? MAGICBYTE) eqn:Hm; [|by rewrite Hm].
  cbn [reset_cache_entry Cache.magic]. by rewrite Hm.
Qed.

(** X11.  [FTL_reset_per_client_domain_data] sets the blocking status of
    every live cache entry below the cache count to unknown and its list ID
    to -1, and touches nothing else: not the key or the other fields of
    those entries, not the entries that are free or at or beyond the count,
    and no other part of the store. *)
Theorem reset_per_client_effect (st : store) :
  let st' := FTL_reset_per_client_domain_data st in
  (∀ j : nat,
     dns_cache st' !! j
     = (λ e, if decide (Z.of_nat j < Counters.dns_cache_size (counters st))
             then if Cache.magic e =? MAGICBYTE then reset_cache_entry e else e
             else e) <$> dns_cache st !! j)
  ∧ (∀ ID e, 0 ≤ ID < Counters.dns_cache_size (counters st) →
             getDNSCache st' ID true = Some e →
             Cache.blocking_status e = UNKNOWN_BLOCKED ∧ Cache.list_id e = -1)
  ∧ (∀ ID, cache_key <$> getDNSCache st' ID true
           = cache_key <$> getDNSCache st ID true)
  ∧ set_dns_cache (λ _, dns_cache st) st' = st.
Proof.
  intros st'. split; [apply reset_lookup|]. split; [|split].
  - intros ID e HID He. apply getDNSCache_checked in He as (_ & He & Hm).
    unfold st' in He. rewrite reset_lookup in He.
    destruct (dns_cache st !! Z.to_nat ID) as [e0|]; [|done].
    cbn [fmap option_fmap option_map] in He. injection He as <-.
    rewrite decide_True in Hm |- * by lia.
    destruct (Cache.magic e0 =? MAGICBYTE) eqn:Hm0; [done|].
    apply Z.eqb_neq in Hm0. done.
  - apply reset_keys.
  - apply reset_loop_rest.
Qed.

(** X12.  The reset moves no entry and is idempotent: a lookup by
    [_findCacheID] with [create_new = false] returns the same ID after the
    reset as before, and a second reset changes nothing. *)
Theorem reset_per_client_lookup_stable (st : store) :
  (∀ domainID clientID query_type,
     snd (_findCacheID (FTL_reset_per_client_domain_data st)
                       domainID clientID query_type false)
     = snd (_findCacheID st domainID clientID query_type false))
  ∧ FTL_reset_per_client_domain_data (FTL_reset_per_client_domain_data st)
    = FTL_reset_per_client_domain_data st.
Proof.
  set (st' := FTL_reset_per_client_domain_data st).
  assert (Hcnt : counters st' = counters st) by apply reset_loop_counters.
  split.
  - intros d c t.
    assert (Hbody : ∀ j, cache_matches st' d c t j = cache_matches st d c t j).
    { intros j. unfold cache_matches. pose proof (reset_keys st j) as Hkey.
      fold st' in Hkey.
      destruct (getDNSCache st' j true) as [e'|], (getDNSCache st j true) as [e|];
        try done.
      by injection Hkey as -> -> ->. }
    unfold _findCacheID. cbn [negb]. rewrite Hcnt.
    rewrite (scan_IDs_ext _ (cache_matches st' d c t) (cache_matches st d c t))
      by (intros j _; apply Hbody).
    by destruct (scan_IDs _ _).
  - pose proof (reset_loop_rest st' 0
                  (Z.to_nat (Counters.dns_cache_size (counters st')))) as Hrest'.
    fold (FTL_reset_per_client_domain_data st') in Hrest'.
    pose proof (reset_twice_cache st) as Hcache. fold st' in Hcache.
    set (st'' := FTL_reset_per_client_domain_data st') in *.
    transitivity (set_dns_cache (λ _, dns_cache st') st''); [|exact Hrest'].
    rewrite <- Hcache. clearbody st''. by destruct st''.
Qed.

(** ** Finding a query by its ID *)

Lemma findQueryID_loop_spec (getQuery : Z → bool → option Query.queriesData)
    (id i : Z) (n : nat) :
  let r := findQueryID_loop getQuery id i n in
  (r = -1
   ∧ ∀ j q, i - Z.of_nat n < j ≤ i → getQuery j true = Some q → Query.id q ≠ id)
  ∨ (i - Z.of_nat n < r ≤ i
     ∧ (∃ q, getQuery r true = Some q ∧ Query.id q = id)
     ∧ ∀ j q, r < j ≤ i → getQuery j true = Some q → Query.id q ≠ id).
Proof.
  revert i. induction n as [|n IH]; intros i; cbn [findQueryID_loop].
  { left. split; [done|]. intros j q Hj. lia. }
  assert (Hstep : ∀ rest,
    (∀ q, getQuery i true = Some q → Query.id q ≠ id) →
    (rest = -1
     ∧ ∀ j q, i - 1 - Z.of_nat n < j ≤ i - 1 →
              getQuery j true = Some q → Query.id q ≠ id)
    ∨ (i - 1 - Z.of_nat n < rest ≤ i - 1
       ∧ (∃ q, getQuery rest true = Some q ∧ Query.id q = id)
       ∧ ∀ j q, rest < j ≤ i - 1 → getQuery j true = Some q → Query.id q ≠ id) →
    (rest = -1
     ∧ ∀ j q, i - Z.of_nat (S n) < j ≤ i →
              getQuery j true = Some q → Query.id q ≠ id)
    ∨ (i - Z.of_nat (S n) < rest ≤ i
       ∧ (∃ q, getQuery rest true = Some q ∧ Query.id q = id)
       ∧ ∀ j q, rest < j ≤ i → getQuery j true = Some q → Query.id q ≠ id)).
  { intros rest Hhere [[-> Hnone] | (Hr & Hfound & Hlater)].
    - left. split; [done|]. intros j q Hj Hq.
      destruct (decide (j = i)) as [-> | Hne]; [by apply Hhere|].
      apply (Hnone j q); [lia | done].
    - right. split; [lia|]. split; [done|]. intros j q Hj Hq.
      destruct (decide (j = i)) as [-> | Hne]; [by apply Hhere|].
      apply (Hlater j q); [lia | done]. }
  destruct (getQuery i true) as [query|] eqn:Hquery.
  - destruct (Query.id query =? id) eqn:Hid.
    + apply Z.eqb_eq in Hid. right. split; [lia|]. split; [by exists query|].
      intros j q Hj. lia.
    + apply Z.eqb_neq in Hid. apply Hstep; [|apply IH].
      by intros q [= <-].
  - apply Hstep; [done | apply IH].
Qed.

(** X13.  [findQueryID] returns the highest index of the window from
    [MAX(0, queries - MAXITER)] to [MAX(0, queries - 1)] at which the
    accessor yields a query with the ID, and -1 exactly when the window
    holds none; a query below the window is never found.  The window is
    never empty for a positive [MAXITER]: with no query at all, slot 0 is
    still probed. *)
Theorem findQueryID_window (getQuery : Z → bool → option Query.queriesData)
    (MAXITER : Z) (st : store) (id : Z) :
  let r := findQueryID getQuery MAXITER st id in
  let until := findQueryID_until MAXITER st in
  let start := findQueryID_start st in
  ((r = -1
    ∧ ∀ j q, until ≤ j ≤ start → getQuery j true = Some q → Query.id q ≠ id)
   ∨ (0 ≤ until ≤ r ∧ r ≤ start
      ∧ (∃ q, getQuery r true = Some q ∧ Query.id q = id)
      ∧ ∀ j q, r < j ≤ start → getQuery j true = Some q → Query.id q ≠ id))
  ∧ (0 ≤ Counters.queries (counters st) ≤ INT_MAX →
     0 < MAXITER ≤ INT_MAX →
     until = Z.max 0 (Counters.queries (counters st) - MAXITER)
     ∧ start = Z.max 0 (Counters.queries (counters st) - 1)
     ∧ until ≤ start).
Proof.
  intros r until start. split.
  - assert (Huntil : 0 ≤ until) by apply Z.le_max_l.
    pose proof (findQueryID_loop_spec getQuery id start
                  (Z.to_nat (start - until + 1))) as Hloop.
    cbv zeta in Hloop.
    change (findQueryID_loop getQuery id start (Z.to_nat (start - until + 1)))
      with r in Hloop.
    clearbody r until start.
    destruct Hloop as [[Hr Hnone] | (Hr & Hfound & Hlater)].
    + left. split; [done|]. intros j q Hj. apply Hnone. lia.
    + right. split; [lia|]. split; [lia|]. split; [done|].
      intros j q Hj. by apply Hlater.
  - intros Hcount Hiter. unfold until, start, findQueryID_until, findQueryID_start.
    rewrite !int_wrap_id by (unfold INT_MIN, INT_MAX in *; lia).
    repeat split; lia.
Qed.

(** ** Names of the query statuses *)

Ltac status_cases s :=
  let p := fresh "p" in
  destruct s as [|p]; [|do 5 (try destruct p as [p|p|])].

Lemma query_status_str_valid (status : N) :
  (status < QUERY_STATUS_MAX)%N ↔ is_Some (query_status_str status).
Proof.
  split.
  - intros Hvalid. status_cases status; cbn; first [lia | by eexists].
  - intros [name Hname]. status_cases status; cbn in Hname; first [lia | done].
Qed.

(** X14.  The two printers of a query status agree: for a valid status both
    give its name, and where the static [query_status_str] gives NULL, for a
    status at or beyond [QUERY_STATUS_MAX], [get_query_status_str] gives
    INVALID.  The name identifies the status, and no valid status is named
    INVALID. *)
Theorem query_status_names (status : N) :
  get_query_status_str status = default "INVALID" (query_status_str status)
  ∧ ((status < QUERY_STATUS_MAX)%N ↔ is_Some (query_status_str status))
  ∧ (get_query_status_str status = "INVALID" ↔ (QUERY_STATUS_MAX ≤ status)%N)
  ∧ ∀ other, is_Some (query_status_str status) →
             query_status_str status = query_status_str other →
             status = other.
Proof.
  split; [|split; [|split]].
  - by status_cases status.
  - apply query_status_str_valid.
  - split.
    + intros Hname. status_cases status; cbn in Hname; first [lia | done].
    + intros Hmax. status_cases status; cbn; first [done | lia].
  - intros other Hvalid%query_status_str_valid Hsame.
    assert (Hother : (other < QUERY_STATUS_MAX)%N).
    { apply query_status_str_valid. rewrite <- Hsame.
      by apply query_status_str_valid. }
    status_cases status; try lia;
      status_cases other; try lia; cbn in Hsame; first [done | discriminate Hsame].
Qed.

(** ** The accessors at a hiding privacy level *)

(** X15.  [getCNAMEDomainString] applies the gate of [getDomainString] to
    the CNAME domain of the query: empty for a NULL query or a negative ID,
    the placeholder at or above the threshold, the interned name of the live
    domain below it.  At or above its threshold no accessor reads the
    store: on any two stores it returns the same string. *)
Theorem hidden_accessors_ignore_store (st st' : store) (q : Query.queriesData) :
  getCNAMEDomainString st None = ""
  ∧ (Query.CNAME_domainID q < 0 → getCNAMEDomainString st (Some q) = "")
  ∧ (0 ≤ Query.CNAME_domainID q →
     (Query.privacylevel q < PRIVACY_HIDE_DOMAINS)%N →
     getCNAMEDomainString st (Some q)
     = match getDomain st (Query.CNAME_domainID q) true with
       | None => ""
       | Some domain => getstr st (Domain.domainpos domain)
       end)
  ∧ (0 ≤ Query.CNAME_domainID q →
     (PRIVACY_HIDE_DOMAINS ≤ Query.privacylevel q)%N →
     getCNAMEDomainString st (Some q) = HIDDEN_DOMAIN)
  ∧ ((PRIVACY_HIDE_DOMAINS ≤ Query.privacylevel q)%N →
     getDomainString st (Some q) = getDomainString st' (Some q)
     ∧ getCNAMEDomainString st (Some q) = getCNAMEDomainString st' (Some q))
  ∧ ((PRIVACY_HIDE_DOMAINS_CLIENTS ≤ Query.privacylevel q)%N →
     getClientIPString st (Some q) = getClientIPString st' (Some q)
     ∧ getClientNameString st (Some q) = getClientNameString st' (Some q)).
Proof.
  unfold getCNAMEDomainString, getDomainString, getClientIPString,
    getClientNameString.
  split; [done|]. split; [|split; [|split; [|split]]].
  - intros Hneg. by rewrite (proj2 (Z.ltb_lt _ _) Hneg).
  - intros Hid Hlevel. rewrite (proj2 (Z.ltb_ge _ _) Hid).
    by rewrite (proj2 (N.ltb_lt _ _) Hlevel).
  - intros Hid Hlevel. rewrite (proj2 (Z.ltb_ge _ _) Hid).
    by rewrite (proj2 (N.ltb_ge _ _) Hlevel).
  - intros Hlevel. rewrite (proj2 (N.ltb_ge _ _) Hlevel).
    split; [by destruct (Query.domainID q <? 0)
           | by destruct (Query.CNAME_domainID q <? 0)].
  - intros Hlevel. rewrite (proj2 (N.ltb_ge _ _) Hlevel).
    split; by destruct (Query.clientID q <? 0).
Qed.

(** ** Lower-casing *)

Lemma tolower_idempotent (c : ascii) : tolower (tolower c) = tolower c.
Proof. by destruct c as [[] [] [] [] [] [] [] []]. Qed.

Lemma tolower_not_upper (c : ascii) :
  (65 <=? uchar (tolower c)) && (uchar (tolower c) <=? 90) = false.
Proof. by destruct c as [[] [] [] [] [] [] [] []]. Qed.

Lemma tolower_fixed (c : ascii) :
  (65 <=? uchar c) && (uchar c <=? 90) = false → tolower c = c.
Proof. by destruct c as [[] [] [] [] [] [] [] []]. Qed.

(** X16.  [strtolower] keeps the length of the string, leaves no upper-case
    letter in it, leaves a string without upper-case letters as it is, and
    is therefore idempotent. *)
Theorem strtolower_lowercases (str : string) :
  String.length (strtolower str) = String.length str
  ∧ no_upper (strtolower str) = true
  ∧ (no_upper str = true → strtolower str = str)
  ∧ strtolower (strtolower str) = strtolower str.
Proof.
  induction str as [|c rest (Hlen & Hlower & Hfixed & Hidem)]; [done|].
  cbn [strtolower String.length no_upper]. repeat apply conj.
  - by rewrite Hlen.
  - by rewrite tolower_not_upper, Hlower.
  - intros [Hc Hrest]%andb_prop. apply negb_true_iff in Hc.
    by rewrite (tolower_fixed c Hc), (Hfixed Hrest).
  - by rewrite tolower_idempotent, Hidem.
Qed.

(** ** The hash *)

Lemma hashStr_loop_7bit (E1 E2 : Env) (s : string) (hash : Z) :
  is_7bit s = true → @hashStr_loop E1 s hash = @hashStr_loop E2 s hash.
Proof.
  revert hash. induction s as [|c rest IH]; intros hash; [done|].
  cbn [is_7bit hashStr_loop]. intros [Hc Hrest]%andb_prop. cbv zeta.
  assert (Hchar : @char_int E1 c = @char_int E2 c).
  { unfold char_int. apply Z.ltb_lt in Hc.
    rewrite (proj2 (Z.leb_gt _ _) Hc). by rewrite !andb_false_r. }
  rewrite Hchar. by apply IH.
Qed.

(** X17.  The hash is a [uint32_t] value whatever the string, and for a
    string of 7-bit characters it does not depend on whether plain [char]
    is signed: the hash stored with a name is the same on every platform. *)
Theorem hashStr_uint32 (E1 E2 : Env) (s : string) :
  0 ≤ @hashStr E1 s < 2 ^ 32
  ∧ (is_7bit s = true → @hashStr E1 s = @hashStr E2 s).
Proof.
  split.
  - unfold hashStr. cbv zeta. unfold u32 at 1. by apply Z.mod_pos_bound.
  - intros Hs. unfold hashStr. by rewrite (hashStr_loop_7bit E1 E2 s 0 Hs).
Qed.

End Properties.

(** * Concrete instances *)

#[local] Existing Instance example_env.

Lemma example_env_buckets_ok : env_buckets_ok.
Proof. intros t. cbn. lia. Qed.

Lemma status_counters_consistent_witness :
  env_buckets_ok
  ∧ status_calls_ok 0 example_calls
  ∧ Z.of_nat (initial_assignments example_calls) ≤ INT_MAX
  ∧ ∃ st', status_run (store_init 2) example_calls = Some st'
           ∧ counters_consistent st'
           ∧ length (queries st') = initial_assignments example_calls.
Proof.
  assert (H1 : env_buckets_ok) by (intros t; cbn; lia).
  assert (H2 : status_calls_ok 0 example_calls) by (cbn; repeat split; lia).
  assert (H3 : Z.of_nat (initial_assignments example_calls) ≤ INT_MAX)
    by (vm_compute; discriminate).
  exact (conj H1 (conj H2 (conj H3
           (status_counters_consistent 2 example_calls H1 H2 H3)))).
Defined.

Lemma change_clientcount_on_aliasclient_witness :
  clients aliasclient_store !! 0%nat = Some aliasclient_record
  ∧ Client.flags_aliasclient aliasclient_record = true
  ∧ ∃ st' c',
      change_clientcount aliasclient_store 0 5 2 1 3 = Some st'
      ∧ clients st' !! 0%nat = Some c'
      ∧ Client.count c' = int_add (Client.count aliasclient_record) 5
      ∧ Client.blockedcount c' = int_add (Client.blockedcount aliasclient_record) 2
      ∧ Client.overTime c'
        = (if overTimeIdx_in_range 1
           then alter (λ n, int_add n 3) (Z.to_nat 1) (Client.overTime aliasclient_record)
           else Client.overTime aliasclient_record)
      ∧ overTime st'
        = (if overTimeIdx_in_range 1
           then alter (overTime_add_total 3) (Z.to_nat 1) (overTime aliasclient_store)
           else overTime aliasclient_store)
      ∧ (∀ j, j ≠ 0%nat → clients st' !! j = clients aliasclient_store !! j)
      ∧ log st'
        = (log aliasclient_store
           ++ [Warn_add_to_aliasclient
                 (getstr aliasclient_store (Client.namepos aliasclient_record))
                 (getstr aliasclient_store (Client.ippos aliasclient_record))])%list.
Proof.
  assert (H1 : clients aliasclient_store !! 0%nat = Some aliasclient_record)
    by reflexivity.
  assert (H2 : Client.flags_aliasclient aliasclient_record = true) by reflexivity.
  exact (conj H1 (conj H2
           (change_clientcount_on_aliasclient aliasclient_store 0 aliasclient_record
              5 2 1 3 H1 H2))).
Defined.

(** C2, counterexample: a delta applied to the alias-client of
    [aliasclient_store] raises its count from 0 to 1. *)
Lemma aliasclient_delta_not_dropped :
  client_totals aliasclient_store 0 = Some (0, 0)
  ∧ (change_clientcount aliasclient_store 0 1 0 (-1) 0
       ≫= λ st', client_totals st' 0) = Some (1, 0)
  ∧ ¬ aliasclient_delta_dropped.
Proof.
  split; [reflexivity|]. split; [reflexivity|].
  intros Hclaim.
  destruct (Hclaim aliasclient_store 0%nat aliasclient_record 1 0 (-1) 0
              eq_refl eq_refl) as (st' & Hrun & Hclients & _).
  vm_compute in Hrun. injection Hrun as <-.
  vm_compute in Hclients. discriminate Hclients.
Qed.

Lemma allocation_on_miss_witness :
  scan_IDs (Counters.domains (counters recycled_store))
           (domain_matches recycled_store (hashStr "c.example") "c.example") = None
  ∧ is_Some (getDomain recycled_store (get_next_free_domainID recycled_store) false)
  ∧ lowest_free_or_count (domain_is_free recycled_store)
      (Counters.domains (counters recycled_store))
      (get_next_free_domainID recycled_store)
  ∧ snd (_findDomainID recycled_store "c.example" true 3)
    = get_next_free_domainID recycled_store
  ∧ Counters.domains (counters (fst (_findDomainID recycled_store "c.example" true 3)))
    = int_add (Counters.domains (counters recycled_store)) 1.
Proof.
  assert (H1 : scan_IDs (Counters.domains (counters recycled_store))
                 (domain_matches recycled_store (hashStr "c.example") "c.example")
               = None) by (vm_compute; reflexivity).
  assert (H2 : is_Some (getDomain recycled_store
                          (get_next_free_domainID recycled_store) false))
    by (eexists; vm_compute; reflexivity).
  exact (conj H1 (conj H2
           (proj1 allocation_on_miss recycled_store "c.example" true 3%Q H1 H2))).
Defined.

(** C3, counterexample: with slot 0 free and the count at 2, the reference
    allocation is slot 0 with the count left at 2; the upstream resolver
    takes slot 2, and the domain resolver takes slot 0 but raises the count
    to 3. *)
Lemma allocation_differs_from_reference :
  scan_IDs (Counters.upstreams (counters recycled_store))
           (upstream_matches recycled_store "9.9.9.9" 53) = None
  ∧ allocate_or_reuse (Upstream.magic <$> upstreams recycled_store)
                      (Counters.upstreams (counters recycled_store)) = (0, 2)
  ∧ (snd (_findUpstreamID recycled_store "9.9.9.9" 53),
     Counters.upstreams (counters (fst (_findUpstreamID recycled_store "9.9.9.9" 53))))
    = (2, 3)
  ∧ scan_IDs (Counters.domains (counters recycled_store))
             (domain_matches recycled_store (hashStr "c.example") "c.example") = None
  ∧ allocate_or_reuse (Domain.magic <$> domains recycled_store)
                      (Counters.domains (counters recycled_store)) = (0, 2)
  ∧ (snd (_findDomainID recycled_store "c.example" true 3),
     Counters.domains (counters (fst (_findDomainID recycled_store "c.example" true 3))))
    = (0, 3).
Proof. vm_compute. repeat split. Qed.

Lemma set_status_out_of_range_witness :
  queries one_query_store !! 0%nat = Some (with_status QUERY_UNKNOWN (example_query 1 100))
  ∧ (QUERY_STATUS_MAX ≤ 42)%N
  ∧ _query_set_status one_query_store 0 42 false = Some one_query_store.
Proof.
  assert (H1 : queries one_query_store !! 0%nat
               = Some (with_status QUERY_UNKNOWN (example_query 1 100)))
    by reflexivity.
  assert (H2 : (QUERY_STATUS_MAX ≤ 42)%N) by lia.
  exact (conj H1 (conj H2
           (set_status_out_of_range one_query_store 0 _ 42 false H1 H2))).
Defined.

Lemma client_count_after_calls_witness :
  [1700000100; 1700000200; 1700000300] ≠ []
  ∧ new_client_ok aliasclient_store "192.168.0.2" 3
  ∧ ∃ st' c,
      client_run aliasclient_store "192.168.0.2"
                 [1700000100; 1700000200; 1700000300]
      = Some (st', replicate 3 (get_next_free_clientID aliasclient_store))
      ∧ getClient st' (get_next_free_clientID aliasclient_store) true = Some c
      ∧ Client.count c = Z.of_nat 3
      ∧ Client.overTime c = replicate (Z.to_nat OVERTIME_SLOTS) 0
      ∧ foldr Z.add 0 (Client.overTime c) = 0.
Proof.
  assert (H1 : [1700000100; 1700000200; 1700000300] ≠ []) by discriminate.
  assert (H2 : new_client_ok aliasclient_store "192.168.0.2" 3).
  { unfold new_client_ok. split; [|split; [|split; [|split; [|split; [|split]]]]].
    - unfold client_strings_ok. vm_compute. repeat constructor.
    - vm_compute. reflexivity.
    - eexists. vm_compute. reflexivity.
    - vm_compute. split; discriminate.
    - vm_compute. reflexivity.
    - vm_compute. discriminate.
    - right. split; [vm_compute; discriminate|]. eexists. vm_compute. reflexivity. }
  exact (conj H1 (conj H2
           (client_count_after_calls aliasclient_store "192.168.0.2"
              [1700000100; 1700000200; 1700000300] H1 H2))).
Defined.

(** C6, counterexample: after one counting call, and after three, for a new
    IP the client's count is the number of calls but the sum of its time
    series is 0. *)
Lemma client_time_series_not_counted :
  (client_run (store_init 3) "192.168.0.9" [1700000100]
     ≫= λ r, client_totals (fst r) 0) = Some (1, 0)
  ∧ (client_run (store_init 3) "192.168.0.9" [1700000100; 1700000200; 1700000300]
       ≫= λ r, client_totals (fst r) 0) = Some (3, 0).
Proof. split; reflexivity. Qed.

(** C7.  On [recycled_store], whose domain slot 0 the garbage collector has
    freed, a call for the empty name returns slot 0 although that slot is
    not live and nothing is created: the hash of the empty name is 0, as is
    the hash field of a zeroed slot, offset 0 of the pool is the empty
    string, and the scan does not look at the slot's [magic].  A call for
    [c.example] then takes the free slot 0 for its new record, so that two
    distinct names have been given the same ID. *)
Theorem empty_name_found_in_freed_slot :
  let first := _findDomainID recycled_store "" false 3 in
  let later := _findDomainID (fst first) "c.example" true 4 in
  hashStr "" = 0
  ∧ domains recycled_store !! 0%nat = Some zero_domain
  ∧ getDomain recycled_store 0 true = None
  ∧ first = (recycled_store, 0)
  ∧ snd later = 0
  ∧ "" ≠ "c.example"
  ∧ ∃ d, getDomain (fst later) 0 true = Some d
         ∧ getstr (fst later) (Domain.domainpos d) = "c.example".
Proof.
  intros first later.
  assert (Hfirst : first = (recycled_store, 0)) by (vm_compute; reflexivity).
  split; [vm_compute; reflexivity|]. split; [vm_compute; reflexivity|].
  split; [vm_compute; reflexivity|]. split; [exact Hfirst|].
  split; [vm_compute; reflexivity|]. split; [discriminate|].
  eexists. split; vm_compute; reflexivity.
Qed.

Lemma domain_IDs_distinct_and_stable_witness :
  let first := _findDomainID (store_init 3) "a.example" true 1 in
  let later := _findDomainID (domain_run (fst first) [("b.example", true, 2%Q)])
                             "b.example" false 3 in
  MAGICBYTE ≠ 0
  ∧ domain_strings_ok (store_init 3)
  ∧ is_int (Counters.domains (counters (store_init 3)))
  ∧ is_Some (getDomain (fst first) (snd first) true)
  ∧ 0 ≤ snd later
  ∧ ("a.example" ≠ "b.example" → snd first ≠ snd later)
  ∧ ("a.example" = "b.example" → snd first = snd later).
Proof.
  intros first later.
  assert (H1 : MAGICBYTE ≠ 0) by discriminate.
  assert (H2 : domain_strings_ok (store_init 3)) by apply domain_strings_ok_init.
  assert (H3 : is_int (Counters.domains (counters (store_init 3))))
    by (vm_compute; split; discriminate).
  assert (H4 : is_Some (getDomain (fst first) (snd first) true))
    by (eexists; vm_compute; reflexivity).
  assert (H5 : 0 ≤ snd later) by (vm_compute; discriminate).
  exact (conj H1 (conj H2 (conj H3 (conj H4 (conj H5
           (domain_IDs_distinct_and_stable (store_init 3) "a.example" "b.example"
              true false 1%Q 3%Q [("b.example", true, 2%Q)] H1 H2 H3 H4 H5)))))).
Defined.

Lemma prefilters_preserve_lookup_witness :
  domain_hashes_ok recycled_store
  ∧ scan_IDs (Counters.domains (counters recycled_store))
             (domain_matches recycled_store (hashStr "b.example") "b.example")
    = scan_IDs (Counters.domains (counters recycled_store))
               (domain_matches_exact recycled_store "b.example")
  ∧ scan_IDs (Counters.clients (counters recycled_store))
             (client_matches recycled_store "b.example")
    = scan_IDs (Counters.clients (counters recycled_store))
               (client_matches_exact recycled_store "b.example").
Proof.
  assert (H1 : domain_hashes_ok recycled_store).
  { apply domain_hashes_all_ok. unfold domain_hashes_all.
    let l := eval vm_compute in (domains recycled_store) in
    change (domains recycled_store) with l.
    repeat (constructor; [vm_compute; reflexivity|]). constructor. }
  exact (conj H1 (prefilters_preserve_lookup recycled_store "b.example" H1)).
Defined.

Lemma set_status_idempotent_witness :
  _query_set_status one_query_store 0 QUERY_GRAVITY false = Some gravity_store
  ∧ _query_set_status gravity_store 0 QUERY_GRAVITY false = Some gravity_store.
Proof.
  assert (H1 : _query_set_status one_query_store 0 QUERY_GRAVITY false
               = Some gravity_store) by reflexivity.
  exact (conj H1 (set_status_idempotent one_query_store gravity_store 0
                    QUERY_GRAVITY false H1)).
Defined.

Lemma set_status_frame_witness :
  let q := with_status QUERY_UNKNOWN (example_query 1 100) in
  queries one_query_store !! 0%nat = Some q
  ∧ _query_set_status one_query_store 0 QUERY_GRAVITY false = Some gravity_store
  ∧ same_records one_query_store gravity_store
  ∧ (∀ j, j ≠ 0%nat → queries gravity_store !! j = queries one_query_store !! j)
  ∧ (∃ q', queries gravity_store !! 0%nat = Some q'
           ∧ with_status (Query.status q) q' = q)
  ∧ (∀ b, b ≠ Z.to_nat (getOverTimeID (Query.timestamp q)) →
          overTime gravity_store !! b = overTime one_query_store !! b)
  ∧ (∀ b, OverTime.total <$> overTime gravity_store !! b
          = OverTime.total <$> overTime one_query_store !! b)
  ∧ (∀ s', s' ≠ QUERY_GRAVITY → s' ≠ Query.status q →
           Counters.status (counters gravity_store) !! N.to_nat s'
           = Counters.status (counters one_query_store) !! N.to_nat s').
Proof.
  intros q.
  assert (H1 : queries one_query_store !! 0%nat = Some q) by reflexivity.
  assert (H2 : _query_set_status one_query_store 0 QUERY_GRAVITY false
               = Some gravity_store) by reflexivity.
  exact (conj H1 (conj H2
           (set_status_frame one_query_store gravity_store 0 q QUERY_GRAVITY false
              H1 H2))).
Defined.

Lemma set_status_there_and_back_witness :
  let q := with_status QUERY_UNKNOWN (example_query 1 100) in
  queries one_query_store !! 0%nat = Some q
  ∧ counters_are_ints one_query_store
  ∧ _query_set_status one_query_store 0 QUERY_GRAVITY false = Some gravity_store
  ∧ _query_set_status gravity_store 0 (Query.status q) false = Some one_query_store
  ∧ one_query_store = one_query_store.
Proof.
  intros q.
  assert (H1 : queries one_query_store !! 0%nat = Some q) by reflexivity.
  assert (H2 : counters_are_ints one_query_store).
  { unfold counters_are_ints, is_int. split.
    - let l := eval vm_compute in (Counters.status (counters one_query_store)) in
      change (Counters.status (counters one_query_store)) with l.
      repeat (constructor; [vm_compute; split; discriminate|]). constructor.
    - let l := eval vm_compute in (overTime one_query_store) in
      change (overTime one_query_store) with l.
      repeat (constructor; [vm_compute; repeat split; discriminate|]). constructor. }
  assert (H3 : _query_set_status one_query_store 0 QUERY_GRAVITY false
               = Some gravity_store) by reflexivity.
  assert (H4 : _query_set_status gravity_store 0 (Query.status q) false
               = Some one_query_store) by reflexivity.
  exact (conj H1 (conj H2 (conj H3 (conj H4
           (set_status_there_and_back one_query_store gravity_store one_query_store
              0 q QUERY_GRAVITY H1 H2 H3 H4))))).
Defined.

Lemma aggregate_counts_after_run_witness :
  env_buckets_ok
  ∧ status_calls_ok 0 example_calls
  ∧ Z.of_nat (initial_assignments example_calls) ≤ INT_MAX
  ∧ ∃ st', status_run (store_init 2) example_calls = Some st'
           ∧ get_blocked_count st'
             = count_queries (λ q, is_blocked (Query.status q)) (queries st')
           ∧ get_cached_count st'
             = count_queries (λ q, is_cached (Query.status q)) (queries st')
           ∧ get_forwarded_count st'
             = count_queries (λ q, is_forwarded_or_retried (Query.status q))
                             (queries st').
Proof.
  assert (H1 : env_buckets_ok) by (intros t; cbn; lia).
  assert (H2 : status_calls_ok 0 example_calls) by (cbn; repeat split; lia).
  assert (H3 : Z.of_nat (initial_assignments example_calls) ≤ INT_MAX)
    by (vm_compute; discriminate).
  exact (conj H1 (conj H2 (conj H3
           (aggregate_counts_after_run 2 example_calls H1 H2 H3)))).
Defined.

Lemma bucket_sums_match_aggregates_witness :
  env_buckets_ok
  ∧ status_calls_ok 0 example_calls
  ∧ Z.of_nat (initial_assignments example_calls) ≤ INT_MAX
  ∧ ∃ st', status_run (store_init 2) example_calls = Some st'
           ∧ bucket_sum OverTime.blocked st' = get_blocked_count st'
           ∧ bucket_sum OverTime.cached st' = get_cached_count st'
           ∧ bucket_sum OverTime.forwarded st' = status_count st' QUERY_FORWARDED
           ∧ get_forwarded_count st'
             = bucket_sum OverTime.forwarded st'
               + status_count st' QUERY_RETRIED
               + status_count st' QUERY_RETRIED_DNSSEC.
Proof.
  assert (H1 : env_buckets_ok) by (intros t; cbn; lia).
  assert (H2 : status_calls_ok 0 example_calls) by (cbn; repeat split; lia).
  assert (H3 : Z.of_nat (initial_assignments example_calls) ≤ INT_MAX)
    by (vm_compute; discriminate).
  exact (conj H1 (conj H2 (conj H3
           (bucket_sums_match_aggregates 2 example_calls H1 H2 H3)))).
Defined.

Lemma change_clientcount_fan_out_witness :
  let delta := client_add 5 2 (overTimeIdx_in_range 1) 1 3 in
  clients linked_store !! 1%nat = Some linked_record
  ∧ Client.flags_aliasclient linked_record = false
  ∧ 0 ≤ Client.aliasclient_id linked_record
  ∧ Z.to_nat (Client.aliasclient_id linked_record) ≠ 1%nat
  ∧ getClient linked_store (Client.aliasclient_id linked_record) true
    = Some aliasclient_record
  ∧ ∃ st', change_clientcount linked_store 1 5 2 1 3 = Some st'
           ∧ clients st' !! 1%nat = Some (delta linked_record)
           ∧ clients st' !! Z.to_nat (Client.aliasclient_id linked_record)
             = Some (delta aliasclient_record)
           ∧ (∀ j, j ≠ 1%nat → j ≠ Z.to_nat (Client.aliasclient_id linked_record) →
                   clients st' !! j = clients linked_store !! j)
           ∧ length (clients st') = length (clients linked_store)
           ∧ overTime st'
             = (if overTimeIdx_in_range 1
                then alter (overTime_add_total 3) (Z.to_nat 1) (overTime linked_store)
                else overTime linked_store)
           ∧ log st' = log linked_store
           ∧ same_outside_clients linked_store st'.
Proof.
  intros delta.
  assert (H1 : clients linked_store !! 1%nat = Some linked_record) by reflexivity.
  assert (H2 : Client.flags_aliasclient linked_record = false) by reflexivity.
  assert (H3 : 0 ≤ Client.aliasclient_id linked_record) by (vm_compute; discriminate).
  assert (H4 : Z.to_nat (Client.aliasclient_id linked_record) ≠ 1%nat)
    by (vm_compute; discriminate).
  assert (H5 : getClient linked_store (Client.aliasclient_id linked_record) true
               = Some aliasclient_record) by reflexivity.
  exact (conj H1 (conj H2 (conj H3 (conj H4 (conj H5
           (proj2 (change_clientcount_fan_out linked_store 1 linked_record 5 2 1 3
                     H1 H2)
                  aliasclient_record H3 H4 H5)))))).
Defined.

Lemma resolvers_out_of_slots_witness :
  scan_IDs (Counters.domains (counters (store_init 0)))
           (domain_matches (store_init 0) (hashStr "a.example") "a.example") = None
  ∧ (∀ j, 0 ≤ j < Counters.domains (counters (store_init 0)) →
          domain_is_free (store_init 0) j = false)
  ∧ Z.of_nat (length (domains (store_init 0)))
    ≤ Counters.domains (counters (store_init 0))
  ∧ _findDomainID (store_init 0) "a.example" true 1
    = (add_log (Err_memory "findDomainID") (store_init 0), -1).
Proof.
  assert (H1 : scan_IDs (Counters.domains (counters (store_init 0)))
                 (domain_matches (store_init 0) (hashStr "a.example") "a.example")
               = None) by reflexivity.
  assert (H2 : ∀ j, 0 ≤ j < Counters.domains (counters (store_init 0)) →
                    domain_is_free (store_init 0) j = false)
    by (intros j Hj; cbn in Hj; lia).
  assert (H3 : Z.of_nat (length (domains (store_init 0)))
               ≤ Counters.domains (counters (store_init 0)))
    by (vm_compute; discriminate).
  exact (conj H1 (conj H2 (conj H3
           (proj1 (resolvers_out_of_slots (store_init 0)) "a.example" true 1%Q
                  H1 H2 H3)))).
Defined.

Lemma upstream_found_again_witness :
  let r := _findUpstreamID (store_init 2) "8.8.8.8" 53 in
  upstream_strings_ok (store_init 2)
  ∧ Counters.upstreams (counters (store_init 2)) < INT_MAX
  ∧ _findUpstreamID (store_init 2) "8.8.8.8" 53 = (fst r, snd r)
  ∧ 0 ≤ snd r
  ∧ _findUpstreamID (fst r) "8.8.8.8" 53 = (fst r, snd r)
  ∧ upstream_strings_ok (fst r)
  ∧ ∃ u, getUpstream (fst r) (snd r) false = Some u
         ∧ getstr (fst r) (Upstream.ippos u) = "8.8.8.8"
         ∧ Upstream.port u = 53.
Proof.
  intros r.
  assert (H1 : upstream_strings_ok (store_init 2))
    by (unfold upstream_strings_ok; cbn; repeat constructor).
  assert (H2 : Counters.upstreams (counters (store_init 2)) < INT_MAX)
    by reflexivity.
  assert (H3 : _findUpstreamID (store_init 2) "8.8.8.8" 53 = (fst r, snd r))
    by reflexivity.
  assert (H4 : 0 ≤ snd r) by (vm_compute; discriminate).
  exact (conj H1 (conj H2 (conj H3 (conj H4
           (upstream_found_again (store_init 2) (fst r) "8.8.8.8" 53 (snd r)
              H1 H2 H3 H4))))).
Defined.

Lemma cache_lookup_after_create_witness :
  let r := _findCacheID (store_init 2) 0 0 1 true in
  Counters.dns_cache_size (counters (store_init 2)) < INT_MAX
  ∧ _findCacheID (store_init 2) 0 0 1 true = (fst r, snd r)
  ∧ 0 ≤ snd r
  ∧ _findCacheID (fst r) 0 0 1 false = (fst r, snd r)
  ∧ (∃ e, getDNSCache (fst r) (snd r) true = Some e ∧ cache_key e = (0, 0, 1%N))
  ∧ (MAGICBYTE ≠ 0 →
     ∀ d c t r', (d, c, t) ≠ (0, 0, 1%N) →
       _findCacheID (store_init 2) d c t false = (store_init 2, r') →
       0 ≤ r' →
       _findCacheID (fst r) d c t false = (fst r, r')).
Proof.
  intros r.
  assert (H1 : Counters.dns_cache_size (counters (store_init 2)) < INT_MAX)
    by reflexivity.
  assert (H2 : _findCacheID (store_init 2) 0 0 1 true = (fst r, snd r))
    by reflexivity.
  assert (H3 : 0 ≤ snd r) by (vm_compute; discriminate).
  exact (conj H1 (conj H2 (conj H3
           (cache_lookup_after_create (store_init 2) (fst r) 0 0 1 (snd r)
              H1 H2 H3)))).
Defined.

Lemma findQueryID_window_witness :
  0 ≤ Counters.queries (counters one_query_store) ≤ INT_MAX
  ∧ 0 < 100 ≤ INT_MAX
  ∧ findQueryID_until 100 one_query_store
    = Z.max 0 (Counters.queries (counters one_query_store) - 100)
  ∧ findQueryID_start one_query_store
    = Z.max 0 (Counters.queries (counters one_query_store) - 1)
  ∧ findQueryID_until 100 one_query_store ≤ findQueryID_start one_query_store.
Proof.
  assert (H1 : 0 ≤ Counters.queries (counters one_query_store) ≤ INT_MAX)
    by (vm_compute; split; discriminate).
  assert (H2 : 0 < 100 ≤ INT_MAX) by (vm_compute; split; [reflexivity | discriminate]).
  exact (conj H1 (conj H2
           (proj2 (findQueryID_window example_getQuery 100 one_query_store 1)
                  H1 H2))).
Defined.

Lemma hashStr_uint32_witness :
  is_7bit "a.example" = true
  ∧ @hashStr example_env "a.example" = @hashStr unsigned_env "a.example".
Proof.
  assert (H1 : is_7bit "a.example" = true) by reflexivity.
  exact (conj H1 (proj2 (hashStr_uint32 example_env unsigned_env "a.example") H1)).
Defined.
